(** * imagegen: rate-limited dispatch and conversation state

    A shallow embedding of the request-routing core of the imagegen
    library: the token bucket and the composite rate limiter of package
    [ratelimiter], the token estimator, the [Manager] router and the
    [ManagedConversation] state machine.

    Conventions of the embedding.
    - Go's [int] and [time.Duration] are 64-bit two's-complement integers:
      they are carried as [Z] and every arithmetic result is wrapped by
      [Int64.wrap].
    - [float64] is IEEE 754 binary64, taken from the [SpecFloat]
      specification of the Standard Library (precision 53, emax 1024).
    - [time.Now()] is an input: every operation receives the clock reading(s)
      it performs, as nanoseconds on the monotonic clock.
    - A mutex-protected method is one atomic step from state to state. *)

From Stdlib Require Import ZArith Lia List Bool String Ascii.
From Stdlib Require Import Floats.SpecFloat.
From stdpp Require Import base option list gmap strings pretty.

Local Open Scope Z_scope.

(* ===================================================================== *)
(** ** Machine integers *)

Module Int64.

Definition min_int : Z := - 2 ^ 63.
Definition max_int : Z := 2 ^ 63 - 1.

Definition in_range (z : Z) : Prop := min_int <= z <= max_int.

(** Two's-complement wrap-around of a mathematical result. *)
Definition wrap (z : Z) : Z := (z + 2 ^ 63) mod 2 ^ 64 - 2 ^ 63.

Definition add (x y : Z) : Z := wrap (x + y).
Definition sub (x y : Z) : Z := wrap (x - y).

(** Go's [/] truncates toward zero. *)
Definition quot (x y : Z) : Z := wrap (Z.quot x y).

End Int64.

(* ===================================================================== *)
(** ** binary64 arithmetic *)

Module F64.

Definition prec : Z := 53.
Definition emax : Z := 1024.

Definition t : Type := spec_float.

Definition mul : t -> t -> t := SFmul prec emax.
Definition div : t -> t -> t := SFdiv prec emax.

(** [float64(i)] for an integer [i]: rounded to nearest, ties to even. *)
Definition of_int (i : Z) : t := binary_normalize prec emax i 0 false.

(** The integer part of a finite float, rounding toward zero. *)
Definition trunc (x : t) : option Z :=
  match x with
  | S754_zero _ => Some 0
  | S754_finite s m e =>
      let a := match e with
               | Zneg p => Z.pos m / 2 ^ Z.pos p
               | _ => Z.pos m * 2 ^ e
               end in
      Some (if s then - a else a)
  | _ => None
  end.

(** [int(x)]: truncation toward zero.  When the value does not fit (or is an
    infinity or a NaN) Go leaves the result to the implementation; amd64
    yields the "integer indefinite" value [min_int], which is what is
    modelled. *)
Definition to_int (x : t) : Z :=
  match trunc x with
  | Some z => if (Int64.min_int <=? z) && (z <=? Int64.max_int) then z
              else Int64.min_int
  | None => Int64.min_int
  end.

(** [math.Ceil]: the least integral value not below [x]. *)
Definition ceil (x : t) : t :=
  match x with
  | S754_finite s m e =>
      match e with
      | Zneg p =>
          let v := if s then Z.neg m else Z.pos m in
          let c := - ((- v) / 2 ^ Z.pos p) in
          binary_normalize prec emax c 0 s
      | _ => x
      end
  | _ => x
  end.

(** The constant [1.2], rounded to binary64: 0x3FF3333333333333. *)
Definition c1_2 : t := S754_finite false 5404319552844595 (-52).

(** The constant [4.0]. *)
Definition c4 : t := S754_finite false 4503599627370496 (-50).

(** [x] is a non-negative number that is not above [2^k]. *)
Definition le_pow2 (x : spec_float) (k : Z) : Prop :=
  match x with
  | S754_zero false => True
  | S754_finite false m e => Z.pos m <= 2 ^ (k - e)
  | _ => False
  end.

(** [x] is a finite positive number that is not below [2^k], or [+oo]. *)
Definition ge_pow2 (x : spec_float) (k : Z) : Prop :=
  match x with
  | S754_finite false m e => 2 ^ (k - e) <= Z.pos m
  | S754_infinity false => True
  | _ => False
  end.

(** Where [m / 2^n] lies between two integers, from the remainder. *)
Definition rem_loc (m n : Z) : location :=
  if m mod 2 ^ n =? 0 then loc_Exact
  else loc_Inexact (m mod 2 ^ n ?= 2 ^ (n - 1)).

(** The integer nearest to [p] among those of at most 53 significant bits,
    ties to even. *)
Definition RN (p : Z) : Z :=
  let n := Z.max 0 (Zdigits2 p - 53) in
  round_nearest_even (p / 2 ^ n) (rem_loc p n) * 2 ^ n.

End F64.

(* ===================================================================== *)
(** ** Time *)

Definition Time : Type := Z.
Definition Duration : Type := Z.

Definition Millisecond : Duration := 1000000.
Definition Second : Duration := 1000000000.
Definition Minute : Duration := 60 * Second.

(** [t.Sub(u)]: the duration [t-u], saturated to the range of [Duration]. *)
Definition Sub (t u : Time) : Duration :=
  Z.max Int64.min_int (Z.min Int64.max_int (t - u)).

(* ===================================================================== *)
(** ** Package ratelimiter: the token bucket *)

Module TokenBucket.

Record t : Type := mk {
  capacity : Z;
  remaining : Z;
  refillInterval : Duration;
  lastRefill : Time
}.

Definition NewTokenBucket (capacity initialTokens : Z)
    (refillInterval : Duration) (now : Time) : t :=
  {| capacity := capacity;
     remaining := initialTokens;
     refillInterval := refillInterval;
     lastRefill := now |}.

(** [HasCapacity] checks if tokens are available without consuming them. *)
Definition HasCapacity (tb : t) (tokens : Z) (now : Time) : bool :=
  let remaining :=
    if refillInterval tb <=? Sub now (lastRefill tb)
    then capacity tb
    else remaining tb in
  tokens <=? remaining.

(** [Consume] tries to consume [tokens] from the bucket. *)
Definition Consume (tb : t) (tokens : Z) (now : Time) : bool * t :=
  let tb1 :=
    if refillInterval tb <=? Sub now (lastRefill tb)
    then mk (capacity tb) (capacity tb) (refillInterval tb) now
    else tb in
  if tokens <=? remaining tb1
  then (true, mk (capacity tb1) (Int64.sub (remaining tb1) tokens)
                 (refillInterval tb1) (lastRefill tb1))
  else (false, tb1).

Definition TryConsume (tb : t) (tokens : Z) (now : Time) : bool * t :=
  Consume tb tokens now.

(** [int(float64(capacity) * (float64(elapsed) / float64(interval)))]. *)
Definition replenishedTokens (tb : t) (timeSinceLastRefill : Duration) : Z :=
  F64.to_int
    (F64.mul (F64.of_int (capacity tb))
       (F64.div (F64.of_int timeSinceLastRefill)
                (F64.of_int (refillInterval tb)))).

(** The wait for [tokensNeeded] more tokens, with the 10% buffer. *)
Definition bufferedWait (tb : t) (tokensNeeded : Z) : Duration :=
  let tokenRefillRate :=
    F64.div (F64.of_int (capacity tb)) (F64.of_int (refillInterval tb)) in
  let waitDuration :=
    F64.to_int (F64.div (F64.of_int tokensNeeded) tokenRefillRate) in
  Int64.add waitDuration (Int64.quot waitDuration 10).

(** The effective remaining of [TimeUntilAvailable], with partial refill. *)
Definition effectiveRemaining (tb : t) (now : Time) : Z :=
  let timeSinceLastRefill := Sub now (lastRefill tb) in
  if refillInterval tb <=? timeSinceLastRefill then capacity tb
  else if 0 <? timeSinceLastRefill then
    Z.min (capacity tb)
          (Int64.add (remaining tb) (replenishedTokens tb timeSinceLastRefill))
  else remaining tb.

(** [TimeUntilAvailable] returns how long until tokens would be available;
    the bucket is returned as it is left. *)
Definition TimeUntilAvailable (tb : t) (tokens : Z) (now : Time)
    : Duration * t :=
  let effectiveRemaining := effectiveRemaining tb now in
  if tokens <=? effectiveRemaining then (0, tb)
  else
    let tokensNeeded := Int64.sub tokens effectiveRemaining in
    (bufferedWait tb tokensNeeded, tb).

(** [Wait] commits the refill into the bucket, then computes the wait. *)
Definition Wait (tb : t) (tokens : Z) (now : Time) : Duration * t :=
  let timeSinceLastRefill := Sub now (lastRefill tb) in
  let tb1 :=
    if refillInterval tb <=? timeSinceLastRefill
    then mk (capacity tb) (capacity tb) (refillInterval tb) now
    else if 0 <? timeSinceLastRefill
    then mk (capacity tb)
            (Z.min (capacity tb)
               (Int64.add (remaining tb)
                  (replenishedTokens tb timeSinceLastRefill)))
            (refillInterval tb) now
    else tb in
  if tokens <=? remaining tb1 then (0, tb1)
  else
    let tokensNeeded := Int64.sub tokens (remaining tb1) in
    (bufferedWait tb1 tokensNeeded, tb1).

(** The remaining a bucket offers at [now], once the refill check is done. *)
Definition available (tb : t) (now : Time) : Z :=
  if refillInterval tb <=? Sub now (lastRefill tb)
  then capacity tb else remaining tb.

(** The bucket after the refill check of [Consume]. *)
Definition refillChecked (tb : t) (now : Time) : t :=
  if refillInterval tb <=? Sub now (lastRefill tb)
  then mk (capacity tb) (capacity tb) (refillInterval tb) now
  else tb.

(** The operations of a bucket, and what one of them leaves behind. *)
Inductive op : Type :=
| OpConsume (tokens : Z)
| OpTryConsume (tokens : Z)
| OpWait (tokens : Z)
| OpHasCapacity (tokens : Z)
| OpTimeUntilAvailable (tokens : Z).

Definition step (tb : t) (o : op) (now : Time) : t :=
  match o with
  | OpConsume n => snd (Consume tb n now)
  | OpTryConsume n => snd (TryConsume tb n now)
  | OpWait n => snd (Wait tb n now)
  | OpHasCapacity n => tb
  | OpTimeUntilAvailable n => snd (TimeUntilAvailable tb n now)
  end.

(** The bucket invariant. *)
Definition inv (tb : t) : Prop := 0 <= remaining tb <= capacity tb.

(** The amount of a consuming operation is not negative. *)
Definition nonNegative (o : op) : Prop :=
  match o with
  | OpConsume n | OpTryConsume n => 0 <= n
  | _ => True
  end.

(** A run of operations, each at its clock reading. *)
Fixpoint run (tb : t) (ops : list (op * Time)) : t :=
  match ops with
  | [] => tb
  | (o, now) :: rest => run (step tb o now) rest
  end.

End TokenBucket.

(* ===================================================================== *)
(** ** Package ratelimiter: the composite limiter *)

(** The context's error, as [ctx.Err()] reports it. *)
Inductive ContextError : Type := Canceled | DeadlineExceeded.

(** What the [select] of a wait observes first: the timer or [ctx.Done()]. *)
Inductive wake : Type := TimerFired | CtxDone (err : ContextError).

(** The clock readings of one limiter call, one per bucket visit. *)
Record Clock : Type := mkClock {
  atEstimateTokens : Time;
  atEstimateRequests : Time;
  atConsumeTokens : Time;
  atConsumeRequests : Time
}.

Module RateLimiter.

Record t : Type := mk {
  TokensBucket : TokenBucket.t;
  RequestsBucket : TokenBucket.t
}.

Record RateLimitConfig : Type := mkConfig {
  ModelName : string;
  TokensPerMinute : Z;
  RequestsPerMinute : Z;
  TokensPerMessage : Z;
  TokensPerDay : Z
}.

Inductive error : Type :=
| WaitExceeded (waitDuration maxWait : Duration)
| ContextDone (err : ContextError)
| AcquireFailed.

(** The timers a call started and how each sleep ended. *)
Inductive event : Type := Sleep (d : Duration) (w : wake).

(** [NewLimiter]; [nowT] and [nowR] are the readings of the two
    [NewTokenBucket] calls. *)
Definition NewLimiter (config : RateLimitConfig) (nowT nowR : Time) : t :=
  let refillInterval := Minute in
  {| TokensBucket :=
       TokenBucket.NewTokenBucket (TokensPerMinute config)
         (TokensPerMinute config) refillInterval nowT;
     RequestsBucket :=
       TokenBucket.NewTokenBucket (RequestsPerMinute config)
         (RequestsPerMinute config) refillInterval nowR |}.

(** Modelled from the spec: [ratelimiter.New(tokensPerMinute,
    requestsPerMinute)], the constructor [RegisterModel] calls, is not among
    the sources; the spec has the default in-memory composite limiter
    built from the two declared rates, as [NewLimiter] builds it. *)
Definition New (tokensPerMinute requestsPerMinute : Z) (nowT nowR : Time)
    : t :=
  NewLimiter (mkConfig "" tokensPerMinute requestsPerMinute 0 0) nowT nowR.

Definition HasCapacity (rl : t) (numTokens : Z) (nowT nowR : Time) : bool :=
  TokenBucket.HasCapacity (TokensBucket rl) numTokens nowT
  && TokenBucket.HasCapacity (RequestsBucket rl) 1 nowR.

(** [TryConsume]: the request bucket is visited only when the token bucket
    accepted (Go's [&&] short-circuits). *)
Definition TryConsume (rl : t) (numTokens : Z) (nowT nowR : Time) : bool * t :=
  let '(okT, tb) := TokenBucket.TryConsume (TokensBucket rl) numTokens nowT in
  if okT then
    let '(okR, rb) := TokenBucket.TryConsume (RequestsBucket rl) 1 nowR in
    (okR, mk tb rb)
  else (false, mk tb (RequestsBucket rl)).

Definition CanProceed (rl : t) (numTokens : Z) (nowT nowR : Time) : bool * t :=
  TryConsume rl numTokens nowT nowR.

Definition Consume (rl : t) (numTokens : Z) (nowT nowR : Time) : bool * t :=
  TryConsume rl numTokens nowT nowR.

Definition Wait (rl : t) (tokens : Z) (now : Time) : Duration * t :=
  let '(d, tb) := TokenBucket.Wait (TokensBucket rl) tokens now in
  (d, mk tb (RequestsBucket rl)).

Definition TimeUntilAvailable (rl : t) (tokens : Z) (nowT nowR : Time)
    : Duration * t :=
  let '(tokenWait, tb) :=
    TokenBucket.TimeUntilAvailable (TokensBucket rl) tokens nowT in
  let '(requestWait, rb) :=
    TokenBucket.TimeUntilAvailable (RequestsBucket rl) 1 nowR in
  if requestWait <? tokenWait then (tokenWait, mk tb rb)
  else (requestWait, mk tb rb).

(** [WaitAndConsume]; [sel d] is what the [select] on a timer of duration
    [d] and on [ctx.Done()] observes.  The result carries the error (if
    any), the limiter as it is left and the sleeps performed. *)
Definition WaitAndConsume (rl : t) (sel : Duration -> wake) (tokens : Z)
    (maxWait : Duration) (clk : Clock) : option error * t * list event :=
  let '(waitDuration, rl1) :=
    TimeUntilAvailable rl tokens (atEstimateTokens clk)
      (atEstimateRequests clk) in
  let consume (slept : list event) :=
    let '(ok, rl2) :=
      CanProceed rl1 tokens (atConsumeTokens clk) (atConsumeRequests clk) in
    if negb ok then (Some AcquireFailed, rl2, slept)
    else (None, rl2, slept) in
  if 0 <? waitDuration then
    if (0 <? maxWait) && (maxWait <? waitDuration)
    then (Some (WaitExceeded waitDuration maxWait), rl1, [])
    else
      match sel waitDuration with
      | CtxDone err =>
          (Some (ContextDone err), rl1, [Sleep waitDuration (CtxDone err)])
      | TimerFired => consume [Sleep waitDuration TimerFired]
      end
  else consume [].

(** A run of [TryConsume] calls, each with its amount and readings. *)
Fixpoint tryAll (rl : t) (calls : list (Z * Time * Time)) : list bool * t :=
  match calls with
  | [] => ([], rl)
  | (n, nowT, nowR) :: rest =>
      let '(ok, rl1) := TryConsume rl n nowT nowR in
      let '(oks, rl2) := tryAll rl1 rest in
      (ok :: oks, rl2)
  end.

End RateLimiter.

(** *** Runs of calls *)

(** The tokens a run of calls granted: the amounts of the accepted ones. *)
Fixpoint granted (amounts : list Z) (oks : list bool) : Z :=
  match amounts, oks with
  | n :: amounts', ok :: oks' => (if ok then n else 0) + granted amounts' oks'
  | _, _ => 0
  end.

(** The number of calls a run accepted. *)
Definition accepted (oks : list bool) : Z :=
  Z.of_nat (length (List.filter (fun ok : bool => ok) oks)).

(** The calls of a window: amounts that are not negative, at readings before
    the refill of either bucket is due. *)
Definition inWindow (rl : RateLimiter.t) (call : Z * Time * Time) : Prop :=
  let '(n, nowT, nowR) := call in
  0 <= n
  /\ Sub nowT (TokenBucket.lastRefill (RateLimiter.TokensBucket rl)) <
       TokenBucket.refillInterval (RateLimiter.TokensBucket rl)
  /\ Sub nowR (TokenBucket.lastRefill (RateLimiter.RequestsBucket rl)) <
       TokenBucket.refillInterval (RateLimiter.RequestsBucket rl).

(** Readings that advance, by at most [d] each, from [start] on. *)
Fixpoint paced (d : Duration) (start : Time) (readings : list Time) : Prop :=
  match readings with
  | [] => True
  | now :: rest => 0 < Sub now start <= d /\ paced d now rest
  end.

(** A caller that polls [Wait], asking for [n] at each of the readings. *)
Definition polls (n : Z) (readings : list Time)
    : list (TokenBucket.op * Time) :=
  map (fun now => (TokenBucket.OpWait n, now)) readings.

(* ===================================================================== *)
(** ** Package ratelimiter: the registry *)

(** [rateLimiterMapRegistry], over the limiters [L] it holds. *)
Module Registry.

Inductive error : Type := NotFound (model : string).

Section Limiters.
Context {L : Type}.

Definition t : Type := gmap string L.

Definition NewRateLimiterRegistry : t := ∅.

Definition Get (r : t) (model : string) : L + error :=
  match r !! model with
  | Some limiter => inl limiter
  | None => inr (NotFound model)
  end.

(** [Set]. *)
Definition Set' (r : t) (model : string) (limiter : L) : t :=
  <[model := limiter]> r.

(** A run of [Set] calls. *)
Definition setAll (r : t) (sets : list (string * L)) : t :=
  fold_left (fun r '(model, limiter) => Set' r model limiter) sets r.

(** The limiter of the last [Set] for [model] in a run. *)
Fixpoint lastSet (sets : list (string * L)) (model : string) : option L :=
  match sets with
  | [] => None
  | (k, limiter) :: rest =>
      match lastSet rest model with
      | Some l => Some l
      | None => if String.eqb k model then Some limiter else None
      end
  end.

End Limiters.
End Registry.

(* ===================================================================== *)
(** ** Token estimation *)

(** [len([]rune(text))]: the number of runes of a Go string.  A byte that
    does not start or continue a well-formed UTF-8 sequence decodes to one
    rune of its own, as the conversion does. *)
Module Utf8.

(** Number of continuation bytes the first byte [b] announces, with the
    range its first continuation byte must lie in. *)
Definition lead (b : Z) : option (nat * Z * Z) :=
  if (0xC2 <=? b) && (b <=? 0xDF) then Some (1%nat, 0x80, 0xBF)
  else if b =? 0xE0 then Some (2%nat, 0xA0, 0xBF)
  else if b =? 0xED then Some (2%nat, 0x80, 0x9F)
  else if (0xE1 <=? b) && (b <=? 0xEF) then Some (2%nat, 0x80, 0xBF)
  else if b =? 0xF0 then Some (3%nat, 0x90, 0xBF)
  else if b =? 0xF4 then Some (3%nat, 0x80, 0x8F)
  else if (0xF1 <=? b) && (b <=? 0xF3) then Some (3%nat, 0x80, 0xBF)
  else None.

(** [count bs pending seen lo hi n]: [n] runes so far; a sequence is open
    that still expects [pending] continuation bytes, the next one within
    [lo..hi], and has taken [seen] of them. *)
Fixpoint count (bs : list Z) (pending seen : nat) (lo hi : Z) (n : Z) : Z :=
  match bs with
  | [] => n + Z.of_nat (match pending with O => O | _ => seen end)
  | b :: rest =>
      let start (n : Z) :=
        match lead b with
        | Some (k, lo', hi') => count rest k 0%nat lo' hi' (n + 1)
        | None => count rest 0%nat 0%nat 0 0 (n + 1)
        end in
      match pending with
      | O => start n
      | S k =>
          if (lo <=? b) && (b <=? hi)
          then count rest k (match k with O => O | _ => S seen end) 0x80 0xBF n
          else start (n + Z.of_nat seen)
      end
  end.

Definition bytes (s : string) : list Z :=
  map (fun a => Z.of_N (N_of_ascii a)) (list_ascii_of_string s).

Definition RuneCount (s : string) : Z := count (bytes s) 0%nat 0%nat 0 0 0.

End Utf8.

(** [SimpleTokenEstimator]: a fast approximation of token usage. *)
Record SimpleTokenEstimator : Type := { SafetyMargin : F64.t }.

Definition NewSimpleTokenEstimator : SimpleTokenEstimator :=
  {| SafetyMargin := F64.c1_2 |}.

(** The estimate for a text of [charCount] runes:
    [int(math.Ceil(float64(charCount) / 4.0 * SafetyMargin)) + 3]. *)
Definition estimateOfCount (e : SimpleTokenEstimator) (charCount : Z) : Z :=
  let tokenEstimate := F64.div (F64.of_int charCount) F64.c4 in
  let tokenEstimate := F64.mul tokenEstimate (SafetyMargin e) in
  Int64.add (F64.to_int (F64.ceil tokenEstimate)) 3.

Definition EstimateTokens (e : SimpleTokenEstimator) (text : string) : Z :=
  if String.eqb text "" then 0
  else
    let charCount := Utf8.RuneCount text in
    estimateOfCount e charCount.

(* ===================================================================== *)
(** ** Package imagegen: configuration and results *)

Definition Model : Type := string.
Definition Provider : Type := string.

Definition ModelNanoBanana2 : Model := "nano-banana-2".
Definition ModelDefault : Model := ModelNanoBanana2.

Record GenerateConfig : Type := mkGenerateConfig {
  cfgModel : Model;
  Size : string;
  AspectRatio : string;
  NumberOfImages : Z;
  EnableGrounding : bool;
  EnableThinking : bool;
  Temperature : option F64.t;
  WaitOnRateLimit : bool;
  MaxWaitDuration : Duration
}.

Definition ImageSize2K : string := "2K".
Definition AspectRatioAuto : string := "".

Definition DefaultConfig : GenerateConfig :=
  {| cfgModel := ModelDefault;
     Size := ImageSize2K;
     AspectRatio := AspectRatioAuto;
     NumberOfImages := 1;
     EnableGrounding := false;
     EnableThinking := false;
     Temperature := Some (F64.of_int 1);
     WaitOnRateLimit := false;
     MaxWaitDuration := 0 |}.

(** [configCopy := *actualConfig; configCopy.Model = model]. *)
Definition withModel (c : GenerateConfig) (model : Model) : GenerateConfig :=
  {| cfgModel := model;
     Size := Size c;
     AspectRatio := AspectRatio c;
     NumberOfImages := NumberOfImages c;
     EnableGrounding := EnableGrounding c;
     EnableThinking := EnableThinking c;
     Temperature := Temperature c;
     WaitOnRateLimit := WaitOnRateLimit c;
     MaxWaitDuration := MaxWaitDuration c |}.

Record InputImage : Type := mkInputImage {
  inData : list Z;
  inMIMEType : string;
  URI : string
}.

Record GeneratedImage : Type := mkGeneratedImage {
  Data : list Z;
  MIMEType : string;
  Index : Z;
  RevisedPrompt : string
}.

Record GenerateResult : Type := mkGenerateResult {
  Images : list GeneratedImage;
  Text : string;
  ThinkingContent : string
}.

Record ConversationTurn : Type := mkTurn {
  Role : string;
  turnText : string;
  turnImages : list GeneratedImage
}.

Record ModelMapping : Type := mkMapping {
  mapProvider : Provider;
  ActualModelName : string
}.

Record RateLimits : Type := mkRateLimits {
  rlTokensPerMinute : Z;
  rlRequestsPerMinute : Z;
  rlTokensPerDay : Z
}.

Record ModelInfo : Type := mkModelInfo {
  Name : string;
  infoProvider : Provider;
  APIModelName : string;
  infoRateLimits : RateLimits
}.

Inductive error : Type :=
| RateLimitError (RetryAfter : Duration) (LimitType : string) (model : string)
| ErrModelNotRegistered (model : Model)
| ErrProviderNotConfigured (provider : Provider)
| LimiterError (e : RateLimiter.error)
| BackendError (msg : string).

Definition IsRateLimitError (e : error) : bool :=
  match e with RateLimitError _ _ _ => true | _ => false end.

Inductive result (A : Type) : Type :=
| Ok (a : A)
| Err (e : error).
Arguments Ok {A} a.
Arguments Err {A} e.

(* ===================================================================== *)
(** ** Validation *)

(** [len] of a slice, as an [int]. *)
Definition len {A : Type} (s : list A) : Z := Z.of_nat (length s).

(** [strconv.Itoa]; it is also what the verb [%d] prints. *)
Definition Itoa (i : Z) : string := pretty i.

(** The package's sentinel errors, made by [errors.New]. *)
Inductive sentinel : Type :=
| ErrEmptyPrompt
| ErrEmptyImageData
| ErrInvalidMIMEType
| ErrImageTooLarge
| ErrTooManyImages.

Definition sentinelText (s : sentinel) : string :=
  match s with
  | ErrEmptyPrompt => "prompt cannot be empty"
  | ErrEmptyImageData => "image data cannot be empty"
  | ErrInvalidMIMEType => "invalid or unsupported MIME type"
  | ErrImageTooLarge => "image data exceeds maximum size"
  | ErrTooManyImages => "too many input images"
  end.

(** A validation error: a sentinel, or what [fmt.Errorf] makes around an
    error given to [%w]: its text and the error it wraps. *)
Inductive ValidationError : Type :=
| Sentinel (s : sentinel)
| Errorf (text : string) (wrapped : ValidationError).

(** [err.Error()]. *)
Definition Error (e : ValidationError) : string :=
  match e with
  | Sentinel s => sentinelText s
  | Errorf text _ => text
  end.

Definition sentinel_eqb (a b : sentinel) : bool :=
  match a, b with
  | ErrEmptyPrompt, ErrEmptyPrompt
  | ErrEmptyImageData, ErrEmptyImageData
  | ErrInvalidMIMEType, ErrInvalidMIMEType
  | ErrImageTooLarge, ErrImageTooLarge
  | ErrTooManyImages, ErrTooManyImages => true
  | _, _ => false
  end.

(** [errors.Is(err, target)] for a sentinel [target]: the chain of wrapped
    errors is followed until the sentinel is met. *)
Fixpoint Is (e : ValidationError) (target : sentinel) : bool :=
  match e with
  | Sentinel s => sentinel_eqb s target
  | Errorf _ wrapped => Is wrapped target
  end.

(** [MaxImageSize]: 20MB. *)
Definition MaxImageSize : Z := 20 * 1024 * 1024.

Definition MaxInputImages : Z := 14.

Definition ValidMIMETypes : gmap string bool :=
  {[ "image/jpeg" := true;
     "image/png" := true;
     "image/webp" := true;
     "image/gif" := true ]}.

(** [ValidatePrompt] validates a text prompt. *)
Definition ValidatePrompt (prompt : string) : option ValidationError :=
  if String.eqb prompt "" then Some (Sentinel ErrEmptyPrompt) else None.

(** [ValidateInputImage] validates an input image. *)
Definition ValidateInputImage (img : InputImage) : option ValidationError :=
  if (len (inData img) =? 0) && String.eqb (URI img) ""
  then Some (Sentinel ErrEmptyImageData)
  else if 0 <? len (inData img) then
    if MaxImageSize <? len (inData img) then
      Some (Errorf
              (sentinelText ErrImageTooLarge ++ ": " ++ Itoa (len (inData img))
               ++ " bytes (max " ++ Itoa MaxImageSize ++ ")")
              (Sentinel ErrImageTooLarge))
    else if String.eqb (inMIMEType img) "" then
      Some (Errorf (sentinelText ErrInvalidMIMEType ++ ": MIME type is required")
              (Sentinel ErrInvalidMIMEType))
    else if negb (default false (ValidMIMETypes !! inMIMEType img)) then
      Some (Errorf (sentinelText ErrInvalidMIMEType ++ ": " ++ inMIMEType img)
              (Sentinel ErrInvalidMIMEType))
    else None
  else None.

(** The loop of [ValidateInputImages], from index [i] on. *)
Fixpoint validateFrom (i : Z) (images : list InputImage)
    : option ValidationError :=
  match images with
  | [] => None
  | img :: rest =>
      match ValidateInputImage img with
      | Some err =>
          Some (Errorf ("image " ++ Itoa i ++ ": " ++ Error err) err)
      | None => validateFrom (i + 1) rest
      end
  end.

(** [ValidateInputImages] validates a slice of input images. *)
Definition ValidateInputImages (images : list InputImage)
    : option ValidationError :=
  if len images =? 0 then Some (Sentinel ErrEmptyImageData)
  else if MaxInputImages <? len images then
    Some (Errorf
            (sentinelText ErrTooManyImages ++ ": " ++ Itoa (len images)
             ++ " (max " ++ Itoa MaxInputImages ++ ")")
            (Sentinel ErrTooManyImages))
  else validateFrom 0 images.

(** An image [ValidateInputImage] has nothing against. *)
Definition validImage (img : InputImage) : Prop :=
  (inData img = [] /\ URI img <> "")
  \/ (inData img <> [] /\ len (inData img) <= MaxImageSize
      /\ In (inMIMEType img)
           ["image/jpeg"; "image/png"; "image/webp"; "image/gif"]).

(* ===================================================================== *)
(** ** Storage *)

(** [StorageResult] contains information about a saved image. *)
Record StorageResult : Type := mkStorageResult {
  srURL : string;
  srPath : string;
  srSize : Z
}.

(** [Storage]: [SaveFile] is a function of its arguments (data, path,
    content type) and of the state [S] of the store, which it may change;
    [E] are the errors of the store. *)
Record Storage (S E : Type) : Type := mkStorage {
  SaveFile : list Z -> string -> string -> S -> (string + E) * S
}.
Arguments mkStorage {S E} _.
Arguments SaveFile {S E} _ _ _ _ _.

(** The error of [SaveToStorage]: the package's [ErrStorageNotConfigured],
    or the error of the store, returned as it is. *)
Inductive StorageError (E : Type) : Type :=
| ErrStorageNotConfigured
| StoreError (e : E).
Arguments ErrStorageNotConfigured {E}.
Arguments StoreError {E} e.

(** A [SaveFile] call: data, path and content type. *)
Definition saveCall : Type := (list Z * string * string)%type.

(** [extensionFromMIME] returns a file extension for common image MIME
    types. *)
Definition extensionFromMIME (mime : string) : string :=
  if String.eqb mime "image/png" then "png"
  else if String.eqb mime "image/jpeg" then "jpg"
  else if String.eqb mime "image/webp" then "webp"
  else if String.eqb mime "image/gif" then "gif"
  else "png".

(** The path of image [i] of a result of [n] images. *)
Definition imagePath (basePath : string) (n : Z) (i : Z)
    (img : GeneratedImage) : string :=
  let ext := extensionFromMIME (MIMEType img) in
  let path := basePath in
  let path := if 1 <? n then (basePath ++ "_" ++ Itoa i)%string else path in
  (path ++ "." ++ ext)%string.

(** A text without a dot: what [strconv.Itoa] prints for an index. *)
Fixpoint dotless (s : string) : Prop :=
  match s with
  | EmptyString => True
  | String c rest => c <> "."%char /\ dotless rest
  end.

Section SaveToStorage.
Context {S E : Type}.

(** The loop of [SaveToStorage] from image [i] on; [n] is
    [len(result.Images)]. *)
Fixpoint saveFrom (storage : Storage S E) (basePath : string) (n : Z)
    (i : Z) (images : list GeneratedImage) (results : list StorageResult)
    (s : S) (calls : list saveCall)
    : list StorageResult * option (StorageError E) * S * list saveCall :=
  match images with
  | [] => (results, None, s, calls)
  | img :: rest =>
      let path := imagePath basePath n i img in
      let call := (Data img, path, MIMEType img) in
      match SaveFile storage (Data img) path (MIMEType img) s with
      | (inr err, s1) => (results, Some (StoreError err), s1, calls ++ [call])
      | (inl url, s1) =>
          saveFrom storage basePath n (i + 1) rest
            (results ++ [mkStorageResult url path (len (Data img))])
            s1 (calls ++ [call])
      end
  end.

(** [SaveToStorage] saves all images from a [GenerateResult] to storage:
    the results, the error, the store as it is left, and the [SaveFile]
    calls made. *)
Definition SaveToStorage (storage : option (Storage S E))
    (result : option GenerateResult) (basePath : string) (s : S)
    : list StorageResult * option (StorageError E) * S * list saveCall :=
  match storage with
  | None => ([], Some ErrStorageNotConfigured, s, [])
  | Some storage =>
      match result with
      | None => ([], None, s, [])
      | Some result =>
          if len (Images result) =? 0 then ([], None, s, [])
          else
            saveFrom storage basePath (len (Images result)) 0 (Images result)
              [] s []
      end
  end.

End SaveToStorage.

(* ===================================================================== *)
(** ** Backends

    A backend is an external collaborator: its methods are functions of the
    arguments and of a world state [W] that they may change. *)

(** A backend-native session ([Conversation] of a provider). *)
Record ProviderConv (W : Type) : Type := mkProviderConv {
  convSend : string -> list InputImage -> GenerateConfig -> W ->
             result GenerateResult * W;
  convHistory : W -> list ConversationTurn;
  convClear : W -> W
}.
Arguments convSend {W} _ _ _ _ _.
Arguments convHistory {W} _ _.
Arguments convClear {W} _ _.

(** [ImageGenerator]; [genStartConversation] is present exactly for a backend
    that also implements [ConversationalImageGenerator]. *)
Record ImageGenerator (W : Type) : Type := mkImageGenerator {
  genGenerate : string -> GenerateConfig -> W -> result GenerateResult * W;
  genEdit : InputImage -> string -> GenerateConfig -> W ->
            result GenerateResult * W;
  genEditMultiple : list InputImage -> string -> GenerateConfig -> W ->
                    result GenerateResult * W;
  genModels : list ModelInfo;
  genStartConversation : option (W -> ProviderConv W * W)
}.
Arguments genGenerate {W} _ _ _ _.
Arguments genEdit {W} _ _ _ _ _.
Arguments genEditMultiple {W} _ _ _ _ _.
Arguments genModels {W} _.
Arguments genStartConversation {W} _.

(** The calls a request makes on backends, in order. *)
Inductive call : Type :=
| CallGenerate (p : Provider) (prompt : string) (c : GenerateConfig)
| CallEdit (p : Provider) (image : InputImage) (instruction : string)
    (c : GenerateConfig)
| CallEditMultiple (p : Provider) (images : list InputImage)
    (instruction : string) (c : GenerateConfig)
| CallStartConversation (p : Provider)
| CallConvSend (p : Provider) (prompt : string) (images : list InputImage)
    (c : GenerateConfig).

(* ===================================================================== *)
(** ** The Manager *)

(** The limiter of a model is carried by its map entry; the estimator is the
    [TokenEstimator] interface, a function of the text. *)
Record Manager (W : Type) : Type := mkManager {
  modelMappings : gmap Model ModelMapping;
  providers : gmap Provider (ImageGenerator W);
  defaultModel : Model;
  rateLimiters : gmap Model RateLimiter.t;
  modelInfo : gmap Model ModelInfo;
  tokenEstimator : string -> Z
}.
Arguments mkManager {W} _ _ _ _ _ _.
Arguments modelMappings {W} _.
Arguments providers {W} _.
Arguments defaultModel {W} _.
Arguments rateLimiters {W} _.
Arguments modelInfo {W} _.
Arguments tokenEstimator {W} _.

Section ManagerOps.
Context {W : Type}.

Definition New : Manager W :=
  mkManager ∅ ∅ ModelDefault ∅ ∅ (EstimateTokens NewSimpleTokenEstimator).

Definition SetRateLimiter (m : Manager W) (model : Model)
    (limiter : RateLimiter.t) : Manager W :=
  mkManager (modelMappings m) (providers m) (defaultModel m)
    (<[model := limiter]> (rateLimiters m)) (modelInfo m) (tokenEstimator m).

Definition SetDefaultModel (m : Manager W) (model : Model) : Manager W :=
  mkManager (modelMappings m) (providers m) model
    (rateLimiters m) (modelInfo m) (tokenEstimator m).

(** [RegisterModel]; the default limiter is the in-memory one, created at
    readings [nowT], [nowR]. *)
Definition RegisterModel (m : Manager W) (model : Model)
    (mapping : ModelMapping) (info : ModelInfo) (nowT nowR : Time)
    : Manager W :=
  let limits := infoRateLimits info in
  let limiters :=
    if (0 <? rlTokensPerMinute limits) || (0 <? rlRequestsPerMinute limits)
    then <[model :=
             RateLimiter.New (rlTokensPerMinute limits)
               (rlRequestsPerMinute limits) nowT nowR]>
           (rateLimiters m)
    else rateLimiters m in
  mkManager (<[model := mapping]> (modelMappings m)) (providers m)
    (defaultModel m) limiters (<[model := info]> (modelInfo m))
    (tokenEstimator m).

(** [NewManager] (without options): every model of the default provider is
    registered and served by it; [now] gives the readings of each
    registration. *)
Definition NewManager (defaultProvider : ImageGenerator W) (now : Time)
    : Manager W :=
  fold_left
    (fun (m : Manager W) (info : ModelInfo) =>
       RegisterModel
         (mkManager (modelMappings m)
            (<[infoProvider info := defaultProvider]> (providers m))
            (defaultModel m) (rateLimiters m) (modelInfo m) (tokenEstimator m))
         (Name info) (mkMapping (infoProvider info) (APIModelName info)) info
         now now)
    (genModels defaultProvider) New.

(** [resolveModel] determines the actual model to use. *)
Definition resolveModel (m : Manager W) (config : option GenerateConfig)
    : Model :=
  let model := ModelDefault in
  let model :=
    match config with
    | Some c => if negb (String.eqb (cfgModel c) "") then cfgModel c else model
    | None => model
    end in
  if String.eqb model ModelDefault then defaultModel m else model.

Definition tokenBuffer : Z := 100.

(** [checkRateLimit]: the error (if any), the manager with the limiter as
    it is left, and the sleeps performed. *)
Definition checkRateLimit (m : Manager W) (sel : Duration -> wake)
    (model : Model) (config : GenerateConfig) (prompt : string)
    (clk : Clock) : option error * Manager W * list RateLimiter.event :=
  match rateLimiters m !! model with
  | None => (None, m, [])
  | Some limiter =>
      let estimatedTokens := tokenEstimator m prompt in
      let estimatedTokens := Int64.add estimatedTokens tokenBuffer in
      if WaitOnRateLimit config then
        let '(err, limiter1, slept) :=
          RateLimiter.WaitAndConsume limiter sel estimatedTokens
            (MaxWaitDuration config) clk in
        (option_map LimiterError err, SetRateLimiter m model limiter1, slept)
      else
        let '(ok, limiter1) :=
          RateLimiter.TryConsume limiter estimatedTokens
            (atConsumeTokens clk) (atConsumeRequests clk) in
        if negb ok then
          let '(retryAfter, limiter2) :=
            RateLimiter.TimeUntilAvailable limiter1 estimatedTokens
              (atEstimateTokens clk) (atEstimateRequests clk) in
          (Some (RateLimitError retryAfter "tokens" model),
           SetRateLimiter m model limiter2, [])
        else (None, SetRateLimiter m model limiter1, [])
  end.

Definition getProvider (m : Manager W) (provider : Provider)
    : result (ImageGenerator W) :=
  match providers m !! provider with
  | None => Err (ErrProviderNotConfigured provider)
  | Some gen => Ok gen
  end.

(** [getGeneratorForConfig]: the backend, its identifier and the adjusted
    copy of the config. *)
Definition getGeneratorForConfig (m : Manager W)
    (config : option GenerateConfig)
    : result (Provider * ImageGenerator W * GenerateConfig) :=
  let model := resolveModel m config in
  match modelMappings m !! model with
  | None => Err (ErrModelNotRegistered model)
  | Some mapping =>
      match getProvider m (mapProvider mapping) with
      | Err e => Err e
      | Ok gen =>
          let actualConfig :=
            match config with Some c => c | None => DefaultConfig end in
          Ok (mapProvider mapping, gen,
              withModel actualConfig (ActualModelName mapping))
      end
  end.

(** What a routed call leaves behind. *)
Record outcome : Type := mkOutcome {
  outResult : result GenerateResult;
  outManager : Manager W;
  outWorld : W;
  outSleeps : list RateLimiter.event;
  outCalls : list call
}.

(** [Generate] creates images from a text prompt. *)
Definition Generate (m : Manager W) (sel : Duration -> wake)
    (prompt : string) (config : option GenerateConfig) (clk : Clock)
    (w : W) : outcome :=
  let config := match config with None => DefaultConfig | Some c => c end in
  let model := resolveModel m (Some config) in
  match checkRateLimit m sel model config prompt clk with
  | (Some err, m1, slept) => mkOutcome (Err err) m1 w slept []
  | (None, m1, slept) =>
      match getGeneratorForConfig m1 (Some config) with
      | Err err => mkOutcome (Err err) m1 w slept []
      | Ok (p, gen, actualConfig) =>
          let '(r, w1) := genGenerate gen prompt actualConfig w in
          mkOutcome r m1 w1 slept [CallGenerate p prompt actualConfig]
      end
  end.

(** A call that proceeds past the rate-limit check goes to the backend of
    the resolved model, once, with the rewritten config; it fails before any
    backend call when the model or its provider is missing. *)
Definition dispatched (m : Manager W) (prompt : string) (cfg : GenerateConfig)
    (w : W) (out : outcome) : Prop :=
  match getGeneratorForConfig m (Some cfg) with
  | Err e => outResult out = Err e /\ outCalls out = [] /\ outWorld out = w
  | Ok (p, gen, actualConfig) =>
      outResult out = fst (genGenerate gen prompt actualConfig w)
      /\ outWorld out = snd (genGenerate gen prompt actualConfig w)
      /\ outCalls out = [CallGenerate p prompt actualConfig]
  end.

End ManagerOps.

Section ManagerEdits.
Context {W : Type}.

(** [Edit] modifies an existing image based on a text instruction. *)
Definition Edit (m : Manager W) (sel : Duration -> wake)
    (image : InputImage) (instruction : string)
    (config : option GenerateConfig) (clk : Clock) (w : W) : outcome :=
  let config := match config with None => DefaultConfig | Some c => c end in
  let model := resolveModel m (Some config) in
  match checkRateLimit m sel model config instruction clk with
  | (Some err, m1, slept) => mkOutcome (Err err) m1 w slept []
  | (None, m1, slept) =>
      match getGeneratorForConfig m1 (Some config) with
      | Err err => mkOutcome (Err err) m1 w slept []
      | Ok (p, gen, actualConfig) =>
          let '(r, w1) := genEdit gen image instruction actualConfig w in
          mkOutcome r m1 w1 slept [CallEdit p image instruction actualConfig]
      end
  end.

(** [EditMultiple] performs editing with multiple reference images. *)
Definition EditMultiple (m : Manager W) (sel : Duration -> wake)
    (images : list InputImage) (instruction : string)
    (config : option GenerateConfig) (clk : Clock) (w : W) : outcome :=
  let config := match config with None => DefaultConfig | Some c => c end in
  let model := resolveModel m (Some config) in
  match checkRateLimit m sel model config instruction clk with
  | (Some err, m1, slept) => mkOutcome (Err err) m1 w slept []
  | (None, m1, slept) =>
      match getGeneratorForConfig m1 (Some config) with
      | Err err => mkOutcome (Err err) m1 w slept []
      | Ok (p, gen, actualConfig) =>
          let '(r, w1) :=
            genEditMultiple gen images instruction actualConfig w in
          mkOutcome r m1 w1 slept
            [CallEditMultiple p images instruction actualConfig]
      end
  end.

(** [GetModelProvider] returns the provider for a model. *)
Definition GetModelProvider (m : Manager W) (model : Model)
    : Provider * bool :=
  match modelMappings m !! model with
  | None => ("", false)
  | Some mapping => (mapProvider mapping, true)
  end.

(** The limiter [RegisterModel] creates for the rates of [info], if any. *)
Definition declaredLimiter (info : ModelInfo) (now : Time)
    : option RateLimiter.t :=
  let limits := infoRateLimits info in
  if (0 <? rlTokensPerMinute limits) || (0 <? rlRequestsPerMinute limits)
  then Some (RateLimiter.New (rlTokensPerMinute limits)
               (rlRequestsPerMinute limits) now now)
  else None.

(** The request bucket of a limiter can never supply a request. *)
Definition noRequests (limiter : RateLimiter.t) : Prop :=
  TokenBucket.capacity (RateLimiter.RequestsBucket limiter) = 0
  /\ TokenBucket.remaining (RateLimiter.RequestsBucket limiter) <= 0.

End ManagerEdits.

(* ===================================================================== *)
(** ** The managed conversation *)

Record ManagedConversation (W : Type) : Type := mkConversation {
  history : list ConversationTurn;
  lockedModel : Model;
  modelLocked : bool;
  providerConv : option (ProviderConv W);
  convProvider : Provider
}.
Arguments mkConversation {W} _ _ _ _ _.
Arguments history {W} _.
Arguments lockedModel {W} _.
Arguments modelLocked {W} _.
Arguments providerConv {W} _.
Arguments convProvider {W} _.

Section ConversationOps.
Context {W : Type}.

(** [Manager.StartConversation] begins a new conversation. *)
Definition StartConversation : ManagedConversation W :=
  mkConversation [] "" false None "".

(** [Manager.StartConversationWithModel]. *)
Definition StartConversationWithModel (model : Model)
    : ManagedConversation W :=
  mkConversation [] model true None "".

(** The model a [Send] determines. *)
Definition sendModel (m : Manager W) (c : ManagedConversation W)
    (config : option GenerateConfig) : Model :=
  if modelLocked c then lockedModel c
  else
    match config with
    | Some cfg =>
        if negb (String.eqb (cfgModel cfg) "") then cfgModel cfg
        else defaultModel m
    | None => defaultModel m
    end.

(** [append] of the input images to the user turn. *)
Definition userImages (images : list InputImage) : list GeneratedImage :=
  map (fun img => mkGeneratedImage (inData img) (inMIMEType img) 0 "") images.

Record sent : Type := mkSent {
  sentResult : result GenerateResult;
  sentConv : ManagedConversation W;
  sentWorld : W;
  sentCalls : list call
}.

(** [Send] sends a message and receives a response. *)
Definition Send (m : Manager W) (c : ManagedConversation W)
    (prompt : string) (images : list InputImage)
    (config : option GenerateConfig) (w : W) : sent :=
  let model := sendModel m c config in
  match modelMappings m !! model with
  | None => mkSent (Err (ErrModelNotRegistered model)) c w []
  | Some mapping =>
      let actualConfig :=
        match config with Some cfg => cfg | None => DefaultConfig end in
      let configCopy := withModel actualConfig (ActualModelName mapping) in
      let p := mapProvider mapping in
      let continue (pc : ProviderConv W) (c0 : ManagedConversation W)
          (w0 : W) (before : list call) :=
        let '(r, w1) := convSend pc prompt images configCopy w0 in
        let calls := before ++ [CallConvSend p prompt images configCopy] in
        match r with
        | Err e => mkSent (Err e) c0 w1 calls
        | Ok res =>
            mkSent (Ok res)
              (mkConversation (convHistory pc w1) (lockedModel c0)
                 (modelLocked c0) (providerConv c0) (convProvider c0))
              w1 calls
        end in
      let bound :=
        match providerConv c with
        | Some pc => if String.eqb (convProvider c) p then Some pc else None
        | None => None
        end in
      match bound with
      | Some pc => continue pc c w []
      | None =>
          match getProvider m p with
          | Err e => mkSent (Err e) c w []
          | Ok gen =>
              match genStartConversation gen with
              | Some start =>
                  let '(pc, w0) := start w in
                  continue pc
                    (mkConversation (history c) (lockedModel c)
                       (modelLocked c) (Some pc) p)
                    w0 [CallStartConversation p]
              | None =>
                  let '(r, w1, made) :=
                    if (0 <? length images)%nat then
                      (genEditMultiple gen images prompt configCopy w,
                       CallEditMultiple p images prompt configCopy)
                    else
                      (genGenerate gen prompt configCopy w,
                       CallGenerate p prompt configCopy) in
                  match r with
                  | Err e => mkSent (Err e) c w1 [made]
                  | Ok res =>
                      let userTurn :=
                        mkTurn "user" prompt (userImages images) in
                      let modelTurn :=
                        mkTurn "model" (Text res) (Images res) in
                      mkSent (Ok res)
                        (mkConversation
                           ((history c ++ [userTurn]) ++ [modelTurn])
                           (lockedModel c) (modelLocked c)
                           (providerConv c) (convProvider c))
                        w1 [made]
                  end
              end
          end
      end
  end.

(** [Clear] resets the conversation history. *)
Definition Clear (c : ManagedConversation W) (w : W)
    : ManagedConversation W * W :=
  let w1 := match providerConv c with
            | Some pc => convClear pc w
            | None => w
            end in
  (mkConversation [] (lockedModel c) (modelLocked c) None "", w1).

(** One request of a caller, and a run of requests on one conversation. *)
Record request : Type := mkRequest {
  reqPrompt : string;
  reqImages : list InputImage;
  reqConfig : option GenerateConfig
}.

Fixpoint sendAll (m : Manager W) (c : ManagedConversation W)
    (reqs : list request) (w : W) : list sent * ManagedConversation W * W :=
  match reqs with
  | [] => ([], c, w)
  | r :: rest =>
      let s := Send m c (reqPrompt r) (reqImages r) (reqConfig r) w in
      let '(ss, c', w') := sendAll m (sentConv s) rest (sentWorld s) in
      (s :: ss, c', w')
  end.

Definition succeeded (s : sent) : bool :=
  match sentResult s with Ok _ => true | Err _ => false end.

(** The backend a [Send] resolves to, when there is one. *)
Definition resolvedBackend (m : Manager W) (c : ManagedConversation W)
    (config : option GenerateConfig) : option (ImageGenerator W) :=
  match modelMappings m !! sendModel m c config with
  | None => None
  | Some mapping => providers m !! mapProvider mapping
  end.

(** No native session of the conversation is bound to provider [p]. *)
Definition unbound (c : ManagedConversation W) (p : Provider) : Prop :=
  match providerConv c with
  | Some _ => convProvider c <> p
  | None => True
  end.

(** The one stateless call a request with [images] makes: [EditMultiple] on
    all of them when there are any, [Generate] otherwise. *)
Definition statelessCall (p : Provider) (prompt : string)
    (images : list InputImage) (cfg : GenerateConfig) : call :=
  if (0 <? length images)%nat then CallEditMultiple p images prompt cfg
  else CallGenerate p prompt cfg.

(** The two turns a stateless exchange adds to the history. *)
Definition exchange (prompt : string) (images : list InputImage)
    (res : GenerateResult) : list ConversationTurn :=
  [mkTurn "user" prompt (userImages images);
   mkTurn "model" (Text res) (Images res)].

(** The roles of [k] stateless exchanges. *)
Fixpoint alternating (k : nat) : list string :=
  match k with
  | O => []
  | S k' => "user" :: "model" :: alternating k'
  end.

(** Every request of a run resolves to a backend without native sessions,
    when it resolves at all. *)
Definition allStateless (m : Manager W) (c : ManagedConversation W)
    (reqs : list request) : Prop :=
  Forall (fun r => forall gen, resolvedBackend m c (reqConfig r) = Some gen ->
                   genStartConversation gen = None) reqs.

End ConversationOps.




(* ===================================================================== *)
(** ** Slices in memory: what [History] copies

    A Go slice is a view of a backing array.  The heap holds the backing
    arrays of turns, of images and of bytes; a slice names its array and its
    length.  [make] allocates a new array, [copy] copies elements, and an
    element that holds a slice is copied as the slice header it is. *)

Module Mem.

Record slice : Type := mkSlice { ptr : nat; len : nat }.

Record ImageCell : Type := mkImageCell {
  cData : slice;
  cMIMEType : string;
  cIndex : Z;
  cRevisedPrompt : string
}.

Record TurnCell : Type := mkTurnCell {
  cRole : string;
  cText : string;
  cImages : slice
}.

Record heap : Type := mkHeap {
  byteArrays : list (list Z);
  imageArrays : list (list ImageCell);
  turnArrays : list (list TurnCell)
}.

Definition zeroTurn : TurnCell := mkTurnCell "" "" (mkSlice 0 0).

(** The elements a slice views. *)
Definition view {A : Type} (arrays : list (list A)) (s : slice) : list A :=
  take (len s) (default [] (arrays !! ptr s)).

(** [copy(dst, src)] on turn slices: the first [min(len dst, len src)]
    elements of [src] overwrite those of [dst]. *)
Definition copyTurns (h : heap) (dst src : slice) : heap :=
  let n := Nat.min (len dst) (len src) in
  let d := default [] (turnArrays h !! ptr dst) in
  let d' := take n (view (turnArrays h) src) ++ drop n d in
  mkHeap (byteArrays h) (imageArrays h) (<[ptr dst := d']> (turnArrays h)).

(** [make([]ConversationTurn, n)]. *)
Definition makeTurns (h : heap) (n : nat) : slice * heap :=
  (mkSlice (length (turnArrays h)) n,
   mkHeap (byteArrays h) (imageArrays h)
     (turnArrays h ++ [replicate n zeroTurn])).

(** [History] of [ManagedConversation] and of [GeminiConversation]:
    [historyCopy := make(..., len(c.history)); copy(historyCopy, c.history)]. *)
Definition History (h : heap) (c_history : slice) : slice * heap :=
  let '(historyCopy, h1) := makeTurns h (len c_history) in
  (historyCopy, copyTurns h1 historyCopy c_history).

(** The value a history slice denotes, read through every level. *)
Definition readImage (h : heap) (c : ImageCell) : GeneratedImage :=
  mkGeneratedImage (view (byteArrays h) (cData c)) (cMIMEType c) (cIndex c)
    (cRevisedPrompt c).

Definition readTurn (h : heap) (c : TurnCell) : ConversationTurn :=
  mkTurn (cRole c) (cText c)
    (map (readImage h) (view (imageArrays h) (cImages c))).

Definition readHistory (h : heap) (s : slice) : list ConversationTurn :=
  map (readTurn h) (view (turnArrays h) s).

(** What a caller can write through a history slice [r] it holds. *)
Inductive write : Type :=
| SetTurn (i : nat) (t : TurnCell)            (* r[i] = t *)
| SetImage (i j : nat) (img : ImageCell)      (* r[i].Images[j] = img *)
| SetByte (i j k : nat) (b : Z).              (* r[i].Images[j].Data[k] = b *)

Definition store {A : Type} (arrays : list (list A)) (s : slice) (i : nat)
    (x : A) : list (list A) :=
  if (i <? len s)%nat
  then <[ptr s := <[i := x]> (default [] (arrays !! ptr s))]> arrays
  else arrays.

(** An index out of range panics: the heap is left as it is. *)
Definition apply (h : heap) (r : slice) (wr : write) : heap :=
  match wr with
  | SetTurn i t =>
      mkHeap (byteArrays h) (imageArrays h) (store (turnArrays h) r i t)
  | SetImage i j img =>
      match view (turnArrays h) r !! i with
      | Some t =>
          mkHeap (byteArrays h) (store (imageArrays h) (cImages t) j img)
            (turnArrays h)
      | None => h
      end
  | SetByte i j k b =>
      match view (turnArrays h) r !! i with
      | Some t =>
          match view (imageArrays h) (cImages t) !! j with
          | Some img =>
              mkHeap (store (byteArrays h) (cData img) k b) (imageArrays h)
                (turnArrays h)
          | None => h
          end
      | None => h
      end
  end.

End Mem.

(* ===================================================================== *)
(** ** Package gemini: the provider

    The provider talks to the Gemini API through the client of the SDK.
    [Genai] has the SDK's types as far as the provider reads or builds
    them; where the SDK holds a pointer, [None] is nil. *)

Module Genai.

(** [Blob]; [blobData] is [None] for a nil slice. *)
Record Blob : Type := mkBlob {
  blobData : option (list Z);
  blobMIMEType : string
}.

Record Part : Type := mkPart {
  partText : string;
  partThought : bool;
  partInlineData : option Blob
}.

Record Content : Type := mkContent {
  contentRole : string;
  contentParts : list (option Part)
}.

Record Candidate : Type := mkCandidate { candContent : option Content }.

(** [GenerateContentResponseUsageMetadata]; the counts are [int32]. *)
Record ResponseUsage : Type := mkResponseUsage {
  PromptTokenCount : Z;
  CandidatesTokenCount : Z;
  TotalTokenCount : Z
}.

Record GenerateContentResponse : Type := mkResponse {
  Candidates : list (option Candidate);
  responseUsage : option ResponseUsage
}.

Record SafetySetting : Type := mkSafetySetting {
  Category : string;
  Threshold : string
}.

(** The one tool the provider builds: [&Tool{GoogleSearch: &GoogleSearch{}}]. *)
Inductive Tool : Type := GoogleSearch.

Record ImageConfig : Type := mkImageConfig {
  ImageSize : string;
  imageAspectRatio : string
}.

Record ThinkingConfig : Type := mkThinkingConfig { IncludeThoughts : bool }.

(** [float32(x)] for a float64 [x]: rounded to nearest, ties to even, in
    binary32. *)
Definition float32 (x : F64.t) : spec_float :=
  match x with
  | S754_finite s m e =>
      binary_normalize 24 128 (if s then Z.neg m else Z.pos m) e s
  | _ => x
  end.

Record GenerateContentConfig : Type := mkGenerateContentConfig {
  ResponseModalities : list string;
  Tools : list Tool;
  imageConfig : ImageConfig;
  contentTemperature : option spec_float;
  thinkingConfig : option ThinkingConfig;
  SafetySettings : list SafetySetting
}.

Record APIError : Type := mkAPIError {
  Code : Z;
  Message : string;
  Status : string
}.

End Genai.

(** [imagegen.SafetySetting] configures content filtering for a category. *)
Record SafetySetting : Type := mkSafetySetting {
  Category : string;
  Threshold : string
}.

(** [imagegen.UsageMetadata]. *)
Record UsageMetadata : Type := mkUsageMetadata {
  PromptTokens : Z;
  CandidatesTokens : Z;
  TotalTokens : Z;
  ImageCount : Z
}.

(** [strings.Join]. *)
Fixpoint Join (elems : list string) (sep : string) : string :=
  match elems with
  | [] => ""
  | [e] => e
  | e :: rest => (e ++ sep ++ Join rest sep)%string
  end.

(** What a call returns, unless a nil pointer is dereferenced on the way. *)
Inductive returns (A : Type) : Type :=
| Returned (a : A)
| Panicked.
Arguments Returned {A} a.
Arguments Panicked {A}.

Module Gemini.

Definition APIModelNanoBanana2 : string := "gemini-3-pro-image-preview".
Definition APIModelNanoBanana1 : string := "gemini-2.5-flash-image".
Definition ProviderGeminiAPI : Provider := "gemini".

Definition NanoBanana2Info : ModelInfo :=
  mkModelInfo "nano-banana-2" ProviderGeminiAPI APIModelNanoBanana2
    (mkRateLimits 4000000 360 1000000000).

Definition NanoBanana1Info : ModelInfo :=
  mkModelInfo "nano-banana-1" ProviderGeminiAPI APIModelNanoBanana1
    (mkRateLimits 4000000 500 1000000000).

(** The [GenerateConfig] a provider receives: the fields the router works
    with and the safety settings, which only the provider reads.  (Its
    [Metadata] is read by nobody.) *)
Record Config : Type := mkConfig {
  routed : GenerateConfig;
  cfgSafetySettings : list SafetySetting
}.

(** [imagegen.DefaultConfig()], as the provider receives it. *)
Definition defaultConfig : Config := mkConfig DefaultConfig [].

(** [GeminiGenerator]; its client is the service, see [Client]. *)
Record GeminiGenerator : Type := mkGenerator {
  safetySettings : list Genai.SafetySetting
}.

(** An error of the client: an [APIError] of the SDK, an error that wraps
    another one, or any other error. *)
Inductive clientError : Type :=
| IsAPIError (e : Genai.APIError)
| Wraps (text : string) (inner : clientError)
| Other (text : string).

(** [errors.As(err, &apiErr)] for [apiErr] a [genai.APIError]: the first one
    on the chain of wrapped errors. *)
Fixpoint asAPIError (err : clientError) : option Genai.APIError :=
  match err with
  | IsAPIError e => Some e
  | Wraps _ inner => asAPIError inner
  | Other _ => None
  end.

(** The errors the provider returns. *)
Inductive error : Type :=
| Validation (e : ValidationError)
| ClientError (err : clientError)
| RateLimit (RetryAfter : Duration) (LimitType : string) (model : string)
    (Err : clientError)
| Failed (what : string) (wrapped : clientError)
| EmptyResponse.

(** A [GenerateResult] with its [UsageMetadata]. *)
Record Parsed : Type := mkParsed {
  parsedResult : GenerateResult;
  parsedUsage : option UsageMetadata
}.

(** A call of [client.Models.GenerateContent]. *)
Record apiCall : Type := mkApiCall {
  callModel : string;
  callContents : list Genai.Content;
  callConfig : Genai.GenerateContentConfig
}.

(** [Models] returns the model definitions supported by this provider. *)
Definition Models (g : GeminiGenerator) : list ModelInfo :=
  [NanoBanana2Info; NanoBanana1Info].

(** [resolveModel] determines which API model name to use. *)
Definition resolveModel (g : GeminiGenerator) (config : option Config)
    : string :=
  let named :=
    match config with
    | Some c => negb (String.eqb (cfgModel (routed c)) "")
    | None => false
    end in
  if named then
    match config with Some c => cfgModel (routed c) | None => "" end
  else
    match Models g with
    | [] => APIModelNanoBanana2
    | info :: _ => APIModelName info
    end.

(** [convertSafetySettings] converts our settings to Gemini's format. *)
Definition convertSafetySettings (settings : list SafetySetting)
    : list Genai.SafetySetting :=
  map (fun s => Genai.mkSafetySetting (Category s) (Threshold s)) settings.

(** [buildGenerateContentConfig] converts our config to Gemini's. *)
Definition buildGenerateContentConfig (g : GeminiGenerator) (config : Config)
    (tools : list Genai.Tool) : Genai.GenerateContentConfig :=
  let imageSize :=
    if negb (String.eqb (Size (routed config)) "") then Size (routed config)
    else "" in
  let aspectRatio :=
    if negb (String.eqb (AspectRatio (routed config)) "")
    then AspectRatio (routed config) else "" in
  let thinking :=
    if EnableThinking (routed config)
    then Some (Genai.mkThinkingConfig true) else None in
  let safety :=
    if 0 <? len (cfgSafetySettings config)
    then convertSafetySettings (cfgSafetySettings config)
    else if 0 <? len (safetySettings g) then safetySettings g
    else [] in
  Genai.mkGenerateContentConfig ["TEXT"; "IMAGE"] tools
    (Genai.mkImageConfig imageSize aspectRatio)
    (option_map Genai.float32 (Temperature (routed config))) thinking safety.

(** [checkRateLimitError] checks if an error from the Gemini API is a rate
    limit error; [None] is the nil error. *)
Definition checkRateLimitError (err : option clientError) (model : string)
    : option error :=
  match err with
  | None => None
  | Some err =>
      match asAPIError err with
      | None => Some (ClientError err)
      | Some apiErr =>
          if negb (Genai.Code apiErr =? 429)
             && negb (String.eqb (Genai.Status apiErr) "RESOURCE_EXHAUSTED")
          then Some (ClientError err)
          else Some (RateLimit (60 * Second) "requests" model err)
      end
  end.

(** The state of the loops of [parseResult]. *)
Record parsing : Type := mkParsing {
  genText : string;
  genImages : list GeneratedImage;
  thinkingParts : list string;
  imageIndex : Z
}.

(** The body of the loop over the parts of a candidate. *)
Definition parsePart (st : parsing) (part : Genai.Part) : parsing :=
  if Genai.partThought part && negb (String.eqb (Genai.partText part) "")
  then mkParsing (genText st) (genImages st)
         (thinkingParts st ++ [Genai.partText part]) (imageIndex st)
  else
    let text :=
      if negb (String.eqb (Genai.partText part) "")
      then (genText st ++ Genai.partText part)%string else genText st in
    match Genai.partInlineData part with
    | Some blob =>
        match Genai.blobData blob with
        | Some data =>
            mkParsing text
              (genImages st ++
               [mkGeneratedImage data (Genai.blobMIMEType blob)
                  (imageIndex st) ""])
              (thinkingParts st) (imageIndex st + 1)
        | None => mkParsing text (genImages st) (thinkingParts st)
                    (imageIndex st)
        end
    | None => mkParsing text (genImages st) (thinkingParts st) (imageIndex st)
    end.

(** The loop over parts; a nil part is dereferenced: [None]. *)
Fixpoint parseParts (st : parsing) (parts : list (option Genai.Part))
    : option parsing :=
  match parts with
  | [] => Some st
  | None :: _ => None
  | Some part :: rest => parseParts (parsePart st part) rest
  end.

(** The loop over candidates; a nil candidate is dereferenced: [None]. *)
Fixpoint parseCandidates (st : parsing)
    (candidates : list (option Genai.Candidate)) : option parsing :=
  match candidates with
  | [] => Some st
  | None :: _ => None
  | Some candidate :: rest =>
      match Genai.candContent candidate with
      | None => parseCandidates st rest
      | Some content =>
          match parseParts st (Genai.contentParts content) with
          | None => None
          | Some st1 => parseCandidates st1 rest
          end
      end
  end.

Definition newline : string := String "010"%char EmptyString.

(** [parseResult] converts Gemini response to our result type. *)
Definition parseResult (g : GeminiGenerator)
    (result : option Genai.GenerateContentResponse)
    : returns (Parsed + error) :=
  match result with
  | None => Returned (inr EmptyResponse)
  | Some result =>
      if len (Genai.Candidates result) =? 0
      then Returned (inr EmptyResponse)
      else
        match parseCandidates (mkParsing "" [] [] 0) (Genai.Candidates result)
        with
        | None => Panicked
        | Some st =>
            let thinking :=
              if 0 <? len (thinkingParts st)
              then Join (thinkingParts st) newline else "" in
            let usage :=
              match Genai.responseUsage result with
              | Some u =>
                  Some (mkUsageMetadata (Genai.PromptTokenCount u)
                          (Genai.CandidatesTokenCount u)
                          (Genai.TotalTokenCount u) (len (genImages st)))
              | None => None
              end in
            Returned
              (inl (mkParsed (mkGenerateResult (genImages st) (genText st)
                                thinking)
                      usage))
        end
  end.

(** The parts made for input images: [InlineData] with the data and the
    MIME type of each; the URI of an image is not read. *)
Definition imageParts (images : list InputImage)
    : list (option Genai.Part) :=
  map (fun img =>
         Some (Genai.mkPart "" false
                 (Some (Genai.mkBlob (Some (inData img)) (inMIMEType img)))))
      images.

(** *** What a response holds *)

(** The parts of a response, candidate after candidate. *)
Definition allParts (candidates : list (option Genai.Candidate))
    : list (option Genai.Part) :=
  flat_map
    (fun candidate =>
       match candidate with
       | Some c =>
           match Genai.candContent c with
           | Some content => Genai.contentParts content
           | None => []
           end
       | None => []
       end)
    candidates.

(** No candidate and no part of the response is nil. *)
Definition wellFormed (r : Genai.GenerateContentResponse) : Prop :=
  Forall (fun c => c <> None) (Genai.Candidates r)
  /\ Forall (fun p => p <> None) (allParts (Genai.Candidates r)).

(** The parts that are there. *)
Fixpoint present {A : Type} (l : list (option A)) : list A :=
  match l with
  | [] => []
  | Some a :: rest => a :: present rest
  | None :: rest => present rest
  end.

(** A thought: a part marked so that has text. *)
Definition isThought (part : Genai.Part) : bool :=
  Genai.partThought part && negb (String.eqb (Genai.partText part) "").

(** The parts that are not thoughts. *)
Definition regular (parts : list Genai.Part) : list Genai.Part :=
  List.filter (fun part => negb (isThought part)) parts.

Fixpoint concatText (texts : list string) : string :=
  match texts with
  | [] => ""
  | t :: rest => (t ++ concatText rest)%string
  end.

(** The inline data of the parts that carry some. *)
Fixpoint blobsOf (parts : list Genai.Part) : list (list Z * string) :=
  match parts with
  | [] => []
  | part :: rest =>
      match Genai.partInlineData part with
      | Some blob =>
          match Genai.blobData blob with
          | Some data => (data, Genai.blobMIMEType blob) :: blobsOf rest
          | None => blobsOf rest
          end
      | None => blobsOf rest
      end
  end.

(** Images numbered from [k] on. *)
Fixpoint numbered (k : Z) (blobs : list (list Z * string))
    : list GeneratedImage :=
  match blobs with
  | [] => []
  | (data, mime) :: rest =>
      mkGeneratedImage data mime k "" :: numbered (k + 1) rest
  end.

(** The state the loops reach from [st] over [parts]. *)
Definition parsedFrom (st : parsing) (parts : list Genai.Part) : parsing :=
  mkParsing
    (genText st ++ concatText (map Genai.partText (regular parts)))%string
    (genImages st ++ numbered (imageIndex st) (blobsOf (regular parts)))
    (thinkingParts st ++ map Genai.partText (List.filter isThought parts))
    (imageIndex st + len (blobsOf (regular parts))).

Section Provider.
Context {W : Type}.

(** [client.Models.GenerateContent]: the response (a pointer) or an error,
    and the service as it is left. *)
Definition Client : Type :=
  string -> list Genai.Content -> Genai.GenerateContentConfig -> W ->
  (option Genai.GenerateContentResponse + clientError) * W.

(** What a provider call leaves: its result, the service and the API calls
    made. *)
Record reply : Type := mkReply {
  replyResult : returns (Parsed + error);
  replyWorld : W;
  replyCalls : list apiCall
}.

(** [Generate] creates images from a text prompt. *)
Definition Generate (g : GeminiGenerator) (client : Client) (prompt : string)
    (config : option Config) (w : W) : reply :=
  match ValidatePrompt prompt with
  | Some err => mkReply (Returned (inr (Validation err))) w []
  | None =>
      let config := match config with None => defaultConfig | Some c => c end in
      let modelName := resolveModel g (Some config) in
      let contents :=
        [Genai.mkContent "" [Some (Genai.mkPart prompt false None)]] in
      let tools :=
        if EnableGrounding (routed config) then [Genai.GoogleSearch] else [] in
      let genConfig := buildGenerateContentConfig g config tools in
      let call := mkApiCall modelName contents genConfig in
      match client modelName contents genConfig w with
      | (inr err, w1) =>
          match checkRateLimitError (Some err) modelName with
          | Some rlErr => mkReply (Returned (inr rlErr)) w1 [call]
          | None =>
              mkReply (Returned (inr (Failed "generation failed" err))) w1 [call]
          end
      | (inl result, w1) => mkReply (parseResult g result) w1 [call]
      end
  end.

(** [Edit] modifies an existing image based on a text instruction. *)
Definition Edit (g : GeminiGenerator) (client : Client) (image : InputImage)
    (instruction : string) (config : option Config) (w : W) : reply :=
  match ValidatePrompt instruction with
  | Some err => mkReply (Returned (inr (Validation err))) w []
  | None =>
      match ValidateInputImage image with
      | Some err => mkReply (Returned (inr (Validation err))) w []
      | None =>
          let config :=
            match config with None => defaultConfig | Some c => c end in
          let modelName := resolveModel g (Some config) in
          let parts :=
            [Some (Genai.mkPart "" false
                     (Some (Genai.mkBlob (Some (inData image))
                              (inMIMEType image))));
             Some (Genai.mkPart instruction false None)] in
          let contents := [Genai.mkContent "" parts] in
          let genConfig := buildGenerateContentConfig g config [] in
          let call := mkApiCall modelName contents genConfig in
          match client modelName contents genConfig w with
          | (inr err, w1) =>
              match checkRateLimitError (Some err) modelName with
              | Some rlErr => mkReply (Returned (inr rlErr)) w1 [call]
              | None =>
                  mkReply (Returned (inr (Failed "edit failed" err))) w1 [call]
              end
          | (inl result, w1) => mkReply (parseResult g result) w1 [call]
          end
      end
  end.

(** [EditMultiple] performs editing with multiple reference images. *)
Definition EditMultiple (g : GeminiGenerator) (client : Client)
    (images : list InputImage) (instruction : string)
    (config : option Config) (w : W) : reply :=
  match ValidatePrompt instruction with
  | Some err => mkReply (Returned (inr (Validation err))) w []
  | None =>
      match ValidateInputImages images with
      | Some err => mkReply (Returned (inr (Validation err))) w []
      | None =>
          let config :=
            match config with None => defaultConfig | Some c => c end in
          let modelName := resolveModel g (Some config) in
          let parts :=
            imageParts images ++ [Some (Genai.mkPart instruction false None)] in
          let contents := [Genai.mkContent "" parts] in
          let genConfig := buildGenerateContentConfig g config [] in
          let call := mkApiCall modelName contents genConfig in
          match client modelName contents genConfig w with
          | (inr err, w1) =>
              match checkRateLimitError (Some err) modelName with
              | Some rlErr => mkReply (Returned (inr rlErr)) w1 [call]
              | None =>
                  mkReply (Returned (inr (Failed "multi-image edit failed" err))) w1 [call]
              end
          | (inl result, w1) => mkReply (parseResult g result) w1 [call]
          end
      end
  end.

(** [GeminiConversation] implements multi-turn image generation. *)
Record GeminiConversation : Type := mkConversation {
  history : list ConversationTurn;
  contents : list Genai.Content
}.

(** [StartConversation] begins a new image generation conversation. *)
Definition StartConversation : GeminiConversation := mkConversation [] [].

(** [Send] sends a message and receives a response: the reply and the
    conversation as it is left. *)
Definition Send (g : GeminiGenerator) (client : Client)
    (c : GeminiConversation) (prompt : string) (images : list InputImage)
    (config : option Config) (w : W) : reply * GeminiConversation :=
  let config := match config with None => defaultConfig | Some c => c end in
  let modelName := resolveModel g (Some config) in
  let parts := imageParts images in
  let parts :=
    if negb (String.eqb prompt "")
    then parts ++ [Some (Genai.mkPart prompt false None)] else parts in
  let userContent := Genai.mkContent "user" parts in
  let contents1 := contents c ++ [userContent] in
  let userTurn := mkTurn "user" prompt (userImages images) in
  let history1 := history c ++ [userTurn] in
  let genConfig := buildGenerateContentConfig g config [] in
  let call := mkApiCall modelName contents1 genConfig in
  match client modelName contents1 genConfig w with
  | (inr err, w1) =>
      let e :=
        match checkRateLimitError (Some err) modelName with
        | Some rlErr => rlErr
        | None => Failed "conversation send failed" err
        end in
      (mkReply (Returned (inr e)) w1 [call], mkConversation history1 contents1)
  | (inl result, w1) =>
      match parseResult g result with
      | Panicked =>
          (mkReply Panicked w1 [call], mkConversation history1 contents1)
      | Returned (inr err) =>
          (mkReply (Returned (inr err)) w1 [call],
           mkConversation history1 contents1)
      | Returned (inl genResult) =>
          (* [result.Candidates[0].Content]: [None] when it dereferences nil *)
          let contents2 :=
            match result with
            | Some r =>
                match Genai.Candidates r with
                | [] => Some contents1
                | None :: _ => None
                | Some candidate :: _ =>
                    match Genai.candContent candidate with
                    | Some content => Some (contents1 ++ [content])
                    | None => Some contents1
                    end
                end
            | None => None
            end in
          match contents2 with
          | None =>
              (mkReply Panicked w1 [call], mkConversation history1 contents1)
          | Some contents2 =>
              let modelTurn :=
                mkTurn "model" (Text (parsedResult genResult))
                  (Images (parsedResult genResult)) in
              (mkReply (Returned (inl genResult)) w1 [call],
               mkConversation (history1 ++ [modelTurn]) contents2)
          end
      end
  end.

(** [History] returns the conversation history. *)
Definition History (c : GeminiConversation) : list ConversationTurn :=
  history c.

(** [Clear] resets the conversation history. *)
Definition Clear (c : GeminiConversation) : GeminiConversation :=
  mkConversation [] [].

(** A run of sends on one conversation, each with its prompt and images. *)
Fixpoint sendAll (g : GeminiGenerator) (client : Client)
    (c : GeminiConversation) (reqs : list (string * list InputImage))
    (config : option Config) (w : W)
    : list reply * GeminiConversation * W :=
  match reqs with
  | [] => ([], c, w)
  | (prompt, images) :: rest =>
      let '(r, c1) := Send g client c prompt images config w in
      let '(rs, c2, w2) := sendAll g client c1 rest config (replyWorld r) in
      (r :: rs, c2, w2)
  end.

(** The reply carries a result. *)
Definition succeeded (r : reply) : bool :=
  match replyResult r with
  | Returned (inl _) => true
  | _ => false
  end.

(** The roles a run of sends adds to the history. *)
Definition rolesAdded (rs : list reply) : list string :=
  flat_map (fun r => if succeeded r then ["user"; "model"] else ["user"]) rs.

End Provider.

(** An error of the client that reports rate limiting: there is an
    [APIError] on its chain, with code 429 or status [RESOURCE_EXHAUSTED]. *)
Definition rateLimited (err : clientError) : bool :=
  match asAPIError err with
  | Some apiErr =>
      (Genai.Code apiErr =? 429)
      || String.eqb (Genai.Status apiErr) "RESOURCE_EXHAUSTED"
  | None => false
  end.

(** The errors a reply can carry for a request to [modelName]: a
    validation error, the empty-response error, the client's error as it
    is, or the rate-limit error made around it. *)
Definition classified (modelName : string) (e : error) : Prop :=
  (exists v, e = Validation v)
  \/ e = EmptyResponse
  \/ (exists err, rateLimited err = false /\ e = ClientError err)
  \/ (exists err, rateLimited err = true
        /\ e = RateLimit (60 * Second) "requests" modelName err).

(** The content [Send] makes of a user's message. *)
Definition userContent (prompt : string) (images : list InputImage)
    : Genai.Content :=
  Genai.mkContent "user"
    (if negb (String.eqb prompt "")
     then imageParts images ++ [Some (Genai.mkPart prompt false None)]
     else imageParts images).

End Gemini.

(* ===================================================================== *)
(** ** Fixtures: the backends and requests of the package's tests *)

Module Fixtures.

(** The bytes of ["fake-image"]. *)
Definition fakeImage : list Z := [102; 97; 107; 101; 45; 105; 109; 97; 103; 101].

Definition fakeResult : GenerateResult :=
  mkGenerateResult [mkGeneratedImage fakeImage "" 0 ""] "" "".

Definition testModel : ModelInfo :=
  mkModelInfo "test-model" "test-provider" "test-model-api"
    (mkRateLimits 100 10 0).

(** [MockImageGenerator] with a [GenerateFunc] that returns one image; it has
    no native conversation. *)
Definition mockGen : ImageGenerator unit :=
  {| genGenerate := fun _ _ w => (Ok fakeResult, w);
     genEdit := fun _ _ _ w => (Ok (mkGenerateResult [] "" ""), w);
     genEditMultiple := fun _ _ _ w => (Ok (mkGenerateResult [] "" ""), w);
     genModels := [testModel];
     genStartConversation := None |}.

Definition manager : Manager unit := NewManager mockGen 0.

Definition testConfig : option GenerateConfig :=
  Some (mkGenerateConfig "test-model" "" "" 0 false false None false 0).

Definition atZero : Clock := mkClock 0 0 0 0.

Definition never : Duration -> wake := fun _ => TimerFired.

Definition inputImage : InputImage := mkInputImage [1; 2; 3] "image/png" "".

(** The memory of a conversation after one exchange: a user turn without
    images and a model turn with one image of three bytes. *)
Definition heap1 : Mem.heap :=
  Mem.mkHeap
    [[1; 2; 3]]
    [[Mem.mkImageCell (Mem.mkSlice 0 3) "image/png" 0 ""]]
    [[Mem.mkTurnCell "user" "a red kite" (Mem.mkSlice 0 0);
      Mem.mkTurnCell "model" "" (Mem.mkSlice 0 1)]].

Definition history1 : Mem.slice := Mem.mkSlice 0 2.


(** A store in memory: it keeps what it is given and answers with a URL;
    it refuses empty data. *)
Definition memStore : Storage (list saveCall) string :=
  mkStorage
    (fun data path contentType s =>
       if len data =? 0 then (inr "empty data", s)
       else (inl ("mem://" ++ path)%string, s ++ [(data, path, contentType)])).

(** A result of three images, the last one without data. *)
Definition threeImages : GenerateResult :=
  mkGenerateResult
    [mkGeneratedImage [1; 2; 3] "image/png" 0 "";
     mkGeneratedImage [4; 5] "image/jpeg" 1 "";
     mkGeneratedImage [] "image/webp" 2 ""]
    "" "".


(** A backend with native sessions.  The world is the history the session
    keeps: a send records the user turn, then the model turn when the
    backend answers; it fails on an empty prompt. *)
Definition echoConv : ProviderConv (list ConversationTurn) :=
  {| convSend := fun prompt images _ w =>
       let w1 := w ++ [mkTurn "user" prompt (userImages images)] in
       if String.eqb prompt "" then (Err (BackendError "empty prompt"), w1)
       else (Ok (mkGenerateResult [] prompt ""),
             w1 ++ [mkTurn "model" prompt []]);
     convHistory := fun w => w;
     convClear := fun _ => [] |}.

Definition nativeModel : ModelInfo :=
  mkModelInfo "native-model" "native-provider" "native-model-api"
    (mkRateLimits 0 0 0).

Definition nativeGen : ImageGenerator (list ConversationTurn) :=
  {| genGenerate := fun _ _ w => (Ok (mkGenerateResult [] "" ""), w);
     genEdit := fun _ _ _ w => (Ok (mkGenerateResult [] "" ""), w);
     genEditMultiple := fun _ _ _ w => (Ok (mkGenerateResult [] "" ""), w);
     genModels := [nativeModel];
     genStartConversation := Some (fun _ => (echoConv, [])) |}.

Definition nativeManager : Manager (list ConversationTurn) :=
  NewManager nativeGen 0.

Definition nativeConfig : option GenerateConfig :=
  Some (mkGenerateConfig "native-model" "" "" 0 false false None false 0).


(** A response of two candidates: a thought that carries an image, a text
    with an image, and a second candidate with one more image. *)
Definition response : Genai.GenerateContentResponse :=
  Genai.mkResponse
    [Some (Genai.mkCandidate
             (Some (Genai.mkContent "model"
                      [Some (Genai.mkPart "planning" true
                               (Some (Genai.mkBlob (Some [9]) "image/png")));
                       Some (Genai.mkPart "a kite" false
                               (Some (Genai.mkBlob (Some [1; 2]) "image/png")))])));
     Some (Genai.mkCandidate
             (Some (Genai.mkContent "model"
                      [Some (Genai.mkPart "" false
                               (Some (Genai.mkBlob (Some [3]) "image/jpeg")))])))]
    (Some (Genai.mkResponseUsage 5 7 12)).

(** A request for the provider's second model, with grounding. *)
Definition groundedConfig : option Gemini.Config :=
  Some (Gemini.mkConfig
          (mkGenerateConfig Gemini.APIModelNanoBanana1 "" "" 1 true false None
             false 0)
          []).

(** An image given by its URI alone. *)
Definition uriImage : InputImage := mkInputImage [] "" "gs://bucket/kite.png".

(** A service that fails its first call and answers [response] afterwards;
    its state counts the calls. *)
Definition flaky : @Gemini.Client nat :=
  fun _ _ _ n =>
    match n with
    | O => (inr (Gemini.Other "unavailable"), 1%nat)
    | _ => (inl (Some response), Datatypes.S n)
    end.

End Fixtures.

(* ===================================================================== *)
(** * Properties *)

(** ** Machine arithmetic *)

Section Arithmetic.

Lemma wrap_in_range (z : Z) : Int64.in_range z -> Int64.wrap z = z.
Proof.
  unfold Int64.in_range, Int64.wrap, Int64.min_int, Int64.max_int.
  intros H. rewrite Z.mod_small; lia.
Qed.

Lemma wrap_range (z : Z) : Int64.in_range (Int64.wrap z).
Proof.
  unfold Int64.in_range, Int64.wrap, Int64.min_int, Int64.max_int.
  pose proof (Z.mod_pos_bound (z + 2 ^ 63) (2 ^ 64)). lia.
Qed.

Lemma Sub_range (t u : Time) : Int64.in_range (Sub t u).
Proof.
  unfold Sub, Int64.in_range, Int64.min_int, Int64.max_int. lia.
Qed.

Lemma Sub_exact (t u : Time) : Int64.in_range (t - u) -> Sub t u = t - u.
Proof.
  unfold Sub, Int64.in_range, Int64.min_int, Int64.max_int. lia.
Qed.

End Arithmetic.

(** ** Rounding in binary64 *)

Section Rounding.

Lemma digits2_pos_bounds (p : positive) :
  2 ^ (Z.pos (digits2_pos p) - 1) <= Z.pos p < 2 ^ Z.pos (digits2_pos p).
Proof.
  induction p as [p IH|p IH|]; simpl digits2_pos.
  - rewrite Pos2Z.inj_succ.
    replace (Z.succ (Z.pos (digits2_pos p)) - 1) with (Z.pos (digits2_pos p) - 1 + 1) by lia.
    rewrite Z.pow_succ_r by lia.
    destruct (Z.eq_dec (Z.pos (digits2_pos p)) 1) as [E|E].
    + rewrite E in *. simpl in *. lia.
    + rewrite Z.pow_add_r by lia. lia.
  - rewrite Pos2Z.inj_succ.
    replace (Z.succ (Z.pos (digits2_pos p)) - 1) with (Z.pos (digits2_pos p) - 1 + 1) by lia.
    rewrite Z.pow_succ_r by lia.
    destruct (Z.eq_dec (Z.pos (digits2_pos p)) 1) as [E|E].
    + rewrite E in *. simpl in *. lia.
    + rewrite Z.pow_add_r by lia. lia.
  - simpl. lia.
Qed.

Lemma iter_pos_nat {A : Type} (f : A -> A) (p : positive) (x : A) :
  SpecFloat.iter_pos f p x = Nat.iter (Pos.to_nat p) f x.
Proof.
  revert x. induction p as [p IH|p IH|]; intros x; cbn [SpecFloat.iter_pos].
  - rewrite !IH. rewrite Pos2Nat.inj_xI.
    replace (S (2 * Pos.to_nat p)) with (Pos.to_nat p + (Pos.to_nat p + 1))%nat by lia.
    rewrite !Nat.iter_add. reflexivity.
  - rewrite !IH. rewrite Pos2Nat.inj_xO.
    replace (2 * Pos.to_nat p)%nat with (Pos.to_nat p + Pos.to_nat p)%nat by lia.
    rewrite Nat.iter_add. reflexivity.
  - reflexivity.
Qed.

Lemma shr_1_m (mrs : shr_record) :
  0 <= shr_m mrs -> shr_m (shr_1 mrs) = shr_m mrs / 2.
Proof.
  destruct mrs as [m r s]. cbn [shr_m]. intros H.
  destruct m as [|[p|p|]|p]; cbn [shr_1 shr_m]; try lia; try reflexivity.
  all: first [rewrite Pos2Z.inj_xI; apply Z.div_unique with (r := 1); lia
             |rewrite Pos2Z.inj_xO; apply Z.div_unique with (r := 0); lia].
Qed.

Lemma shr_1_exact (mrs : shr_record) :
  0 <= shr_m mrs -> shr_m mrs mod 2 = 0 ->
  shr_r mrs = false -> shr_s mrs = false ->
  shr_r (shr_1 mrs) = false /\ shr_s (shr_1 mrs) = false.
Proof.
  destruct mrs as [m r s]. cbn [shr_m shr_r shr_s]. intros H Hm -> ->.
  destruct m as [|[p|p|]|p]; cbn [shr_1 shr_m shr_r shr_s orb]; try lia;
    try (split; reflexivity).
  all: exfalso; try discriminate.
  rewrite Pos2Z.inj_xI in Hm.
  rewrite Z.add_comm, Z.mul_comm, Z.mod_add in Hm by lia. discriminate.
Qed.

Lemma shr_iter_m (n : nat) (mrs : shr_record) :
  0 <= shr_m mrs ->
  shr_m (Nat.iter n shr_1 mrs) = shr_m mrs / 2 ^ Z.of_nat n.
Proof.
  intros H. induction n as [|n IH].
  - simpl. rewrite Z.div_1_r. reflexivity.
  - rewrite Nat2Z.inj_succ, Z.pow_succ_r by lia. rewrite Nat.iter_succ.
    assert (Hpow : 0 < 2 ^ Z.of_nat n) by (apply Z.pow_pos_nonneg; lia).
    rewrite shr_1_m.
    + rewrite IH. rewrite Z.div_div by lia. f_equal. lia.
    + rewrite IH. apply Z.div_pos; lia.
Qed.

Lemma shr_iter_exact (n : nat) (mrs : shr_record) :
  0 <= shr_m mrs -> shr_m mrs mod 2 ^ Z.of_nat n = 0 ->
  shr_r mrs = false -> shr_s mrs = false ->
  shr_r (Nat.iter n shr_1 mrs) = false /\ shr_s (Nat.iter n shr_1 mrs) = false.
Proof.
  intros H Hm Hr Hs. induction n as [|n IH].
  - simpl. split; assumption.
  - rewrite Nat2Z.inj_succ, Z.pow_succ_r in Hm by lia.
    assert (Hpow : 0 < 2 ^ Z.of_nat n) by (apply Z.pow_pos_nonneg; lia).
    assert (Hdiv : shr_m mrs = 2 * 2 ^ Z.of_nat n * (shr_m mrs / (2 * 2 ^ Z.of_nat n))).
    { pose proof (Z.div_mod (shr_m mrs) (2 * 2 ^ Z.of_nat n)). lia. }
    assert (Hm' : shr_m mrs mod 2 ^ Z.of_nat n = 0).
    { rewrite Hdiv.
      replace (2 * 2 ^ Z.of_nat n * (shr_m mrs / (2 * 2 ^ Z.of_nat n)))
        with (2 * (shr_m mrs / (2 * 2 ^ Z.of_nat n)) * 2 ^ Z.of_nat n) by ring.
      apply Z.mod_mul. lia. }
    destruct (IH Hm') as [IHr IHs]. rewrite Nat.iter_succ.
    apply shr_1_exact; try assumption.
    + rewrite shr_iter_m by assumption. apply Z.div_pos; lia.
    + rewrite shr_iter_m by assumption.
      rewrite Hdiv at 1.
      replace (2 * 2 ^ Z.of_nat n * (shr_m mrs / (2 * 2 ^ Z.of_nat n)))
        with (2 * (shr_m mrs / (2 * 2 ^ Z.of_nat n)) * 2 ^ Z.of_nat n) by ring.
      rewrite Z.div_mul by lia.
      rewrite Z.mul_comm. apply Z.mod_mul. lia.
Qed.

Lemma shr_spec (m : Z) (l : location) (e n : Z) :
  0 <= m ->
  shr_m (fst (shr (shr_record_of_loc m l) e n)) = m / 2 ^ Z.max 0 n
  /\ snd (shr (shr_record_of_loc m l) e n) = e + Z.max 0 n
  /\ (l = loc_Exact -> m mod 2 ^ Z.max 0 n = 0 ->
      loc_of_shr_record (fst (shr (shr_record_of_loc m l) e n)) = loc_Exact).
Proof.
  intros Hm.
  assert (Hrec : shr_m (shr_record_of_loc m l) = m)
    by (destruct l as [|[]]; reflexivity).
  destruct n as [|p|p]; cbn [shr fst snd].
  - rewrite Z.max_l by lia. rewrite Z.div_1_r, Z.add_0_r.
    repeat split; try assumption. intros -> _. reflexivity.
  - rewrite Z.max_r by lia. rewrite iter_pos_nat.
    rewrite <- (positive_nat_Z p).
    repeat split.
    + rewrite shr_iter_m by lia. rewrite Hrec. reflexivity.
    + intros -> Hmod.
      destruct (shr_iter_exact (Pos.to_nat p) (shr_record_of_loc m loc_Exact))
        as [Hr Hs]; try reflexivity; try assumption.
      destruct (Nat.iter (Pos.to_nat p) shr_1 (shr_record_of_loc m loc_Exact))
        as [m' r' s']. cbn in Hr, Hs. subst. reflexivity.
  - rewrite Z.max_l by lia. rewrite Z.div_1_r, Z.add_0_r.
    repeat split; try assumption. intros -> _. reflexivity.
Qed.

Lemma round_nearest_even_bounds (m : Z) (l : location) :
  m <= round_nearest_even m l <= m + 1
  /\ (l = loc_Exact -> round_nearest_even m l = m).
Proof.
  destruct l as [|[]]; cbn [round_nearest_even];
    try destruct (Z.even m); split; try lia; try reflexivity; discriminate.
Qed.

Lemma Zdigits2_bounds (m : Z) :
  0 <= m -> 0 <= Zdigits2 m /\ m < 2 ^ Zdigits2 m
            /\ (0 < m -> 2 ^ (Zdigits2 m - 1) <= m).
Proof.
  intros H. destruct m as [|p|p]; cbn [Zdigits2]; try lia.
  pose proof (digits2_pos_bounds p). repeat split; lia.
Qed.

Lemma fexp64_eq (e : Z) : fexp 53 1024 e = Z.max (e - 53) (-1074).
Proof. reflexivity. Qed.

(** One [shr_fexp] stage keeps a number under a power of two. *)
Lemma shr_fexp_le_pow2 (m e k : Z) (l : location) :
  0 <= m -> m <= 2 ^ (k - e) -> e <= k -> -1074 <= k ->
  let mrs := fst (shr_fexp 53 1024 m e l) in
  let e' := snd (shr_fexp 53 1024 m e l) in
  0 <= shr_m mrs <= 2 ^ (k - e')
  /\ e <= e' <= k /\ e' <= Z.max (Z.max e (k - 52)) (-1074)
  /\ (shr_m mrs = 2 ^ (k - e') -> m = 2 ^ (k - e))
  /\ (l = loc_Exact -> m = 2 ^ (k - e) -> loc_of_shr_record mrs = loc_Exact).
Proof.
  intros Hm Hle Hek Hk mrs e'. subst mrs e'. unfold shr_fexp.
  rewrite fexp64_eq.
  set (n := Z.max (Zdigits2 m + e - 53) (-1074) - e).
  destruct (shr_spec m l e n Hm) as (Hsm & Hse & Hex).
  rewrite Hsm, Hse.
  destruct (Zdigits2_bounds m Hm) as (Hd0 & Hdu & Hdl).
  assert (Hdk : Zdigits2 m <= k - e + 1).
  { destruct (Z.eq_dec m 0) as [->|Hne]; [cbn; lia|].
    assert (Hlt : 2 ^ (Zdigits2 m - 1) < 2 ^ (k - e + 1)).
    { specialize (Hdl ltac:(lia)).
      assert (2 ^ (k - e) < 2 ^ (k - e + 1))
        by (apply Z.pow_lt_mono_r; lia). lia. }
    apply Z.pow_lt_mono_r_iff in Hlt; lia. }
  set (n0 := Z.max 0 n) in *.
  assert (Hn0 : 0 <= n0 <= k - e) by (subst n0 n; lia).
  assert (Hpow : 0 < 2 ^ n0) by (apply Z.pow_pos_nonneg; lia).
  assert (Hsplit : 2 ^ (k - e) = 2 ^ (k - (e + n0)) * 2 ^ n0).
  { rewrite <- Z.pow_add_r by lia. f_equal. lia. }
  repeat split; try lia.
  - apply Z.div_pos; lia.
  - apply Z.div_le_upper_bound; [lia|]. rewrite Z.mul_comm, <- Hsplit. exact Hle.
  - intros Heq.
    assert (2 ^ n0 * (m / 2 ^ n0) <= m) by (apply Z.mul_div_le; lia).
    rewrite Heq, Z.mul_comm, <- Hsplit in H. lia.
  - intros Hl Heq. apply Hex; [assumption|].
    rewrite Heq, Hsplit. apply Z.mod_mul. lia.
Qed.

(** Rounding keeps a non-negative number under a power of two. *)
Lemma binary_round_aux_le_pow2 (mx ex k : Z) (lx : location) :
  0 <= mx -> ex <= 971 -> ex <= k -> -1074 <= k <= 1023 ->
  mx < 2 ^ (k - ex) \/ (mx = 2 ^ (k - ex) /\ lx = loc_Exact) ->
  F64.le_pow2 (binary_round_aux 53 1024 false mx ex lx) k.
Proof.
  intros Hm Hex Hek Hk Hle. unfold binary_round_aux.
  assert (Hle' : mx <= 2 ^ (k - ex)) by lia.
  pose proof (shr_fexp_le_pow2 mx ex k lx Hm Hle' Hek ltac:(lia)) as H1.
  destruct (shr_fexp 53 1024 mx ex lx) as [mrs1 e1]. cbn [fst snd] in H1.
  destruct H1 as ((Hm1 & Hle1) & (He1 & He1k) & He1b & Heq1 & Hexact1).
  pose proof (round_nearest_even_bounds (shr_m mrs1) (loc_of_shr_record mrs1))
    as ((Hr1 & Hr2) & Hr3).
  set (m2 := round_nearest_even (shr_m mrs1) (loc_of_shr_record mrs1)) in *.
  assert (Hm2 : 0 <= m2 <= 2 ^ (k - e1)).
  { split; [lia|].
    destruct (Z.eq_dec (shr_m mrs1) (2 ^ (k - e1))) as [Heq|Hne]; [|lia].
    specialize (Heq1 Heq).
    destruct Hle as [Hlt|[_ Hl]]; [lia|].
    rewrite (Hr3 (Hexact1 Hl Heq1)). lia. }
  pose proof (shr_fexp_le_pow2 m2 e1 k loc_Exact ltac:(lia) ltac:(lia)
                ltac:(lia) ltac:(lia)) as H2.
  destruct (shr_fexp 53 1024 m2 e1 loc_Exact) as [mrs2 e2]. cbn [fst snd] in H2.
  destruct H2 as ((Hm3 & Hle3) & (He2 & He2k) & He2b & _).
  destruct (shr_m mrs2) as [|p|p] eqn:E; cbn [F64.le_pow2]; try lia.
  - destruct (Z.leb_spec e2 (1024 - 53)); [cbn [F64.le_pow2]; lia|lia].
Qed.

Lemma new_location_exact (nb_steps : Z) : new_location nb_steps 0 = loc_Exact.
Proof.
  unfold new_location, new_location_even, new_location_odd.
  destruct (Z.even nb_steps); reflexivity.
Qed.

(** The quotient of two positive numbers [x <= y] is not above 1. *)
Lemma div_le_one (mx my : positive) (ex ey : Z) :
  -52 <= ex -> -52 <= ey ->
  Z.pos mx * 2 ^ (ex + 52) <= Z.pos my * 2 ^ (ey + 52) ->
  F64.le_pow2 (F64.div (S754_finite false mx ex) (S754_finite false my ey)) 0.
Proof.
  intros Hex Hey H. unfold F64.div, SFdiv, SFdiv_core_binary.
  rewrite fexp64_eq. cbn [xorb].
  set (d1 := Zdigits2 (Z.pos mx)). set (d2 := Zdigits2 (Z.pos my)).
  set (e' := Z.min (Z.max (d1 + ex - (d2 + ey) - 53) (-1074)) (ex - ey)).
  set (s := ex - ey - e').
  destruct (Zdigits2_bounds (Z.pos mx) ltac:(lia)) as (_ & _ & Hd1).
  destruct (Zdigits2_bounds (Z.pos my) ltac:(lia)) as (_ & Hd2 & _).
  specialize (Hd1 ltac:(lia)). fold d1 in Hd1. fold d2 in Hd2.
  assert (Hd1p : 1 <= d1) by (subst d1; cbn; lia).
  assert (Hd2p : 1 <= d2) by (subst d2; cbn; lia).
  assert (Hmag : d1 + ex <= d2 + ey).
  { assert (Hl : 2 ^ (d1 - 1 + (ex + 52)) < 2 ^ (d2 + (ey + 52))).
    { rewrite (Z.pow_add_r 2 (d1 - 1) (ex + 52)),
        (Z.pow_add_r 2 d2 (ey + 52)) by lia.
      assert (0 < 2 ^ (ex + 52)) by (apply Z.pow_pos_nonneg; lia).
      assert (0 < 2 ^ (ey + 52)) by (apply Z.pow_pos_nonneg; lia).
      assert (2 ^ (d1 - 1) * 2 ^ (ex + 52) <= Z.pos mx * 2 ^ (ex + 52))
        by (apply Z.mul_le_mono_nonneg_r; lia).
      assert (Z.pos my * 2 ^ (ey + 52) < 2 ^ d2 * 2 ^ (ey + 52))
        by (apply Z.mul_lt_mono_pos_r; lia).
      lia. }
    apply Z.pow_lt_mono_r_iff in Hl; lia. }
  assert (He' : e' <= -53) by (subst e'; lia).
  assert (Hs : 0 <= s) by (subst s e'; lia).
  assert (Hsdef : s = ex - ey - e') by reflexivity. clearbody s.
  set (m' := match s with
             | 0 => Z.pos mx
             | Z.pos _ => Z.shiftl (Z.pos mx) s
             | Z.neg _ => 0
             end).
  assert (Hm' : m' = Z.pos mx * 2 ^ s).
  { subst m'. destruct s as [|p|p]; try lia.
    apply Z.shiftl_mul_pow2. lia. }
  assert (Hbound : m' <= Z.pos my * 2 ^ (- e')).
  { rewrite Hm'.
    assert (Hv : 0 < 2 ^ (ey + 52)) by (apply Z.pow_pos_nonneg; lia).
    assert (HE : 0 <= 2 ^ (- e')) by (apply Z.pow_nonneg; lia).
    assert (HSB : 2 ^ s * 2 ^ (ey + 52) = 2 ^ (ex + 52) * 2 ^ (- e')).
    { rewrite <- !Z.pow_add_r by lia. f_equal. lia. }
    apply Z.mul_le_mono_pos_r with (p := 2 ^ (ey + 52)); [exact Hv|].
    replace (Z.pos mx * 2 ^ s * 2 ^ (ey + 52))
      with (Z.pos mx * 2 ^ (ex + 52) * 2 ^ (- e'))
      by (rewrite <- !Z.mul_assoc, HSB; reflexivity).
    replace (Z.pos my * 2 ^ (- e') * 2 ^ (ey + 52))
      with (Z.pos my * 2 ^ (ey + 52) * 2 ^ (- e')) by ring.
    apply Z.mul_le_mono_nonneg_r; assumption. }
  pose proof (Z_div_mod m' (Z.pos my) ltac:(lia)) as Hdm.
  destruct (Z.div_eucl m' (Z.pos my)) as [q r]. destruct Hdm as [Hq Hr].
  assert (Hq0 : 0 <= q) by nia.
  assert (Hpe : 0 < 2 ^ (- e')) by (apply Z.pow_pos_nonneg; lia).
  apply binary_round_aux_le_pow2; try lia.
  replace (0 - e') with (- e') by lia.
  destruct (Z_lt_le_dec q (2 ^ (- e'))) as [Hlt|Hge]; [left; exact Hlt|].
  right.
  assert (q = 2 ^ (- e') /\ r = 0) as [-> ->] by nia.
  split; [reflexivity|apply new_location_exact].
Qed.

(** The product of a number under [2^kx] and a number under [2^ky]. *)
Lemma mul_le_pow2 (x y : F64.t) (kx ky : Z) :
  F64.le_pow2 x kx -> F64.le_pow2 y ky -> -1074 <= kx + ky <= 971 ->
  F64.le_pow2 (F64.mul x y) (kx + ky).
Proof.
  unfold F64.mul, SFmul.
  destruct x as [[]|[]| |[] mx ex]; destruct y as [[]|[]| |[] my ey];
    cbn [F64.le_pow2 xorb]; try tauto.
  intros Hx Hy Hk.
  assert (Hkx : ex <= kx).
  { destruct (Z_lt_le_dec kx ex); [|assumption].
    rewrite Z.pow_neg_r in Hx by lia. lia. }
  assert (Hky : ey <= ky).
  { destruct (Z_lt_le_dec ky ey); [|assumption].
    rewrite Z.pow_neg_r in Hy by lia. lia. }
  apply binary_round_aux_le_pow2; try lia.
  assert (Hle : Z.pos (mx * my) <= 2 ^ (kx + ky - (ex + ey))).
  { replace (kx + ky - (ex + ey)) with ((kx - ex) + (ky - ey)) by lia.
    rewrite Z.pow_add_r, Pos2Z.inj_mul by lia.
    apply Z.mul_le_mono_nonneg; lia. }
  destruct (Z.eq_dec (Z.pos (mx * my)) (2 ^ (kx + ky - (ex + ey))));
    [right; split; [assumption|reflexivity]|left; lia].
Qed.

(** Truncation of a number under [2^k] that fits [int]. *)
Lemma to_int_le_pow2 (x : F64.t) (k : Z) :
  0 <= k <= 62 -> F64.le_pow2 x k -> 0 <= F64.to_int x <= 2 ^ k.
Proof.
  intros Hk. assert (Hp : 2 ^ k <= 2 ^ 62) by (apply Z.pow_le_mono_r; lia).
  unfold F64.to_int, F64.trunc.
  destruct x as [[]|[]| |[] m e]; cbn [F64.le_pow2]; try tauto.
  - intros _. change (0 <= 0 <= 2 ^ k). lia.
  - intros Hx.
    assert (Hek : e <= k).
    { destruct (Z_lt_le_dec k e); [|assumption].
      rewrite Z.pow_neg_r in Hx by lia. lia. }
    set (a := match e with
              | Z.neg p => Z.pos m / 2 ^ Z.pos p
              | _ => Z.pos m * 2 ^ e
              end).
    assert (Ha : 0 <= a <= 2 ^ k).
    { subst a. destruct e as [|p|p].
      - rewrite Z.sub_0_r in Hx. lia.
      - assert (Hsplit : 2 ^ k = 2 ^ (k - Z.pos p) * 2 ^ Z.pos p)
          by (rewrite <- Z.pow_add_r by lia; f_equal; lia).
        assert (0 < 2 ^ Z.pos p) by (apply Z.pow_pos_nonneg; lia).
        rewrite Hsplit. split; [lia|].
        apply Z.mul_le_mono_nonneg_r; lia.
      - assert (Hpp : 0 < 2 ^ Z.pos p) by (apply Z.pow_pos_nonneg; lia).
        split; [apply Z.div_pos; lia|].
        apply Z.div_le_upper_bound; [lia|].
        replace (k - Z.neg p) with (Z.pos p + k) in Hx by lia.
        rewrite Z.pow_add_r in Hx by lia. exact Hx. }
    assert (Hin : (Int64.min_int <=? a) && (a <=? Int64.max_int) = true).
    { unfold Int64.min_int, Int64.max_int.
      apply andb_true_iff. split; apply Z.leb_le; lia. }
    rewrite Hin. exact Ha.
Qed.

Lemma shr_1_spec (m : Z) (r s : bool) :
  0 <= m ->
  shr_1 (Build_shr_record m r s) = Build_shr_record (m / 2) (Z.odd m) (r || s).
Proof.
  intros H.
  pose proof (shr_1_m (Build_shr_record m r s) H) as Hm. cbn [shr_m] in Hm.
  rewrite <- Hm.
  destruct m as [|[p|p|]|p]; try lia; reflexivity.
Qed.

Lemma shr_iter_spec (n : nat) (m : Z) :
  0 <= m ->
  Nat.iter (S n) shr_1 (Build_shr_record m false false) =
  Build_shr_record (m / 2 ^ Z.of_nat (S n)) (Z.odd (m / 2 ^ Z.of_nat n))
    (negb (m mod 2 ^ Z.of_nat n =? 0)).
Proof.
  intros H. induction n as [|n IH].
  - cbn [Nat.iter nat_rect]. rewrite shr_1_spec by assumption.
    change (2 ^ Z.of_nat 1) with 2. change (2 ^ Z.of_nat 0) with 1.
    rewrite Z.div_1_r, Z.mod_1_r. reflexivity.
  - rewrite Nat.iter_succ, IH.
    assert (Hp : 0 < 2 ^ Z.of_nat n) by (apply Z.pow_pos_nonneg; lia).
    assert (Hp1 : 2 ^ Z.of_nat (S n) = 2 ^ Z.of_nat n * 2)
      by (rewrite Nat2Z.inj_succ, Z.pow_succ_r by lia; ring).
    rewrite shr_1_spec by (apply Z.div_pos; lia).
    f_equal.
    + rewrite Z.div_div by lia.
      rewrite (Nat2Z.inj_succ (S n)), Z.pow_succ_r by lia. f_equal. lia.
    + rewrite Hp1. rewrite Z.rem_mul_r by lia.
      rewrite (Zmod_odd (m / 2 ^ Z.of_nat n)).
      pose proof (Z.mod_pos_bound m (2 ^ Z.of_nat n) Hp).
      destruct (Z.odd (m / 2 ^ Z.of_nat n));
        destruct (Z.eqb_spec (m mod 2 ^ Z.of_nat n) 0);
        match goal with
        | |- context [?x + ?y =? 0] => destruct (Z.eqb_spec (x + y) 0)
        end; cbn [orb negb]; try reflexivity; lia.
Qed.

Lemma shr_iter_loc (n : nat) (m : Z) :
  0 <= m ->
  loc_of_shr_record (Nat.iter n shr_1 (Build_shr_record m false false)) =
  F64.rem_loc m (Z.of_nat n).
Proof.
  intros H. unfold F64.rem_loc. destruct n as [|n].
  - cbn [Nat.iter nat_rect loc_of_shr_record]. change (2 ^ Z.of_nat 0) with 1.
    rewrite Z.mod_1_r. reflexivity.
  - rewrite shr_iter_spec by assumption. cbn [loc_of_shr_record].
    replace (Z.of_nat (S n) - 1) with (Z.of_nat n) by lia.
    assert (Hp : 0 < 2 ^ Z.of_nat n) by (apply Z.pow_pos_nonneg; lia).
    assert (Hp1 : 2 ^ Z.of_nat (S n) = 2 ^ Z.of_nat n * 2)
      by (rewrite Nat2Z.inj_succ, Z.pow_succ_r by lia; ring).
    rewrite Hp1, Z.rem_mul_r by lia.
    rewrite (Zmod_odd (m / 2 ^ Z.of_nat n)).
    pose proof (Z.mod_pos_bound m (2 ^ Z.of_nat n) Hp).
    destruct (Z.odd (m / 2 ^ Z.of_nat n));
      destruct (Z.eqb_spec (m mod 2 ^ Z.of_nat n) 0) as [E|E]; cbn [negb];
      match goal with
      | |- context [?x + ?y =? 0] =>
          destruct (Z.eqb_spec (x + y) 0);
          destruct (Z.compare_spec (x + y) (2 ^ Z.of_nat n))
      end; try reflexivity; lia.
Qed.

Lemma Zdigits2_unique (m d : Z) :
  2 ^ (d - 1) <= m < 2 ^ d -> 0 < m -> Zdigits2 m = d.
Proof.
  intros [Hl Hu] Hm.
  destruct (Zdigits2_bounds m ltac:(lia)) as (H0 & Hu' & Hl').
  specialize (Hl' Hm).
  assert (Hd : 0 < d).
  { destruct (Z_lt_le_dec 0 d); [assumption|].
    destruct (Z.eq_dec d 0) as [->|]; [cbn in Hu; lia|].
    rewrite Z.pow_neg_r in Hu by lia. lia. }
  assert (H1 : 2 ^ (Zdigits2 m - 1) < 2 ^ d) by lia.
  assert (H2 : 2 ^ (d - 1) < 2 ^ Zdigits2 m) by lia.
  apply Z.pow_lt_mono_r_iff in H1; [|lia|lia].
  apply Z.pow_lt_mono_r_iff in H2; [|lia|lia]. lia.
Qed.

Lemma shr_fexp_noshift (m e : Z) (l : location) :
  Z.max (Zdigits2 m + e - 53) (-1074) <= e ->
  shr_fexp 53 1024 m e l = (shr_record_of_loc m l, e).
Proof.
  intros H. unfold shr_fexp. rewrite fexp64_eq.
  destruct (Z.max (Zdigits2 m + e - 53) (-1074) - e) as [|p|p] eqn:E;
    try lia; reflexivity.
Qed.

(** A number that needs no rounding is kept. *)
Lemma binary_round_aux_exact (p : positive) (e : Z) :
  Z.max (Z.pos (digits2_pos p) + e - 53) (-1074) <= e -> e <= 971 ->
  binary_round_aux 53 1024 false (Z.pos p) e loc_Exact = S754_finite false p e.
Proof.
  intros H He. unfold binary_round_aux.
  rewrite shr_fexp_noshift by exact H.
  cbn [shr_record_of_loc shr_m loc_of_shr_record round_nearest_even].
  rewrite shr_fexp_noshift by exact H.
  cbn [shr_record_of_loc shr_m].
  destruct (Z.leb_spec e (1024 - 53)); [reflexivity|lia].
Qed.

Lemma shift_pos_Z (p d : positive) :
  Z.pos (Pos.iter xO p d) = Z.pos p * 2 ^ Z.pos d.
Proof.
  change (Pos.iter xO p d) with (shift_pos d p).
  rewrite shift_pos_correct. apply Z.mul_comm.
Qed.

Lemma digits2_shift (p d : positive) :
  Z.pos (digits2_pos (Pos.iter xO p d)) = Z.pos (digits2_pos p) + Z.pos d.
Proof.
  change (Z.pos (digits2_pos (Pos.iter xO p d)))
    with (Zdigits2 (Z.pos (Pos.iter xO p d))).
  apply Zdigits2_unique; [|lia].
  rewrite shift_pos_Z.
  pose proof (digits2_pos_bounds p) as [Hl Hu].
  assert (Hp : 0 < 2 ^ Z.pos d) by (apply Z.pow_pos_nonneg; lia).
  replace (Z.pos (digits2_pos p) + Z.pos d - 1)
    with ((Z.pos (digits2_pos p) - 1) + Z.pos d) by lia.
  rewrite !Z.pow_add_r by lia. split.
  - apply Z.mul_le_mono_nonneg_r; lia.
  - apply Z.mul_lt_mono_pos_r; lia.
Qed.

(** The conversion of an integer of at most 53 bits is exact. *)
Lemma of_int_small (p : positive) :
  Z.pos (digits2_pos p) <= 53 ->
  exists m, F64.of_int (Z.pos p) =
              S754_finite false m (Z.pos (digits2_pos p) - 53)
            /\ Z.pos m = Z.pos p * 2 ^ (53 - Z.pos (digits2_pos p)).
Proof.
  intros Hd. unfold F64.of_int, binary_normalize, binary_round, shl_align.
  unfold F64.prec, F64.emax. rewrite fexp64_eq.
  set (d := Z.pos (digits2_pos p)) in *.
  replace (Z.max (d + 0 - 53) (-1074) - 0) with (d - 53) by lia.
  replace (Z.max (d + 0 - 53) (-1074)) with (d - 53) by lia.
  destruct (d - 53) as [|q|q] eqn:E; try lia.
  - exists p. replace d with 53 by lia.
    split; [|cbn; lia].
    change (53 - 53) with 0.
    apply binary_round_aux_exact; [|lia]. fold d. lia.
  - exists (Pos.iter xO p q).
    assert (Hq : Z.pos q = 53 - d) by lia.
    split; [|rewrite shift_pos_Z, Hq; reflexivity].
    apply binary_round_aux_exact; [|lia].
    rewrite digits2_shift. fold d. lia.
Qed.

(** The conversion of a longer integer rounds it to 53 bits. *)
Lemma of_int_large (p : positive) :
  53 < Z.pos (digits2_pos p) <= 1000 ->
  let n := Z.pos (digits2_pos p) - 53 in
  exists m e, F64.of_int (Z.pos p) = S754_finite false m e
              /\ n <= e
              /\ Z.pos m * 2 ^ (e - n) =
                 round_nearest_even (Z.pos p / 2 ^ n) (F64.rem_loc (Z.pos p) n).
Proof.
  intros Hd n. unfold F64.of_int, binary_normalize, binary_round, shl_align.
  unfold F64.prec, F64.emax. rewrite fexp64_eq.
  set (d := Z.pos (digits2_pos p)) in *.
  replace (Z.max (d + 0 - 53) (-1074) - 0) with n by (subst n; lia).
  destruct n as [|q|q] eqn:En; try lia.
  unfold binary_round_aux.
  assert (Hshr : shr_fexp 53 1024 (Z.pos p) 0 loc_Exact =
                 (Nat.iter (Pos.to_nat q) shr_1
                    (Build_shr_record (Z.pos p) false false), Z.pos q)).
  { unfold shr_fexp. rewrite fexp64_eq. cbn [Zdigits2]. fold d.
    replace (Z.max (d + 0 - 53) (-1074) - 0) with (Z.pos q) by lia.
    cbn [shr shr_record_of_loc]. rewrite iter_pos_nat. reflexivity. }
  rewrite Hshr. clear Hshr.
  rewrite shr_iter_loc by lia. rewrite shr_iter_m by (cbn; lia).
  cbn [shr_m]. rewrite positive_nat_Z.
  set (m1 := Z.pos p / 2 ^ Z.pos q).
  set (m2 := round_nearest_even m1 (F64.rem_loc (Z.pos p) (Z.pos q))).
  pose proof (digits2_pos_bounds p) as [Hl Hu]. fold d in Hl, Hu.
  assert (Hpq : 0 < 2 ^ Z.pos q) by (apply Z.pow_pos_nonneg; lia).
  assert (Hsplit1 : 2 ^ (d - 1) = 2 ^ 52 * 2 ^ Z.pos q)
    by (rewrite <- Z.pow_add_r by lia; f_equal; lia).
  assert (Hsplit2 : 2 ^ d = 2 ^ 53 * 2 ^ Z.pos q)
    by (rewrite <- Z.pow_add_r by lia; f_equal; lia).
  assert (Hm1 : 2 ^ 52 <= m1 < 2 ^ 53).
  { subst m1. split.
    - apply Z.div_le_lower_bound; [lia|]. rewrite Z.mul_comm, <- Hsplit1. lia.
    - apply Z.div_lt_upper_bound; [lia|]. rewrite Z.mul_comm, <- Hsplit2. lia. }
  pose proof (round_nearest_even_bounds m1 (F64.rem_loc (Z.pos p) (Z.pos q)))
    as [[Hr1 Hr2] _]. fold m2 in Hr1, Hr2.
  destruct (Z_lt_le_dec m2 (2 ^ 53)) as [Hlt|Hge].
  - assert (Hdig : Zdigits2 m2 = 53)
      by (apply Zdigits2_unique; [change (53 - 1) with 52|]; lia).
    rewrite shr_fexp_noshift by (rewrite Hdig; lia).
    cbn [shr_record_of_loc shr_m].
    destruct m2 as [|m|m] eqn:Em2; try lia.
    destruct (Z.leb_spec (Z.pos q) (1024 - 53)); [|lia].
    exists m, (Z.pos q). split; [reflexivity|]. split; [lia|].
    rewrite Z.sub_diag. change (2 ^ 0) with 1. lia.
  - assert (Hm2 : m2 = 2 ^ 53) by lia. rewrite Hm2.
    unfold shr_fexp. rewrite fexp64_eq.
    change (Zdigits2 (2 ^ 53)) with 54.
    replace (Z.max (54 + Z.pos q - 53) (-1074) - Z.pos q) with 1 by lia.
    cbn [shr shr_record_of_loc SpecFloat.iter_pos]. cbn [shr_1 shr_m].
    change (2 ^ 53) with 9007199254740992. cbn [shr_1 shr_m].
    destruct (Z.leb_spec (Z.pos q + 1) (1024 - 53)); [|lia].
    eexists. exists (Z.pos q + 1). split; [reflexivity|]. split; [lia|].
    replace (Z.pos q + 1 - Z.pos q) with 1 by lia. reflexivity.
Qed.

Lemma RN_small (p : Z) : 0 <= p -> Zdigits2 p <= 53 -> F64.RN p = p.
Proof.
  intros Hp Hd. unfold F64.RN. rewrite Z.max_l by lia.
  unfold F64.rem_loc. change (2 ^ 0) with 1.
  rewrite Z.mod_1_r, Z.div_1_r. cbn. lia.
Qed.

Lemma RN_large (p : Z) :
  0 < p -> 53 < Zdigits2 p ->
  2 ^ (Zdigits2 p - 1) <= F64.RN p <= 2 ^ Zdigits2 p.
Proof.
  intros Hp Hd. unfold F64.RN. rewrite Z.max_r by lia.
  set (d := Zdigits2 p) in *. set (n := d - 53).
  destruct (Zdigits2_bounds p ltac:(lia)) as (_ & Hu & Hl).
  specialize (Hl Hp). fold d in Hu, Hl.
  assert (Hpn : 0 < 2 ^ n) by (apply Z.pow_pos_nonneg; lia).
  assert (Hsplit1 : 2 ^ (d - 1) = 2 ^ 52 * 2 ^ n)
    by (rewrite <- Z.pow_add_r by lia; f_equal; lia).
  assert (Hsplit2 : 2 ^ d = 2 ^ 53 * 2 ^ n)
    by (rewrite <- Z.pow_add_r by lia; f_equal; lia).
  assert (Hq : 2 ^ 52 <= p / 2 ^ n < 2 ^ 53).
  { split.
    - apply Z.div_le_lower_bound; [lia|]. rewrite Z.mul_comm, <- Hsplit1. lia.
    - apply Z.div_lt_upper_bound; [lia|]. rewrite Z.mul_comm, <- Hsplit2. lia. }
  pose proof (round_nearest_even_bounds (p / 2 ^ n) (F64.rem_loc p n))
    as [[Hr1 Hr2] _].
  rewrite Hsplit1, Hsplit2. split; apply Z.mul_le_mono_nonneg_r; lia.
Qed.

Lemma Zdigits2_mono (a b : Z) : 0 < a <= b -> Zdigits2 a <= Zdigits2 b.
Proof.
  intros [Ha Hab].
  destruct (Zdigits2_bounds a ltac:(lia)) as (Ha0 & _ & Hal).
  destruct (Zdigits2_bounds b ltac:(lia)) as (Hb0 & Hbu & _).
  specialize (Hal Ha).
  assert (H : 2 ^ (Zdigits2 a - 1) < 2 ^ Zdigits2 b) by lia.
  destruct (Z.eq_dec (Zdigits2 a) 0) as [E|E]; [lia|].
  apply Z.pow_lt_mono_r_iff in H; lia.
Qed.

Lemma RN_mono_same (a b : Z) :
  0 < a <= b -> Zdigits2 a = Zdigits2 b -> 53 < Zdigits2 a -> F64.RN a <= F64.RN b.
Proof.
  intros [Ha Hab] Hd Hbig. unfold F64.RN. rewrite <- Hd.
  rewrite Z.max_r by lia. set (n := Zdigits2 a - 53).
  assert (Hpn : 0 < 2 ^ n) by (apply Z.pow_pos_nonneg; lia).
  apply Z.mul_le_mono_nonneg_r; [lia|].
  pose proof (Z.div_mod a (2 ^ n) ltac:(lia)) as Hda.
  pose proof (Z.div_mod b (2 ^ n) ltac:(lia)) as Hdb.
  pose proof (Z.mod_pos_bound a (2 ^ n) Hpn) as Hra.
  pose proof (Z.mod_pos_bound b (2 ^ n) Hpn) as Hrb.
  assert (Hq : a / 2 ^ n <= b / 2 ^ n) by (apply Z.div_le_mono; lia).
  pose proof (round_nearest_even_bounds (a / 2 ^ n) (F64.rem_loc a n))
    as [[Ha1 Ha2] _].
  pose proof (round_nearest_even_bounds (b / 2 ^ n) (F64.rem_loc b n))
    as [[Hb1 Hb2] _].
  destruct (Z.eq_dec (a / 2 ^ n) (b / 2 ^ n)) as [E|E]; [|lia].
  assert (Hr : a mod 2 ^ n <= b mod 2 ^ n) by nia.
  rewrite <- E. unfold F64.rem_loc, round_nearest_even.
  destruct (Z.eqb_spec (a mod 2 ^ n) 0);
    destruct (Z.eqb_spec (b mod 2 ^ n) 0);
    destruct (Z.compare_spec (a mod 2 ^ n) (2 ^ (n - 1)));
    destruct (Z.compare_spec (b mod 2 ^ n) (2 ^ (n - 1)));
    destruct (Z.even (a / 2 ^ n)); lia.
Qed.

(** Rounding to 53 bits is monotone. *)
Lemma RN_mono (a b : Z) : 0 < a <= b -> F64.RN a <= F64.RN b.
Proof.
  intros Hab.
  pose proof (Zdigits2_mono a b Hab) as Hd.
  destruct (Zdigits2_bounds a ltac:(lia)) as (_ & Hau & _).
  destruct (Zdigits2_bounds b ltac:(lia)) as (_ & _ & Hbl).
  specialize (Hbl ltac:(lia)).
  destruct (Z_le_gt_dec (Zdigits2 b) 53) as [Hb|Hb].
  - rewrite !RN_small by lia. lia.
  - destruct (Z.eq_dec (Zdigits2 a) (Zdigits2 b)) as [E|E].
    + apply RN_mono_same; [assumption|assumption|lia].
    + assert (Hpow : 2 ^ Zdigits2 a <= 2 ^ (Zdigits2 b - 1))
        by (apply Z.pow_le_mono_r; lia).
      pose proof (RN_large b ltac:(lia) ltac:(lia)) as [Hbl' _].
      destruct (Z_le_gt_dec (Zdigits2 a) 53) as [Ha|Ha].
      * rewrite (RN_small a) by lia. lia.
      * pose proof (RN_large a ltac:(lia) ltac:(lia)) as [_ Hau']. lia.
Qed.

(** The value of a converted integer, scaled by [2^52]. *)
Lemma of_int_value (p : positive) :
  Z.pos (digits2_pos p) <= 1000 ->
  exists m e, F64.of_int (Z.pos p) = S754_finite false m e
              /\ -52 <= e
              /\ Z.pos m * 2 ^ (e + 52) = F64.RN (Z.pos p) * 2 ^ 52.
Proof.
  intros Hd.
  destruct (Z_le_gt_dec (Z.pos (digits2_pos p)) 53) as [Hs|Hl].
  - destruct (of_int_small p Hs) as (m & Hm & Hv).
    exists m, (Z.pos (digits2_pos p) - 53). split; [exact Hm|].
    split; [lia|].
    rewrite RN_small by (cbn [Zdigits2]; lia). rewrite Hv.
    rewrite <- Z.mul_assoc, <- Z.pow_add_r by lia. do 2 f_equal. lia.
  - destruct (of_int_large p ltac:(lia)) as (m & e & Hm & He & Hv).
    exists m, e. split; [exact Hm|]. split; [lia|].
    unfold F64.RN. cbn [Zdigits2]. rewrite Z.max_r by lia.
    set (n := Z.pos (digits2_pos p) - 53) in *.
    rewrite <- Hv.
    rewrite <- !Z.mul_assoc, <- !Z.pow_add_r by lia. do 2 f_equal. lia.
Qed.

Lemma Zdigits2_int64 (z : Z) : 0 < z < 2 ^ 63 -> Zdigits2 z <= 63.
Proof.
  intros [H0 H1].
  destruct (Zdigits2_bounds z ltac:(lia)) as (Hd & _ & Hl).
  specialize (Hl H0).
  assert (H : 2 ^ (Zdigits2 z - 1) < 2 ^ 63) by lia.
  destruct (Z.eq_dec (Zdigits2 z) 0); [lia|].
  apply Z.pow_lt_mono_r_iff in H; lia.
Qed.

(** Conversion to [float64] is monotone on positive [int]s. *)
Lemma of_int_mono (a b : Z) :
  0 < a <= b -> b < 2 ^ 63 ->
  exists ma ea mb eb,
    F64.of_int a = S754_finite false ma ea
    /\ F64.of_int b = S754_finite false mb eb
    /\ -52 <= ea /\ -52 <= eb
    /\ Z.pos ma * 2 ^ (ea + 52) <= Z.pos mb * 2 ^ (eb + 52).
Proof.
  intros Hab Hb.
  pose proof (Zdigits2_int64 a ltac:(lia)) as Hda.
  pose proof (Zdigits2_int64 b ltac:(lia)) as Hdb.
  pose proof (RN_mono a b Hab) as Hrn.
  destruct a as [|pa|pa]; try lia. destruct b as [|pb|pb]; try lia.
  cbn [Zdigits2] in Hda, Hdb.
  destruct (of_int_value pa ltac:(lia)) as (ma & ea & Ha & Hea & Hva).
  destruct (of_int_value pb ltac:(lia)) as (mb & eb & Hb' & Heb & Hvb).
  exists ma, ea, mb, eb. repeat split; try assumption.
  rewrite Hva, Hvb. apply Z.mul_le_mono_nonneg_r; lia.
Qed.

(** The conversion of a capacity of at most [2^62] is at most [2^62]. *)
Lemma of_int_le_pow2 (c : Z) : 0 <= c <= 2 ^ 62 -> F64.le_pow2 (F64.of_int c) 62.
Proof.
  intros [H0 H1]. destruct c as [|p|p]; try lia; [exact I|].
  pose proof (Zdigits2_int64 (Z.pos p) ltac:(lia)) as Hd. cbn [Zdigits2] in Hd.
  destruct (of_int_value p ltac:(lia)) as (m & e & Hm & He & Hv).
  rewrite Hm. cbn [F64.le_pow2].
  pose proof (RN_mono (Z.pos p) (2 ^ 62) ltac:(lia)) as Hrn.
  change (F64.RN (2 ^ 62)) with (2 ^ 62) in Hrn.
  assert (Hle : Z.pos m * 2 ^ (e + 52) <= 2 ^ 62 * 2 ^ 52)
    by (rewrite Hv; apply Z.mul_le_mono_nonneg_r; lia).
  assert (Hpe : 0 < 2 ^ (e + 52)) by (apply Z.pow_pos_nonneg; lia).
  destruct (Z_le_gt_dec e 62) as [He62|He62].
  - assert (Hsplit : 2 ^ 62 * 2 ^ 52 = 2 ^ (62 - e) * 2 ^ (e + 52))
      by (rewrite <- !Z.pow_add_r by lia; f_equal; lia).
    rewrite Hsplit in Hle.
    apply Z.mul_le_mono_pos_r in Hle; assumption.
  - exfalso.
    assert (2 ^ 115 <= 2 ^ (e + 52)) by (apply Z.pow_le_mono_r; lia).
    assert (2 ^ (e + 52) <= Z.pos m * 2 ^ (e + 52)) by nia.
    change (2 ^ 62 * 2 ^ 52) with (2 ^ 114) in Hle.
    assert (2 ^ 114 < 2 ^ 115) by (apply Z.pow_lt_mono_r; lia). lia.
Qed.

(** The share [int(float64(c) * (float64(e) / float64(i)))] of a partial
    refill lies between 0 and [2^62]. *)
Lemma replenished_bounds (c e i : Z) :
  0 <= c <= 2 ^ 62 -> 0 < e < i -> i < 2 ^ 63 ->
  0 <= F64.to_int
         (F64.mul (F64.of_int c) (F64.div (F64.of_int e) (F64.of_int i)))
    <= 2 ^ 62.
Proof.
  intros Hc He Hi.
  destruct (of_int_mono e i ltac:(lia) Hi)
    as (me & ee & mi & ei & Hfe & Hfi & Hee & Hei & Hle).
  rewrite Hfe, Hfi.
  pose proof (div_le_one me mi ee ei Hee Hei Hle) as Hq.
  pose proof (of_int_le_pow2 c Hc) as Hcf.
  pose proof (mul_le_pow2 _ _ 62 0 Hcf Hq ltac:(lia)) as Hp.
  apply (to_int_le_pow2 _ (62 + 0)); [lia|exact Hp].
Qed.



(** The quotient and remainder [SFdiv_core_binary] computes. *)
Lemma SFdiv_core_binary_spec (mx my : positive) (ex ey : Z) :
  let D := Zdigits2 (Z.pos mx) + ex - (Zdigits2 (Z.pos my) + ey) in
  exists q e' r,
    SFdiv_core_binary 53 1024 (Z.pos mx) ex (Z.pos my) ey =
      (q, e', new_location (Z.pos my) r)
    /\ e' <= ex - ey /\ e' <= Z.max (D - 53) (-1074)
    /\ 0 <= r < Z.pos my /\ 0 <= q
    /\ Z.pos mx * 2 ^ (ex - ey - e') = Z.pos my * q + r.
Proof.
  intros D. unfold SFdiv_core_binary. rewrite fexp64_eq. fold D.
  set (e' := Z.min (Z.max (D - 53) (-1074)) (ex - ey)).
  set (s := ex - ey - e').
  assert (Hs : 0 <= s) by (subst s e'; lia).
  assert (Hsdef : s = ex - ey - e') by reflexivity. clearbody s.
  set (m' := match s with
             | 0 => Z.pos mx
             | Z.pos _ => Z.shiftl (Z.pos mx) s
             | Z.neg _ => 0
             end).
  assert (Hm' : m' = Z.pos mx * 2 ^ s).
  { subst m'. destruct s as [|p|p]; try lia.
    apply Z.shiftl_mul_pow2. lia. }
  pose proof (Z_div_mod m' (Z.pos my) ltac:(lia)) as Hdm.
  destruct (Z.div_eucl m' (Z.pos my)) as [q r]. destruct Hdm as [Hq Hr].
  assert (Hm0 : 0 < m').
  { rewrite Hm'. assert (0 < 2 ^ s) by (apply Z.pow_pos_nonneg; lia). lia. }
  exists q, e', r. rewrite <- Hsdef, <- Hm'.
  repeat split; try lia; try (subst e'; lia). nia.
Qed.

(** The quotient of a number under [2^a] by a number above [2^b]. *)
Lemma div_le_pow2 (mx my : positive) (ex ey a b : Z) :
  F64.le_pow2 (S754_finite false mx ex) a ->
  F64.ge_pow2 (S754_finite false my ey) b ->
  -1074 <= a - b <= 1023 ->
  F64.le_pow2 (F64.div (S754_finite false mx ex) (S754_finite false my ey))
    (a - b).
Proof.
  cbn [F64.le_pow2 F64.ge_pow2]. intros Hx Hy Hk.
  unfold F64.div, SFdiv. unfold F64.prec, F64.emax. cbn [xorb].
  destruct (SFdiv_core_binary_spec mx my ex ey)
    as (q & e' & r & Hcore & He1 & He2 & Hr & Hq & Heq).
  rewrite Hcore. clear Hcore.
  set (d1 := Zdigits2 (Z.pos mx)) in *. set (d2 := Zdigits2 (Z.pos my)) in *.
  destruct (Zdigits2_bounds (Z.pos mx) ltac:(lia)) as (_ & _ & Hd1).
  destruct (Zdigits2_bounds (Z.pos my) ltac:(lia)) as (_ & Hd2 & _).
  specialize (Hd1 ltac:(lia)). fold d1 in Hd1. fold d2 in Hd2.
  assert (Hd1p : 1 <= d1) by (subst d1; cbn; lia).
  assert (Hd2p : 1 <= d2) by (subst d2; cbn; lia).
  assert (Hax : 0 <= a - ex).
  { destruct (Z_lt_le_dec (a - ex) 0); [|assumption].
    rewrite Z.pow_neg_r in Hx by lia. lia. }
  assert (H1 : d1 - 1 <= a - ex).
  { assert (Hle : 2 ^ (d1 - 1) <= 2 ^ (a - ex)) by lia.
    apply Z.pow_le_mono_r_iff in Hle; lia. }
  assert (H2 : b - ey < d2).
  { destruct (Z_lt_le_dec (b - ey) 0); [lia|].
    assert (Hlt : 2 ^ (b - ey) < 2 ^ d2) by lia.
    apply Z.pow_lt_mono_r_iff in Hlt; lia. }
  set (s := ex - ey - e') in *.
  assert (Hs : 0 <= s) by (subst s; lia).
  assert (Hke : 0 <= a - b - e') by lia.
  set (t := a - ex + s).
  assert (Hup : Z.pos mx * 2 ^ s <= 2 ^ t).
  { subst t. rewrite Z.pow_add_r by lia.
    apply Z.mul_le_mono_nonneg_r; [apply Z.pow_nonneg; lia|exact Hx]. }
  assert (Hlow : 2 ^ t <= Z.pos my * 2 ^ (a - b - e')).
  { destruct (Z_lt_le_dec (b - ey) 0) as [Hn|Hp].
    - assert (2 ^ t <= 2 ^ (a - b - e'))
        by (apply Z.pow_le_mono_r; subst t s; lia).
      assert (0 < 2 ^ (a - b - e')) by (apply Z.pow_pos_nonneg; lia). nia.
    - replace t with ((b - ey) + (a - b - e')) by (subst t s; lia).
      rewrite Z.pow_add_r by lia.
      apply Z.mul_le_mono_nonneg_r; [apply Z.pow_nonneg; lia|exact Hy]. }
  apply binary_round_aux_le_pow2; try lia.
  destruct (Z_lt_le_dec q (2 ^ (a - b - e'))) as [Hlt|Hge]; [left; exact Hlt|].
  right.
  assert (q = 2 ^ (a - b - e') /\ r = 0) as [-> ->] by nia.
  split; [reflexivity|apply new_location_exact].
Qed.


Lemma RN_pow2 (k : Z) : 0 <= k -> F64.RN (2 ^ k) = 2 ^ k.
Proof.
  intros Hk.
  assert (Hp : 0 < 2 ^ k) by (apply Z.pow_pos_nonneg; lia).
  assert (Hd : Zdigits2 (2 ^ k) = k + 1).
  { apply Zdigits2_unique; [|lia].
    replace (k + 1 - 1) with k by lia. split; [lia|].
    apply Z.pow_lt_mono_r; lia. }
  destruct (Z_le_gt_dec (k + 1) 53) as [Hs|Hl].
  - apply RN_small; lia.
  - unfold F64.RN. rewrite Hd, Z.max_r by lia.
    set (n := k + 1 - 53).
    assert (Hsplit : 2 ^ k = 2 ^ 52 * 2 ^ n)
      by (rewrite <- Z.pow_add_r by lia; f_equal; lia).
    assert (Hpn : 0 < 2 ^ n) by (apply Z.pow_pos_nonneg; lia).
    unfold F64.rem_loc. rewrite Hsplit at 1 2.
    rewrite Z.mod_mul, Z.div_mul by lia.
    cbn [Z.eqb round_nearest_even]. symmetry. exact Hsplit.
Qed.

(** The conversion of a positive [int] keeps it on its side of a power of
    two. *)
Lemma of_int_pow2 (z k : Z) :
  0 < z < 2 ^ 63 -> 0 <= k <= 62 ->
  (z <= 2 ^ k -> F64.le_pow2 (F64.of_int z) k)
  /\ (2 ^ k <= z -> F64.ge_pow2 (F64.of_int z) k).
Proof.
  intros Hz Hk. destruct z as [|p|p]; try lia.
  pose proof (Zdigits2_int64 (Z.pos p) Hz) as Hd. cbn [Zdigits2] in Hd.
  destruct (of_int_value p ltac:(lia)) as (m & e & Hm & He & Hv).
  rewrite Hm. cbn [F64.le_pow2 F64.ge_pow2].
  assert (Hpe : 0 < 2 ^ (e + 52)) by (apply Z.pow_pos_nonneg; lia).
  assert (Hpk : 0 < 2 ^ k) by (apply Z.pow_pos_nonneg; lia).
  assert (Hsplit : 0 <= k - e -> 2 ^ k * 2 ^ 52 = 2 ^ (k - e) * 2 ^ (e + 52)).
  { intros H. rewrite <- !Z.pow_add_r by lia. f_equal. lia. }
  split; intros Hzk.
  - pose proof (RN_mono (Z.pos p) (2 ^ k) ltac:(lia)) as Hrn.
    rewrite RN_pow2 in Hrn by lia.
    assert (Hle : Z.pos m * 2 ^ (e + 52) <= 2 ^ k * 2 ^ 52)
      by (rewrite Hv; apply Z.mul_le_mono_nonneg_r; lia).
    destruct (Z_le_gt_dec e k) as [Hek|Hek].
    + rewrite Hsplit in Hle by lia.
      apply Z.mul_le_mono_pos_r in Hle; assumption.
    + exfalso.
      assert (2 ^ (k + 52) < 2 ^ (e + 52)) by (apply Z.pow_lt_mono_r; lia).
      rewrite <- Z.pow_add_r in Hle by lia. nia.
  - pose proof (RN_mono (2 ^ k) (Z.pos p) ltac:(lia)) as Hrn.
    rewrite RN_pow2 in Hrn by lia.
    assert (Hge : 2 ^ k * 2 ^ 52 <= Z.pos m * 2 ^ (e + 52))
      by (rewrite Hv; apply Z.mul_le_mono_nonneg_r; lia).
    destruct (Z_le_gt_dec e k) as [Hek|Hek].
    + rewrite Hsplit in Hge by lia.
      apply Z.mul_le_mono_pos_r in Hge; assumption.
    + rewrite Z.pow_neg_r by lia. lia.
Qed.



End Rounding.

(** ** The token bucket *)

Section Bucket.
Import TokenBucket.

Lemma HasCapacity_available tb n now :
  HasCapacity tb n now = (n <=? available tb now).
Proof. reflexivity. Qed.

Lemma remaining_refillChecked tb now :
  remaining (refillChecked tb now) = available tb now.
Proof.
  unfold refillChecked, available.
  destruct (refillInterval tb <=? Sub now (lastRefill tb)); reflexivity.
Qed.

Lemma Consume_accepts tb n now :
  HasCapacity tb n now = true ->
  Consume tb n now =
    (true, mk (capacity tb) (Int64.sub (available tb now) n)
              (refillInterval tb) (lastRefill (refillChecked tb now))).
Proof.
  unfold HasCapacity, Consume, available, refillChecked.
  destruct (refillInterval tb <=? Sub now (lastRefill tb)); simpl;
    intros ->; reflexivity.
Qed.

Lemma Consume_rejects tb n now :
  HasCapacity tb n now = false ->
  Consume tb n now = (false, refillChecked tb now).
Proof.
  unfold HasCapacity, Consume, refillChecked.
  destruct (refillInterval tb <=? Sub now (lastRefill tb)); simpl;
    intros ->; reflexivity.
Qed.

Lemma Consume_decides tb n now :
  fst (Consume tb n now) = HasCapacity tb n now.
Proof.
  destruct (HasCapacity tb n now) eqn:E.
  - rewrite Consume_accepts by assumption. reflexivity.
  - rewrite Consume_rejects by assumption. reflexivity.
Qed.

Lemma refillChecked_not_due tb now :
  Sub now (lastRefill tb) < refillInterval tb -> refillChecked tb now = tb.
Proof.
  unfold refillChecked. intros H.
  destruct (Z.leb_spec (refillInterval tb) (Sub now (lastRefill tb))); [lia|].
  reflexivity.
Qed.

Lemma available_not_due tb now :
  Sub now (lastRefill tb) < refillInterval tb ->
  available tb now = remaining tb.
Proof.
  unfold available. intros H.
  destruct (Z.leb_spec (refillInterval tb) (Sub now (lastRefill tb))); [lia|].
  reflexivity.
Qed.

End Bucket.

(** ** Consuming from a full bucket *)

(** C4: a bucket of capacity [c] that is full and within its refill interval
    accepts every [TryConsume(n)] with [n <= c] and is left with [c - n]
    remaining (the subtraction is Go's, on [int]; it is the mathematical
    difference whenever that is an [int], in particular for every
    [0 <= n <= c]); [TryConsume(c+1)] is rejected and leaves the bucket as it
    was. *)
Theorem full_bucket_consume (tb : TokenBucket.t) (now : Time) :
  Int64.in_range (TokenBucket.capacity tb) ->
  TokenBucket.remaining tb = TokenBucket.capacity tb ->
  Sub now (TokenBucket.lastRefill tb) < TokenBucket.refillInterval tb ->
  (forall n : Z, Int64.in_range n -> n <= TokenBucket.capacity tb ->
     TokenBucket.TryConsume tb n now =
       (true, TokenBucket.mk (TokenBucket.capacity tb)
                (Int64.sub (TokenBucket.capacity tb) n)
                (TokenBucket.refillInterval tb) (TokenBucket.lastRefill tb))
     /\ (TokenBucket.capacity tb - n <= Int64.max_int ->
         Int64.sub (TokenBucket.capacity tb) n = TokenBucket.capacity tb - n))
  /\ (Int64.in_range (TokenBucket.capacity tb + 1) ->
      TokenBucket.TryConsume tb (TokenBucket.capacity tb + 1) now = (false, tb)).
Proof.
  intros Hc Hfull Hdue. split.
  - intros n Hn Hle. split.
    + unfold TokenBucket.TryConsume.
      rewrite Consume_accepts.
      * rewrite refillChecked_not_due, available_not_due by assumption.
        rewrite Hfull. reflexivity.
      * rewrite HasCapacity_available, available_not_due by assumption.
        apply Z.leb_le. lia.
    + intros Hmax. apply wrap_in_range.
      unfold Int64.in_range, Int64.min_int, Int64.max_int in *. lia.
  - intros _. unfold TokenBucket.TryConsume.
    rewrite Consume_rejects.
    + rewrite refillChecked_not_due by assumption. reflexivity.
    + rewrite HasCapacity_available, available_not_due by assumption.
      apply Z.leb_gt. lia.
Qed.

Lemma full_bucket_consume_witness :
  let tb := TokenBucket.NewTokenBucket 10 10 Minute 0 in
  TokenBucket.TryConsume tb 5 Second =
    (true, TokenBucket.mk 10 5 Minute 0)
  /\ TokenBucket.TryConsume tb 11 Second = (false, tb).
Proof.
  pose (tb := TokenBucket.NewTokenBucket 10 10 Minute 0).
  assert (Hc : Int64.in_range (TokenBucket.capacity tb)) by (vm_compute; split; discriminate).
  assert (Hf : TokenBucket.remaining tb = TokenBucket.capacity tb) by reflexivity.
  assert (Hd : Sub Second (TokenBucket.lastRefill tb) < TokenBucket.refillInterval tb)
    by (vm_compute; reflexivity).
  destruct (full_bucket_consume tb Second Hc Hf Hd) as [Hacc Hrej].
  split.
  - apply (Hacc 5); vm_compute; try split; discriminate.
  - apply Hrej. vm_compute; split; discriminate.
Defined.

(** ** The composite limiter *)

Lemma RateLimiter_TryConsume_decides rl n nowT nowR :
  fst (RateLimiter.TryConsume rl n nowT nowR) =
  RateLimiter.HasCapacity rl n nowT nowR.
Proof.
  unfold RateLimiter.TryConsume, RateLimiter.HasCapacity, TokenBucket.TryConsume.
  pose proof (Consume_decides (RateLimiter.TokensBucket rl) n nowT) as HT.
  pose proof (Consume_decides (RateLimiter.RequestsBucket rl) 1 nowR) as HR.
  destruct (TokenBucket.Consume (RateLimiter.TokensBucket rl) n nowT) as [okT tb].
  destruct (TokenBucket.Consume (RateLimiter.RequestsBucket rl) 1 nowR) as [okR rb].
  simpl in *. subst. destruct (TokenBucket.HasCapacity _ n nowT); reflexivity.
Qed.

(** C1, as amended: when the token bucket can supply [n] and the request
    bucket cannot supply 1, [TryConsume(n)] returns false, the token bucket
    keeps the deduction of [n] (no rollback), and the request bucket is left
    as its refill check leaves it: untouched while its interval has not
    elapsed (always so when its capacity is at least 1), reset to its capacity
    with [lastRefill] moved to now otherwise. *)
Theorem TryConsume_asymmetric_commit (rl : RateLimiter.t) (n : Z)
    (nowT nowR : Time) :
  TokenBucket.HasCapacity (RateLimiter.TokensBucket rl) n nowT = true ->
  TokenBucket.HasCapacity (RateLimiter.RequestsBucket rl) 1 nowR = false ->
  let tb := RateLimiter.TokensBucket rl in
  let rb := RateLimiter.RequestsBucket rl in
  let rl' := snd (RateLimiter.TryConsume rl n nowT nowR) in
  fst (RateLimiter.TryConsume rl n nowT nowR) = false
  /\ TokenBucket.remaining (RateLimiter.TokensBucket rl') =
       Int64.sub (TokenBucket.available tb nowT) n
  /\ (Int64.in_range (TokenBucket.available tb nowT) -> 0 <= n ->
       TokenBucket.remaining (RateLimiter.TokensBucket rl') =
       TokenBucket.available tb nowT - n)
  /\ RateLimiter.RequestsBucket rl' = TokenBucket.refillChecked rb nowR
  /\ (Sub nowR (TokenBucket.lastRefill rb) < TokenBucket.refillInterval rb ->
       RateLimiter.RequestsBucket rl' = rb)
  /\ (1 <= TokenBucket.capacity rb -> RateLimiter.RequestsBucket rl' = rb).
Proof.
  intros HT HR tb rb rl'. subst rl'.
  unfold RateLimiter.TryConsume, TokenBucket.TryConsume.
  rewrite (Consume_accepts _ _ _ HT), (Consume_rejects _ _ _ HR). simpl.
  fold tb rb.
  repeat split.
  - intros Hr Hn. apply wrap_in_range.
    rewrite HasCapacity_available in HT. apply Z.leb_le in HT. fold tb in HT.
    unfold Int64.in_range, Int64.min_int, Int64.max_int in *. lia.
  - apply refillChecked_not_due.
  - intros Hcap. apply refillChecked_not_due.
    rewrite HasCapacity_available in HR. apply Z.leb_gt in HR. fold rb in HR.
    unfold TokenBucket.available in HR.
    destruct (Z.leb_spec (TokenBucket.refillInterval rb)
                (Sub nowR (TokenBucket.lastRefill rb))); lia.
Qed.

Lemma TryConsume_asymmetric_commit_witness :
  let rl := RateLimiter.NewLimiter (RateLimiter.mkConfig "m" 100 1 0 0) 0 0 in
  let rl1 := snd (RateLimiter.TryConsume rl 10 Second Second) in
  fst (RateLimiter.TryConsume rl1 10 (2 * Second) (2 * Second)) = false
  /\ TokenBucket.remaining
       (RateLimiter.TokensBucket
          (snd (RateLimiter.TryConsume rl1 10 (2 * Second) (2 * Second)))) = 80.
Proof.
  pose (rl := RateLimiter.NewLimiter (RateLimiter.mkConfig "m" 100 1 0 0) 0 0).
  pose (rl1 := snd (RateLimiter.TryConsume rl 10 Second Second)).
  assert (HT : TokenBucket.HasCapacity (RateLimiter.TokensBucket rl1) 10
                 (2 * Second) = true) by (vm_compute; reflexivity).
  assert (HR : TokenBucket.HasCapacity (RateLimiter.RequestsBucket rl1) 1
                 (2 * Second) = false) by (vm_compute; reflexivity).
  destruct (TryConsume_asymmetric_commit rl1 10 (2 * Second) (2 * Second) HT HR)
    as (Hfalse & Hrem & _).
  split; [exact Hfalse|].
  etransitivity; [exact Hrem|]. vm_compute. reflexivity.
Defined.

(** C1 as stated fails: with a request bucket of capacity 0 whose interval
    has elapsed, the rejected call still moves the request bucket's
    [lastRefill]. *)
Lemma TryConsume_request_bucket_touched :
  let rl := RateLimiter.NewLimiter (RateLimiter.mkConfig "m" 100 0 0 0) 0 0 in
  TokenBucket.HasCapacity (RateLimiter.TokensBucket rl) 10 Minute = true
  /\ TokenBucket.HasCapacity (RateLimiter.RequestsBucket rl) 1 Minute = false
  /\ fst (RateLimiter.TryConsume rl 10 Minute Minute) = false
  /\ RateLimiter.RequestsBucket (snd (RateLimiter.TryConsume rl 10 Minute Minute))
       <> RateLimiter.RequestsBucket rl.
Proof.
  vm_compute. repeat split; discriminate.
Qed.

(** ** A limiter without request capacity *)

Lemma TryConsume_no_request_capacity rl n nowT nowR :
  TokenBucket.capacity (RateLimiter.RequestsBucket rl) = 0 ->
  TokenBucket.remaining (RateLimiter.RequestsBucket rl) <= 0 ->
  fst (RateLimiter.TryConsume rl n nowT nowR) = false
  /\ TokenBucket.capacity
       (RateLimiter.RequestsBucket (snd (RateLimiter.TryConsume rl n nowT nowR))) = 0
  /\ TokenBucket.remaining
       (RateLimiter.RequestsBucket (snd (RateLimiter.TryConsume rl n nowT nowR))) <= 0.
Proof.
  intros Hc Hr.
  assert (HR : TokenBucket.HasCapacity (RateLimiter.RequestsBucket rl) 1 nowR = false).
  { rewrite HasCapacity_available. apply Z.leb_gt.
    unfold TokenBucket.available.
    destruct (_ <=? _); lia. }
  unfold RateLimiter.TryConsume, TokenBucket.TryConsume.
  destruct (TokenBucket.Consume (RateLimiter.TokensBucket rl) n nowT) as [[] tb].
  - rewrite (Consume_rejects _ _ _ HR). simpl.
    unfold TokenBucket.refillChecked. destruct (_ <=? _); simpl; repeat split; lia.
  - simpl. repeat split; lia.
Qed.

(** C10: a limiter built from a configuration with [RequestsPerMinute = 0]
    rejects every [TryConsume], whatever the amounts, the clock readings and
    the calls made before. *)
Theorem zero_request_rate_rejects_all (config : RateLimiter.RateLimitConfig)
    (nowT nowR : Time) (calls : list (Z * Time * Time)) :
  RateLimiter.RequestsPerMinute config = 0 ->
  Forall (fun ok => ok = false)
    (fst (RateLimiter.tryAll (RateLimiter.NewLimiter config nowT nowR) calls)).
Proof.
  intros H0.
  assert (Hinv : TokenBucket.capacity (RateLimiter.RequestsBucket
                   (RateLimiter.NewLimiter config nowT nowR)) = 0
                 /\ TokenBucket.remaining (RateLimiter.RequestsBucket
                   (RateLimiter.NewLimiter config nowT nowR)) <= 0).
  { simpl. rewrite H0. split; [reflexivity | lia]. }
  generalize dependent (RateLimiter.NewLimiter config nowT nowR).
  induction calls as [|[[n tT] tR] rest IH]; intros rl [Hc Hr]; simpl.
  - constructor.
  - destruct (TryConsume_no_request_capacity rl n tT tR Hc Hr) as (Hf & Hc' & Hr').
    destruct (RateLimiter.TryConsume rl n tT tR) as [ok rl1]. simpl in *.
    specialize (IH rl1 (conj Hc' Hr')).
    destruct (RateLimiter.tryAll rl1 rest) as [oks rl2]. simpl in *.
    constructor; assumption.
Qed.

Lemma zero_request_rate_rejects_all_witness :
  Forall (fun ok => ok = false)
    (fst (RateLimiter.tryAll
            (RateLimiter.NewLimiter (RateLimiter.mkConfig "m" 100 0 0 0) 0 0)
            [(0, 0, 0); (1, Second, Second); (100, 2 * Minute, 2 * Minute)])).
Proof.
  apply zero_request_rate_rejects_all. reflexivity.
Defined.

(** ** The bucket invariant *)

Lemma Consume_inv tb n now :
  Int64.in_range (TokenBucket.capacity tb) -> TokenBucket.inv tb -> 0 <= n ->
  TokenBucket.inv (snd (TokenBucket.Consume tb n now)).
Proof.
  unfold TokenBucket.inv, TokenBucket.Consume. intros Hc Hi Hn.
  destruct (_ <=? Sub _ _); simpl;
    match goal with |- context [?a <=? ?b] => destruct (Z.leb_spec a b) end;
    simpl; unfold Int64.sub; try rewrite wrap_in_range;
    unfold Int64.in_range, Int64.min_int, Int64.max_int in *; lia.
Qed.

Lemma replenishedTokens_bounds (tb : TokenBucket.t) (elapsed : Duration) :
  0 <= TokenBucket.capacity tb <= 2 ^ 62 ->
  0 < elapsed < TokenBucket.refillInterval tb ->
  Int64.in_range (TokenBucket.refillInterval tb) ->
  0 <= TokenBucket.replenishedTokens tb elapsed <= 2 ^ 62.
Proof.
  intros Hc He Hi. unfold TokenBucket.replenishedTokens.
  apply replenished_bounds; try assumption.
  unfold Int64.in_range, Int64.max_int in Hi. lia.
Qed.

Lemma Wait_inv tb n now :
  TokenBucket.capacity tb < 2 ^ 62 ->
  Int64.in_range (TokenBucket.refillInterval tb) ->
  TokenBucket.inv tb ->
  TokenBucket.inv (snd (TokenBucket.Wait tb n now)).
Proof.
  unfold TokenBucket.inv, TokenBucket.Wait.
  intros Hc Hint Hi.
  set (e := Sub now (TokenBucket.lastRefill tb)) in *.
  destruct (Z.leb_spec (TokenBucket.refillInterval tb) e) as [Hdue|Hnot].
  - destruct (_ <=? _); simpl; lia.
  - destruct (Z.ltb_spec 0 e) as [Hpos|Hneg].
    + pose proof (replenishedTokens_bounds tb e ltac:(lia) ltac:(lia) Hint)
        as [H0 Hmax].
      assert (Hadd : Int64.add (TokenBucket.remaining tb)
                       (TokenBucket.replenishedTokens tb e) =
                     TokenBucket.remaining tb + TokenBucket.replenishedTokens tb e).
      { apply wrap_in_range.
        unfold Int64.in_range, Int64.min_int, Int64.max_int in *. lia. }
      destruct (_ <=? _); simpl; rewrite Hadd; lia.
    + destruct (_ <=? _); simpl; lia.
Qed.

Lemma step_inv (tb : TokenBucket.t) (o : TokenBucket.op) (now : Time) :
  TokenBucket.capacity tb < 2 ^ 62 ->
  Int64.in_range (TokenBucket.refillInterval tb) ->
  TokenBucket.inv tb -> TokenBucket.nonNegative o ->
  TokenBucket.inv (TokenBucket.step tb o now).
Proof.
  intros Hc Hint Hi Hn.
  assert (Hr : Int64.in_range (TokenBucket.capacity tb)).
  { unfold TokenBucket.inv in Hi.
    unfold Int64.in_range, Int64.min_int, Int64.max_int.
    assert (2 ^ 62 < 2 ^ 63) by (apply Z.pow_lt_mono_r; lia). lia. }
  destruct o as [n|n|n|n|n]; simpl in *.
  - apply Consume_inv; assumption.
  - apply Consume_inv; assumption.
  - apply Wait_inv; assumption.
  - assumption.
  - unfold TokenBucket.TimeUntilAvailable. destruct (_ <=? _); assumption.
Qed.

Lemma step_frame (tb : TokenBucket.t) (o : TokenBucket.op) (now : Time) :
  TokenBucket.capacity (TokenBucket.step tb o now) = TokenBucket.capacity tb
  /\ TokenBucket.refillInterval (TokenBucket.step tb o now) =
     TokenBucket.refillInterval tb.
Proof.
  destruct o as [n|n|n|n|n]; simpl;
    unfold TokenBucket.TryConsume, TokenBucket.Consume, TokenBucket.Wait,
      TokenBucket.TimeUntilAvailable;
    repeat match goal with
           | |- context [if ?c then _ else _] => destruct c
           end; simpl; split; reflexivity.
Qed.

(** C9, as amended: a bucket created with [0 <= initialTokens <= capacity]
    and a capacity below [2^62] satisfies [0 <= remaining <= capacity] after
    every run of operations, at every clock reading -- [Consume]/[TryConsume]
    with an amount that is not negative, [Wait], [HasCapacity] and
    [TimeUntilAvailable]. *)
Theorem bucket_invariant_preserved (capacity initialTokens : Z)
    (interval : Duration) (created : Time)
    (ops : list (TokenBucket.op * Time)) :
  0 <= initialTokens <= capacity -> capacity < 2 ^ 62 ->
  Int64.in_range interval ->
  Forall (fun x => TokenBucket.nonNegative (fst x)) ops ->
  TokenBucket.inv
    (TokenBucket.run
       (TokenBucket.NewTokenBucket capacity initialTokens interval created) ops).
Proof.
  intros Hinit Hcap Hint Hops.
  set (tb := TokenBucket.NewTokenBucket capacity initialTokens interval created).
  assert (Hinv : TokenBucket.inv tb) by exact Hinit.
  assert (Hc : TokenBucket.capacity tb < 2 ^ 62) by exact Hcap.
  assert (Hi : Int64.in_range (TokenBucket.refillInterval tb)) by exact Hint.
  clearbody tb. revert tb Hinv Hc Hi.
  induction Hops as [|[o now] rest Ho _ IH]; intros tb Hinv Hc Hi; simpl.
  - exact Hinv.
  - destruct (step_frame tb o now) as [Ec Ei].
    apply IH.
    + apply step_inv; assumption.
    + rewrite Ec. exact Hc.
    + rewrite Ei. exact Hi.
Qed.

Lemma bucket_invariant_preserved_witness :
  let ops := [(TokenBucket.OpWait 1, 30 * Second);
              (TokenBucket.OpConsume 20, 31 * Second);
              (TokenBucket.OpTimeUntilAvailable 60, 45 * Second);
              (TokenBucket.OpTryConsume 60, 2 * Minute)] in
  TokenBucket.inv (TokenBucket.run (TokenBucket.NewTokenBucket 60 0 Minute 0) ops)
  /\ TokenBucket.remaining
       (TokenBucket.run (TokenBucket.NewTokenBucket 60 0 Minute 0) ops) = 0.
Proof.
  split; [|vm_compute; reflexivity].
  apply bucket_invariant_preserved.
  - lia.
  - reflexivity.
  - vm_compute. split; discriminate.
  - repeat constructor; simpl; lia.
Defined.

(** C9 as stated fails: on a full bucket of capacity [MaxInt64], [Wait]
    half an interval later adds the partial refill to [remaining], the sum
    wraps around and [remaining] is left negative. *)
Lemma Wait_breaks_invariant :
  let tb := TokenBucket.NewTokenBucket Int64.max_int Int64.max_int Minute 0 in
  TokenBucket.inv tb
  /\ TokenBucket.remaining (snd (TokenBucket.Wait tb 1 (30 * Second)))
       = -4611686018427387905
  /\ ~ TokenBucket.inv
        (TokenBucket.run tb [(TokenBucket.OpWait 1, 30 * Second)]).
Proof.
  split; [vm_compute; split; discriminate|].
  split; [vm_compute; reflexivity|].
  unfold TokenBucket.inv. intros [H _]. vm_compute in H. apply H. reflexivity.
Qed.

(** ** Estimating the wait *)

Lemma TimeUntilAvailable_reads_only (tb : TokenBucket.t) (n : Z) (now : Time) :
  snd (TokenBucket.TimeUntilAvailable tb n now) = tb.
Proof.
  unfold TokenBucket.TimeUntilAvailable. destruct (_ <=? _); reflexivity.
Qed.





(** ** Waiting for capacity *)

Lemma RateLimiter_TimeUntilAvailable_max rl n nowT nowR :
  RateLimiter.TimeUntilAvailable rl n nowT nowR =
  (Z.max (fst (TokenBucket.TimeUntilAvailable (RateLimiter.TokensBucket rl) n nowT))
         (fst (TokenBucket.TimeUntilAvailable (RateLimiter.RequestsBucket rl) 1 nowR)),
   rl).
Proof.
  unfold RateLimiter.TimeUntilAvailable.
  pose proof (TimeUntilAvailable_reads_only (RateLimiter.TokensBucket rl) n nowT)
    as HT.
  pose proof (TimeUntilAvailable_reads_only (RateLimiter.RequestsBucket rl) 1 nowR)
    as HR.
  destruct (TokenBucket.TimeUntilAvailable (RateLimiter.TokensBucket rl) n nowT)
    as [tw tb].
  destruct (TokenBucket.TimeUntilAvailable (RateLimiter.RequestsBucket rl) 1 nowR)
    as [rw rb].
  simpl in *. subst. destruct rl as [tb rb]. simpl.
  destruct (Z.ltb_spec rw tw); f_equal; lia.
Qed.

(** C6: [WaitAndConsume] computes the wait as the maximum of the two buckets'
    estimates.  With [maxWait > 0] and a wait above it, it returns the
    wait-exceeded error at once: no sleep, the limiter untouched.  With
    [maxWait = 0] a positive wait is slept in full; if the context is done
    first its error is returned and nothing is consumed; when the timer
    fires the consume is performed and the result is nil when it succeeds.
    A wait of zero goes to the consume directly. *)
Theorem WaitAndConsume_waits (rl : RateLimiter.t) (sel : Duration -> wake)
    (tokens : Z) (maxWait : Duration) (clk : Clock) :
  let wait :=
    Z.max
      (fst (TokenBucket.TimeUntilAvailable (RateLimiter.TokensBucket rl) tokens
              (atEstimateTokens clk)))
      (fst (TokenBucket.TimeUntilAvailable (RateLimiter.RequestsBucket rl) 1
              (atEstimateRequests clk))) in
  let consumed :=
    RateLimiter.TryConsume rl tokens (atConsumeTokens clk)
      (atConsumeRequests clk) in
  let verdict :=
    if fst consumed then None else Some RateLimiter.AcquireFailed in
  (0 < maxWait -> maxWait < wait ->
     RateLimiter.WaitAndConsume rl sel tokens maxWait clk =
       (Some (RateLimiter.WaitExceeded wait maxWait), rl, []))
  /\ (maxWait = 0 -> 0 < wait ->
       forall err, sel wait = CtxDone err ->
       RateLimiter.WaitAndConsume rl sel tokens maxWait clk =
         (Some (RateLimiter.ContextDone err), rl,
          [RateLimiter.Sleep wait (CtxDone err)]))
  /\ (maxWait = 0 -> 0 < wait -> sel wait = TimerFired ->
       RateLimiter.WaitAndConsume rl sel tokens maxWait clk =
         (verdict, snd consumed, [RateLimiter.Sleep wait TimerFired]))
  /\ (maxWait = 0 -> wait <= 0 ->
       RateLimiter.WaitAndConsume rl sel tokens maxWait clk =
         (verdict, snd consumed, [])).
Proof.
  intros wait consumed verdict.
  unfold RateLimiter.WaitAndConsume.
  rewrite RateLimiter_TimeUntilAvailable_max. fold wait.
  unfold RateLimiter.CanProceed. fold consumed.
  repeat split.
  - intros Hm Hw.
    destruct (Z.ltb_spec 0 wait); [|lia].
    destruct (Z.ltb_spec 0 maxWait); [|lia].
    destruct (Z.ltb_spec maxWait wait); [|lia]. reflexivity.
  - intros -> Hw err Hsel.
    destruct (Z.ltb_spec 0 wait); [|lia]. simpl. rewrite Hsel. reflexivity.
  - intros -> Hw Hsel.
    destruct (Z.ltb_spec 0 wait); [|lia]. simpl. rewrite Hsel.
    destruct consumed as [[] rl2]; reflexivity.
  - intros -> Hw.
    destruct (Z.ltb_spec 0 wait); [lia|].
    destruct consumed as [[] rl2]; reflexivity.
Qed.

Lemma WaitAndConsume_waits_witness :
  let rl := snd (RateLimiter.TryConsume (RateLimiter.New 60 60 0 0) 60 0 0) in
  let clk := mkClock (59500 * Millisecond) (59500 * Millisecond)
               (60600 * Millisecond) (60600 * Millisecond) in
  RateLimiter.WaitAndConsume rl (fun _ => TimerFired) 60 Second clk =
    (Some (RateLimiter.WaitExceeded 1099999998 Second), rl, [])
  /\ (exists rl',
        RateLimiter.WaitAndConsume rl (fun _ => TimerFired) 60 0 clk =
          (None, rl', [RateLimiter.Sleep 1099999998 TimerFired]))
  /\ RateLimiter.WaitAndConsume rl (fun _ => CtxDone Canceled) 60 0 clk =
       (Some (RateLimiter.ContextDone Canceled), rl,
        [RateLimiter.Sleep 1099999998 (CtxDone Canceled)]).
Proof.
  pose (rl := snd (RateLimiter.TryConsume (RateLimiter.New 60 60 0 0) 60 0 0)).
  pose (clk := mkClock (59500 * Millisecond) (59500 * Millisecond)
                 (60600 * Millisecond) (60600 * Millisecond)).
  split; [|split].
  - destruct (WaitAndConsume_waits rl (fun _ => TimerFired) 60 Second clk)
      as (H & _).
    etransitivity; [apply H; vm_compute; reflexivity|].
    vm_compute. reflexivity.
  - destruct (WaitAndConsume_waits rl (fun _ => TimerFired) 60 0 clk)
      as (_ & _ & H & _).
    eexists. etransitivity; [apply H; vm_compute; reflexivity|].
    vm_compute. reflexivity.
  - destruct (WaitAndConsume_waits rl (fun _ => CtxDone Canceled) 60 0 clk)
      as (_ & H & _).
    etransitivity;
      [apply (H eq_refl) with (err := Canceled); vm_compute; reflexivity|].
    vm_compute. reflexivity.
Defined.

(** ** The router *)

Section Router.
Context {W : Type}.

Lemma resolveModel_SetRateLimiter (m : Manager W) k l config :
  resolveModel (SetRateLimiter m k l) config = resolveModel m config.
Proof. reflexivity. Qed.

Lemma getGeneratorForConfig_SetRateLimiter (m : Manager W) k l config :
  getGeneratorForConfig (SetRateLimiter m k l) config =
  getGeneratorForConfig m config.
Proof. reflexivity. Qed.

(** What [resolveModel] returns, case by case. *)
Lemma resolveModel_cases (m : Manager W) (config : option GenerateConfig) :
  (config = None -> resolveModel m config = defaultModel m)
  /\ (forall c, config = Some c -> cfgModel c = "" ->
        resolveModel m config = defaultModel m)
  /\ (forall c, config = Some c -> cfgModel c = ModelDefault ->
        resolveModel m config = defaultModel m)
  /\ (forall c, config = Some c -> cfgModel c <> "" ->
        cfgModel c <> ModelDefault -> resolveModel m config = cfgModel c).
Proof.
  unfold resolveModel. repeat split.
  - intros ->. reflexivity.
  - intros c -> ->. reflexivity.
  - intros c -> ->. reflexivity.
  - intros c -> Hne Hnd.
    destruct (String.eqb_spec (cfgModel c) ""); [contradiction|]. simpl.
    destruct (String.eqb_spec (cfgModel c) ModelDefault); [contradiction|].
    reflexivity.
Qed.

End Router.

(** C3 fails on the code: with the router's default set to another model, a
    config that names the model of the package constant [ModelDefault]
    explicitly is resolved to the router's default, not to the model it
    names; a conversation's [Send] resolves the same config to the model it
    names. *)
Theorem resolveModel_replaces_explicit_default :
  let m := SetDefaultModel (@New unit) "other-model" in
  let config := Some (withModel DefaultConfig "nano-banana-2") in
  resolveModel m config = "other-model"
  /\ sendModel m StartConversation config = "nano-banana-2".
Proof.
  split; reflexivity.
Qed.

(** ** Rate-limited dispatch *)

(** On texts of up to 4000 runes the estimate computed in binary64 is the
    exact [ceil(3 * charCount / 10) + 3]. *)
Lemma estimateOfCount_exact (c : Z) :
  1 <= c <= 4000 ->
  estimateOfCount NewSimpleTokenEstimator c = (3 * c + 9) / 10 + 3.
Proof.
  intros H.
  assert (Hall : forallb
            (fun k => estimateOfCount NewSimpleTokenEstimator (Z.of_nat k)
                      =? (3 * Z.of_nat k + 9) / 10 + 3)
            (seq 1 4000) = true) by (vm_compute; reflexivity).
  rewrite forallb_forall in Hall.
  specialize (Hall (Z.to_nat c)).
  rewrite Z2Nat.id in Hall by lia.
  apply Z.eqb_eq, Hall, in_seq. lia.
Qed.

Section Dispatch.
Context {W : Type}.

Lemma RateLimiter_TryConsume_accepts rl n nowT nowR :
  RateLimiter.HasCapacity rl n nowT nowR = true ->
  fst (RateLimiter.TryConsume rl n nowT nowR) = true
  /\ TokenBucket.remaining
       (RateLimiter.TokensBucket (snd (RateLimiter.TryConsume rl n nowT nowR))) =
     Int64.sub (TokenBucket.available (RateLimiter.TokensBucket rl) nowT) n
  /\ TokenBucket.remaining
       (RateLimiter.RequestsBucket (snd (RateLimiter.TryConsume rl n nowT nowR))) =
     Int64.sub (TokenBucket.available (RateLimiter.RequestsBucket rl) nowR) 1.
Proof.
  unfold RateLimiter.HasCapacity. intros [HT HR]%andb_true_iff.
  unfold RateLimiter.TryConsume, TokenBucket.TryConsume.
  rewrite (Consume_accepts _ _ _ HT), (Consume_accepts _ _ _ HR).
  repeat split.
Qed.

(** C2: a [Generate] that does not wait on the rate limit, for a model whose
    limiter is set.  The estimate is 0 for the empty text and
    [ceil(charCount / 4 * 1.2) + 3] otherwise, and 100 tokens are added.  When
    that total exceeds what the limiter has available the call returns the
    rate-limit error of kind ["tokens"] for the resolved model, with the
    limiter's estimate as retry-after, and no backend is called; when the
    total is available the call proceeds and the limiter is left with the
    total deducted. *)
Theorem Generate_rate_limit (m : Manager W) (sel : Duration -> wake)
    (prompt : string) (config : option GenerateConfig) (clk : Clock) (w : W)
    (limiter : RateLimiter.t) :
  let cfg := match config with None => DefaultConfig | Some c => c end in
  let model := resolveModel m (Some cfg) in
  let estimate := EstimateTokens NewSimpleTokenEstimator prompt in
  let total := Int64.add estimate 100 in
  let consumed :=
    RateLimiter.TryConsume limiter total (atConsumeTokens clk)
      (atConsumeRequests clk) in
  let out := Generate m sel prompt config clk w in
  tokenEstimator m = EstimateTokens NewSimpleTokenEstimator ->
  rateLimiters m !! model = Some limiter ->
  WaitOnRateLimit cfg = false ->
  (prompt = "" -> estimate = 0)
  /\ (prompt <> "" ->
       estimate =
       Int64.add
         (F64.to_int
            (F64.ceil
               (F64.mul (F64.div (F64.of_int (Utf8.RuneCount prompt)) F64.c4)
                  F64.c1_2))) 3)
  /\ (RateLimiter.HasCapacity limiter total (atConsumeTokens clk)
         (atConsumeRequests clk) = false ->
       outResult out =
         Err (RateLimitError
                (fst (RateLimiter.TimeUntilAvailable (snd consumed) total
                        (atEstimateTokens clk) (atEstimateRequests clk)))
                "tokens" model)
       /\ outCalls out = [] /\ outWorld out = w /\ outSleeps out = [])
  /\ (RateLimiter.HasCapacity limiter total (atConsumeTokens clk)
         (atConsumeRequests clk) = true ->
       dispatched m prompt cfg w out
       /\ outSleeps out = []
       /\ rateLimiters (outManager out) !! model = Some (snd consumed)
       /\ TokenBucket.remaining (RateLimiter.TokensBucket (snd consumed)) =
           Int64.sub
             (TokenBucket.available (RateLimiter.TokensBucket limiter)
                (atConsumeTokens clk)) total
       /\ TokenBucket.remaining (RateLimiter.RequestsBucket (snd consumed)) =
           Int64.sub
             (TokenBucket.available (RateLimiter.RequestsBucket limiter)
                (atConsumeRequests clk)) 1).
Proof.
  intros cfg model estimate total consumed out Hest Hlim Hwait.
  split; [|split; [|split]].
  - intros ->. reflexivity.
  - intros Hne. subst estimate. unfold EstimateTokens.
    destruct (String.eqb_spec prompt ""); [contradiction|]. reflexivity.
  - intros Hcap.
    pose proof (RateLimiter_TryConsume_decides limiter total
                  (atConsumeTokens clk) (atConsumeRequests clk)) as Hdec.
    rewrite Hcap in Hdec. fold consumed in Hdec.
    subst out. unfold Generate. fold cfg. fold model.
    unfold checkRateLimit. rewrite Hlim, Hest, Hwait.
    fold estimate. unfold tokenBuffer. fold total. fold consumed.
    destruct consumed as [ok limiter1]. simpl in Hdec. subst ok. simpl.
    rewrite RateLimiter_TimeUntilAvailable_max. simpl.
    repeat split.
  - intros Hcap.
    destruct (RateLimiter_TryConsume_accepts limiter total
                (atConsumeTokens clk) (atConsumeRequests clk) Hcap)
      as (Hok & HremT & HremR).
    fold consumed in Hok, HremT, HremR.
    assert (Hout : out =
      match getGeneratorForConfig m (Some cfg) with
      | Err err => mkOutcome (Err err) (SetRateLimiter m model (snd consumed)) w [] []
      | Ok (p, gen, actualConfig) =>
          let '(r, w1) := genGenerate gen prompt actualConfig w in
          mkOutcome r (SetRateLimiter m model (snd consumed)) w1 []
            [CallGenerate p prompt actualConfig]
      end).
    { subst out. unfold Generate. fold cfg. fold model.
      unfold checkRateLimit. rewrite Hlim, Hest, Hwait.
      fold estimate. unfold tokenBuffer. fold total. fold consumed.
      destruct consumed as [ok limiter1]. simpl in Hok. subst ok. simpl.
      rewrite getGeneratorForConfig_SetRateLimiter. reflexivity. }
    split; [|split; [|split; [|split]]]; try assumption.
    + unfold dispatched. rewrite Hout.
      destruct (getGeneratorForConfig m (Some cfg)) as [[[p gen] actual]|e].
      * destruct (genGenerate gen prompt actual w) as [r w1]. repeat split.
      * repeat split.
    + rewrite Hout.
      destruct (getGeneratorForConfig m (Some cfg)) as [[[p gen] actual]|e];
        [destruct (genGenerate gen prompt actual w)|]; reflexivity.
    + rewrite Hout.
      destruct (getGeneratorForConfig m (Some cfg)) as [[[p gen] actual]|e];
        [destruct (genGenerate gen prompt actual w)|]; simpl;
        apply lookup_insert_eq.
Qed.

End Dispatch.

Lemma Generate_rate_limit_witness :
  let out :=
    Generate Fixtures.manager Fixtures.never "test prompt" Fixtures.testConfig
      Fixtures.atZero tt in
  let m2 :=
    SetRateLimiter Fixtures.manager "test-model" (RateLimiter.New 200 10 0 0) in
  let out2 :=
    Generate m2 Fixtures.never "test prompt" Fixtures.testConfig
      Fixtures.atZero tt in
  (exists retryAfter,
      outResult out = Err (RateLimitError retryAfter "tokens" "test-model"))
  /\ outCalls out = []
  /\ outResult out2 = Ok Fixtures.fakeResult
  /\ (exists limiter,
        rateLimiters (outManager out2) !! "test-model" = Some limiter
        /\ TokenBucket.remaining (RateLimiter.TokensBucket limiter) = 93).
Proof.
  pose (m2 := SetRateLimiter Fixtures.manager "test-model"
                (RateLimiter.New 200 10 0 0)).
  destruct (Generate_rate_limit Fixtures.manager Fixtures.never "test prompt"
              Fixtures.testConfig Fixtures.atZero tt (RateLimiter.New 100 10 0 0))
    as (_ & _ & Hrej & _);
    [reflexivity | vm_compute; reflexivity | reflexivity |].
  destruct (Hrej ltac:(vm_compute; reflexivity)) as (Hres & Hcalls & _).
  destruct (Generate_rate_limit m2 Fixtures.never "test prompt"
              Fixtures.testConfig Fixtures.atZero tt (RateLimiter.New 200 10 0 0))
    as (_ & _ & _ & Hacc);
    [reflexivity | vm_compute; reflexivity | reflexivity |].
  destruct (Hacc ltac:(vm_compute; reflexivity)) as (Hdis & _ & Hlim & Hrem & _).
  split; [eexists; exact Hres|]. split; [exact Hcalls|]. split.
  - unfold dispatched in Hdis.
    change (getGeneratorForConfig m2 Fixtures.testConfig) with
      (getGeneratorForConfig m2 (Some (mkGenerateConfig "test-model" "" "" 0
                                         false false None false 0))) in Hdis.
    vm_compute in Hdis. destruct Hdis as (H & _). exact H.
  - eexists. split; [exact Hlim|].
    etransitivity; [exact Hrem|]. vm_compute. reflexivity.
Defined.

(** ** Conversations on a backend without native sessions *)

Section Stateless.
Context {W : Type}.

Lemma Send_stateless (m : Manager W) (c : ManagedConversation W)
    (prompt : string) (images : list InputImage)
    (config : option GenerateConfig) (w : W) mapping gen :
  modelMappings m !! sendModel m c config = Some mapping ->
  providers m !! mapProvider mapping = Some gen ->
  genStartConversation gen = None ->
  unbound c (mapProvider mapping) ->
  let cfg := withModel (match config with Some cfg => cfg | None => DefaultConfig end)
               (ActualModelName mapping) in
  let s := Send m c prompt images config w in
  sentCalls s = [statelessCall (mapProvider mapping) prompt images cfg]
  /\ match sentResult s with
     | Ok res => history (sentConv s) = history c ++ exchange prompt images res
     | Err _ => history (sentConv s) = history c
     end
  /\ providerConv (sentConv s) = providerConv c
  /\ lockedModel (sentConv s) = lockedModel c
  /\ modelLocked (sentConv s) = modelLocked c.
Proof.
  intros Hmap Hprov Hnone Hunb cfg s. subst s. unfold Send.
  rewrite Hmap. fold cfg.
  assert (Hbound : match providerConv c with
                   | Some pc => if String.eqb (convProvider c) (mapProvider mapping)
                                then Some pc else None
                   | None => None
                   end = None).
  { unfold unbound in Hunb. destruct (providerConv c); [|reflexivity].
    destruct (String.eqb_spec (convProvider c) (mapProvider mapping));
      [contradiction|reflexivity]. }
  rewrite Hbound. unfold getProvider. rewrite Hprov, Hnone.
  unfold statelessCall.
  destruct (0 <? length images)%nat.
  - destruct (genEditMultiple gen images prompt cfg w) as [[res|e] w1]; simpl;
      repeat split. rewrite <- app_assoc. reflexivity.
  - destruct (genGenerate gen prompt cfg w) as [[res|e] w1]; simpl;
      repeat split. rewrite <- app_assoc. reflexivity.
Qed.

Lemma Send_unresolved (m : Manager W) (c : ManagedConversation W)
    prompt images config w :
  providerConv c = None ->
  resolvedBackend m c config = None ->
  let s := Send m c prompt images config w in
  succeeded s = false /\ sentConv s = c /\ sentCalls s = [].
Proof.
  intros Hnone Hres s. subst s. unfold resolvedBackend in Hres. unfold Send.
  destruct (modelMappings m !! sendModel m c config) as [mapping|];
    [|repeat split].
  rewrite Hnone. unfold getProvider. rewrite Hres. repeat split.
Qed.

Lemma resolvedBackend_locked (m : Manager W) (c c' : ManagedConversation W)
    config :
  lockedModel c' = lockedModel c -> modelLocked c' = modelLocked c ->
  resolvedBackend m c' config = resolvedBackend m c config.
Proof.
  unfold resolvedBackend, sendModel. intros -> ->. reflexivity.
Qed.

Lemma alternating_length k : length (alternating k) = (2 * k)%nat.
Proof. induction k; simpl; lia. Qed.

Lemma sendAll_stateless (m : Manager W) (reqs : list request) :
  forall (c : ManagedConversation W) (w : W),
  providerConv c = None ->
  allStateless m c reqs ->
  let '(ss, c', _) := sendAll m c reqs w in
  let k := length (List.filter succeeded ss) in
  map Role (history c') = map Role (history c) ++ alternating k
  /\ providerConv c' = None
  /\ Forall (fun s => succeeded s = true -> length (sentCalls s) = 1%nat) ss.
Proof.
  induction reqs as [|r rest IH]; intros c w Hnone Hall; simpl.
  - rewrite app_nil_r. split; [reflexivity|]. split; [assumption|constructor].
  - inversion Hall as [|r' rest' Hr Hrest]; subst.
    set (s := Send m c (reqPrompt r) (reqImages r) (reqConfig r) w).
    assert (Hstep :
      providerConv (sentConv s) = None
      /\ lockedModel (sentConv s) = lockedModel c
      /\ modelLocked (sentConv s) = modelLocked c
      /\ map Role (history (sentConv s)) =
           map Role (history c) ++ (if succeeded s then alternating 1 else [])
      /\ (succeeded s = true -> length (sentCalls s) = 1%nat)).
    { destruct (resolvedBackend m c (reqConfig r)) as [gen|] eqn:Hres.
      - unfold resolvedBackend in Hres.
        destruct (modelMappings m !! sendModel m c (reqConfig r))
          as [mapping|] eqn:Hmap; [|discriminate].
        assert (Hgen : genStartConversation gen = None).
        { apply Hr. reflexivity. }
        assert (Hunb : unbound c (mapProvider mapping))
          by (unfold unbound; rewrite Hnone; exact I).
        destruct (Send_stateless m c (reqPrompt r) (reqImages r) (reqConfig r)
                    w mapping gen Hmap Hres Hgen Hunb)
          as (Hcalls & Hhist & Hpc & Hlm & Hml).
        fold s in Hcalls, Hhist, Hpc, Hlm, Hml.
        repeat split; try congruence.
        + unfold succeeded. destruct (sentResult s) as [res|e].
          * rewrite Hhist, map_app. reflexivity.
          * rewrite Hhist, app_nil_r. reflexivity.
        + intros _. rewrite Hcalls. reflexivity.
      - destruct (Send_unresolved m c (reqPrompt r) (reqImages r) (reqConfig r)
                    w Hnone Hres) as (Hfail & Hconv & Hcalls).
        fold s in Hfail, Hconv, Hcalls.
        rewrite Hconv, Hfail, app_nil_r. repeat split; try assumption.
        discriminate. }
    destruct Hstep as (Hpc & Hlm & Hml & Hroles & Hone).
    assert (Hall' : allStateless m (sentConv s) rest).
    { unfold allStateless in *. eapply Forall_impl; [exact Hrest|].
      intros r0 H0 gen Hg. apply H0.
      rewrite <- Hg. symmetry. apply resolvedBackend_locked; assumption. }
    specialize (IH (sentConv s) (sentWorld s) Hpc Hall').
    destruct (sendAll m (sentConv s) rest (sentWorld s)) as [[ss c'] w'].
    destruct IH as (IHroles & IHpc & IHcalls).
    simpl. split; [|split; [assumption|constructor; assumption]].
    rewrite IHroles, Hroles, <- app_assoc. f_equal.
    destruct (succeeded s); reflexivity.
Qed.

End Stateless.

(** C7, as amended: when the backend a [Send] resolves to has no native
    sessions (and no session of the conversation is bound to it), the [Send]
    makes exactly one stateless backend call -- [EditMultiple] with all the
    input images if there are any, else [Generate] -- and a successful one
    appends exactly two entries to the history, the user turn then the model
    turn.  Hence a new conversation all of whose sends resolve to such
    backends has, after [k] successful sends, exactly [2k] entries, in
    alternating user/model order. *)
Theorem stateless_conversation {W : Type} (m : Manager W) :
  (forall (c : ManagedConversation W) prompt images config w mapping gen,
      modelMappings m !! sendModel m c config = Some mapping ->
      providers m !! mapProvider mapping = Some gen ->
      genStartConversation gen = None ->
      unbound c (mapProvider mapping) ->
      let cfg :=
        withModel (match config with Some cfg => cfg | None => DefaultConfig end)
          (ActualModelName mapping) in
      let s := Send m c prompt images config w in
      sentCalls s = [statelessCall (mapProvider mapping) prompt images cfg]
      /\ (forall res, sentResult s = Ok res ->
           history (sentConv s) = history c ++ exchange prompt images res))
  /\ (forall (reqs : list request) (w : W),
        allStateless m StartConversation reqs ->
        let '(ss, c', _) := sendAll m StartConversation reqs w in
        let k := length (List.filter succeeded ss) in
        length (history c') = (2 * k)%nat
        /\ map Role (history c') = alternating k).
Proof.
  split.
  - intros c prompt images config w mapping gen Hmap Hprov Hnone Hunb cfg s.
    destruct (Send_stateless m c prompt images config w mapping gen
                Hmap Hprov Hnone Hunb) as (Hcalls & Hhist & _).
    fold s in Hcalls, Hhist. split; [exact Hcalls|].
    intros res Hres. rewrite Hres in Hhist. exact Hhist.
  - intros reqs w Hall.
    pose proof (sendAll_stateless m reqs StartConversation w eq_refl Hall) as H.
    destruct (sendAll m StartConversation reqs w) as [[ss c'] w'].
    destruct H as (Hroles & _ & _). simpl in Hroles.
    split; [|exact Hroles].
    rewrite <- (length_map Role), Hroles. apply alternating_length.
Qed.

Lemma stateless_conversation_witness :
  let reqs :=
    [mkRequest "a red kite" [] Fixtures.testConfig;
     mkRequest "make it blue" [Fixtures.inputImage] Fixtures.testConfig] in
  let '(ss, c', _) :=
    sendAll Fixtures.manager StartConversation reqs tt in
  map succeeded ss = [true; true]
  /\ length (history c') = 4%nat
  /\ map Role (history c') = ["user"; "model"; "user"; "model"].
Proof.
  pose (reqs :=
    [mkRequest "a red kite" [] Fixtures.testConfig;
     mkRequest "make it blue" [Fixtures.inputImage] Fixtures.testConfig]).
  destruct (stateless_conversation Fixtures.manager) as [_ Hrun].
  specialize (Hrun reqs tt).
  assert (Hall : allStateless Fixtures.manager StartConversation reqs).
  { repeat constructor; intros gen Hgen; vm_compute in Hgen;
      injection Hgen as <-; reflexivity. }
  specialize (Hrun Hall).
  assert (Hss : map succeeded
                  (fst (fst (sendAll Fixtures.manager StartConversation reqs tt)))
                = [true; true]) by (vm_compute; reflexivity).
  change (let '(ss, c', _) := sendAll Fixtures.manager StartConversation reqs tt in
          map succeeded ss = [true; true]
          /\ length (history c') = 4%nat
          /\ map Role (history c') = ["user"; "model"; "user"; "model"]).
  destruct (sendAll Fixtures.manager StartConversation reqs tt) as [[ss c'] w'].
  simpl in Hss. split; [exact Hss|].
  assert (Hk : length (List.filter succeeded ss) = 2%nat).
  { clear Hrun. destruct ss as [|s1 [|s2 [|s3 ss]]]; try discriminate.
    simpl in Hss. injection Hss as H1 H2. simpl. rewrite H1, H2. reflexivity. }
  rewrite Hk in Hrun. exact Hrun.
Defined.

(** C7 as stated fails: with an input image, the stateless call is
    [EditMultiple]; the backend's [Edit] is not called. *)
Lemma stateless_send_calls_EditMultiple :
  let s :=
    Send Fixtures.manager StartConversation "make it blue"
      [Fixtures.inputImage] Fixtures.testConfig tt in
  genStartConversation Fixtures.mockGen = None
  /\ succeeded s = true
  /\ sentCalls s =
       [CallEditMultiple "test-provider" [Fixtures.inputImage] "make it blue"
          (mkGenerateConfig "test-model-api" "" "" 0 false false None false 0)]
  /\ (forall image instruction cfg,
        ~ In (CallEdit "test-provider" image instruction cfg) (sentCalls s)).
Proof.
  split; [reflexivity|]. split; [vm_compute; reflexivity|].
  assert (H : sentCalls
                (Send Fixtures.manager StartConversation "make it blue"
                   [Fixtures.inputImage] Fixtures.testConfig tt) =
              [CallEditMultiple "test-provider" [Fixtures.inputImage]
                 "make it blue"
                 (mkGenerateConfig "test-model-api" "" "" 0 false false None
                    false 0)]) by (vm_compute; reflexivity).
  split; [exact H|].
  intros image instruction cfg Hin. simpl in Hin. rewrite H in Hin.
  destruct Hin as [Hin|[]]. discriminate.
Qed.

(** ** The copy [History] returns *)

Section HistoryCopy.
Import Mem.

Lemma view_app_l {A : Type} (arrays extra : list (list A)) (s : slice) :
  (ptr s < length arrays)%nat -> view (arrays ++ extra) s = view arrays s.
Proof.
  intros H. unfold view. rewrite lookup_app_l by assumption. reflexivity.
Qed.

Lemma view_insert_ne {A : Type} (arrays : list (list A)) (s : slice) k x :
  k <> ptr s -> view (<[k := x]> arrays) s = view arrays s.
Proof.
  intros H. unfold view. rewrite list_lookup_insert_ne by assumption.
  reflexivity.
Qed.

Lemma readTurn_frame (h h' : heap) (c : TurnCell) :
  byteArrays h' = byteArrays h -> imageArrays h' = imageArrays h ->
  readTurn h' c = readTurn h c.
Proof.
  intros Hb Hi. unfold readTurn, readImage. rewrite Hb, Hi. reflexivity.
Qed.

Lemma readHistory_frame (h h' : heap) (s s' : slice) :
  byteArrays h' = byteArrays h -> imageArrays h' = imageArrays h ->
  view (turnArrays h') s' = view (turnArrays h) s ->
  readHistory h' s' = readHistory h s.
Proof.
  intros Hb Hi Hv. unfold readHistory. rewrite Hv.
  apply map_ext. intros c. apply readTurn_frame; assumption.
Qed.

(** [History] leaves the history it copies as it is, and returns a slice
    on a new array that reads the same. *)
Lemma History_reads_same (h : heap) (c_history : slice) :
  (ptr c_history < length (turnArrays h))%nat ->
  let '(r, h1) := History h c_history in
  ptr r = length (turnArrays h)
  /\ readHistory h1 c_history = readHistory h c_history
  /\ readHistory h1 r = readHistory h c_history.
Proof.
  intros Hptr. unfold History, makeTurns, copyTurns. simpl.
  rewrite Nat.min_id.
  split; [reflexivity|]. split.
  - apply readHistory_frame; try reflexivity. simpl.
    rewrite view_insert_ne by lia. apply view_app_l. assumption.
  - apply readHistory_frame; try reflexivity. simpl.
    rewrite view_app_l by assumption.
    set (src := view (turnArrays h) c_history).
    assert (Hl : (length src <= len c_history)%nat).
    { subst src. unfold view. rewrite length_take. lia. }
    unfold view at 1. simpl.
    rewrite list_lookup_insert_eq by (rewrite length_app; simpl; lia).
    simpl. rewrite lookup_app_r by lia. rewrite Nat.sub_diag. simpl.
    rewrite drop_replicate, Nat.sub_diag. simpl. rewrite app_nil_r.
    rewrite take_take, Nat.min_id.
    subst src. unfold view. rewrite take_take, Nat.min_id. reflexivity.
Qed.

(** Writing a turn of the returned slice does not reach the history. *)
Lemma History_isolates_turns (h : heap) (c_history : slice) i t :
  (ptr c_history < length (turnArrays h))%nat ->
  let '(r, h1) := History h c_history in
  readHistory (apply h1 r (SetTurn i t)) c_history = readHistory h c_history.
Proof.
  intros Hptr. unfold History, makeTurns, copyTurns. simpl.
  apply readHistory_frame; try reflexivity. simpl. unfold store. simpl.
  destruct (i <? len c_history)%nat; simpl.
  - rewrite !view_insert_ne by lia. apply view_app_l. assumption.
  - rewrite view_insert_ne by lia. apply view_app_l. assumption.
Qed.

End HistoryCopy.

(** C8 fails on the code: [History] copies the turns but not what their
    image slices point to.  On a conversation whose model turn holds an
    image, a byte written through the returned history, or an image replaced
    through it, changes the conversation's own history. *)
Theorem History_copy_is_shallow :
  let r := fst (Mem.History Fixtures.heap1 Fixtures.history1) in
  let h1 := snd (Mem.History Fixtures.heap1 Fixtures.history1) in
  let internal := Mem.readHistory h1 Fixtures.history1 in
  Mem.ptr r <> Mem.ptr Fixtures.history1
  /\ internal = Mem.readHistory Fixtures.heap1 Fixtures.history1
  /\ Mem.readHistory h1 r = internal
  /\ Mem.readHistory (Mem.apply h1 r (Mem.SetByte 1 0 0 255)) Fixtures.history1
       <> internal
  /\ Mem.readHistory
       (Mem.apply h1 r
          (Mem.SetImage 1 0 (Mem.mkImageCell (Mem.mkSlice 0 0) "" 0 "")))
       Fixtures.history1
       <> internal.
Proof.
  vm_compute. repeat split; discriminate.
Qed.

(** ** Checks against the package's tests *)

(** The prompt of [TestManager_Generate_RateLimit]: 11 runes, 7 tokens. *)
Example EstimateTokens_test_prompt :
  EstimateTokens NewSimpleTokenEstimator "test prompt" = 7.
Proof. vm_compute. reflexivity. Qed.

(** [TestRateLimiter_Wait]: one token at one token per second, plus 10%. *)
Example Wait_one_token :
  let rl := snd (RateLimiter.TryConsume (RateLimiter.New 60 60 0 0) 60 0 0) in
  fst (RateLimiter.Wait rl 1 0) = 1099999998.
Proof. vm_compute. reflexivity. Qed.

(** [TestTokenBucket]: 5 of 10 are consumed, 6 more are refused; an empty
    bucket refuses until its 10 ms interval has passed. *)
Example TestTokenBucket :
  let bucket := TokenBucket.NewTokenBucket 10 10 Minute 0 in
  let '(ok1, bucket1) := TokenBucket.TryConsume bucket 5 0 in
  let '(ok2, _) := TokenBucket.TryConsume bucket1 6 0 in
  let fastBucket := TokenBucket.NewTokenBucket 10 0 (10 * Millisecond) 0 in
  let '(ok3, fastBucket1) := TokenBucket.TryConsume fastBucket 1 0 in
  let '(ok4, _) := TokenBucket.TryConsume fastBucket1 1 (20 * Millisecond) in
  (ok1, TokenBucket.remaining bucket1, ok2, ok3, ok4)
  = (true, 5, false, false, true).
Proof. vm_compute. reflexivity. Qed.

(** [TestRateLimiter_TryConsume]: tokens run out, then requests run out. *)
Example TestRateLimiter_TryConsume :
  let smallTokenRL := RateLimiter.New 10 100 0 0 in
  let '(ok1, smallTokenRL1) := RateLimiter.TryConsume smallTokenRL 10 0 0 in
  let '(ok2, _) := RateLimiter.TryConsume smallTokenRL1 1 0 0 in
  let smallReqRL := RateLimiter.New 100 1 0 0 in
  let '(ok3, smallReqRL1) := RateLimiter.TryConsume smallReqRL 1 0 0 in
  let '(ok4, _) := RateLimiter.TryConsume smallReqRL1 1 0 0 in
  (ok1, ok2, ok3, ok4) = (true, false, true, false).
Proof. vm_compute. reflexivity. Qed.

(* ===================================================================== *)
(** * Further properties of the limiter *)

(** ** What a window grants *)

Section Window.
Import TokenBucket.

Lemma Consume_in_window tb n now :
  0 <= remaining tb <= Int64.max_int -> 0 <= n ->
  Sub now (lastRefill tb) < refillInterval tb ->
  remaining (snd (Consume tb n now)) =
    remaining tb - (if fst (Consume tb n now) then n else 0)
  /\ 0 <= remaining (snd (Consume tb n now)) <= Int64.max_int
  /\ lastRefill (snd (Consume tb n now)) = lastRefill tb
  /\ refillInterval (snd (Consume tb n now)) = refillInterval tb.
Proof.
  intros Hr Hn Hdue. unfold Consume.
  destruct (Z.leb_spec (refillInterval tb) (Sub now (lastRefill tb))); [lia|].
  destruct (Z.leb_spec n (remaining tb)); simpl.
  - unfold Int64.sub. rewrite wrap_in_range
      by (unfold Int64.in_range, Int64.min_int, Int64.max_int in *; lia).
    repeat split; lia.
  - repeat split; lia.
Qed.

Lemma TryConsume_in_window rl n nowT nowR :
  0 <= remaining (RateLimiter.TokensBucket rl) <= Int64.max_int ->
  0 <= remaining (RateLimiter.RequestsBucket rl) <= Int64.max_int ->
  inWindow rl (n, nowT, nowR) ->
  let ok := fst (RateLimiter.TryConsume rl n nowT nowR) in
  let rl' := snd (RateLimiter.TryConsume rl n nowT nowR) in
  (if ok then n else 0) <=
    remaining (RateLimiter.TokensBucket rl)
    - remaining (RateLimiter.TokensBucket rl')
  /\ (if ok then 1 else 0) =
    remaining (RateLimiter.RequestsBucket rl)
    - remaining (RateLimiter.RequestsBucket rl')
  /\ 0 <= remaining (RateLimiter.TokensBucket rl') <= Int64.max_int
  /\ 0 <= remaining (RateLimiter.RequestsBucket rl') <= Int64.max_int
  /\ (forall c, inWindow rl c -> inWindow rl' c).
Proof.
  intros HT HR (Hn & HdT & HdR) ok rl'. subst ok rl'.
  unfold RateLimiter.TryConsume, TryConsume.
  destruct (Consume_in_window _ n nowT HT Hn HdT) as (HT1 & HT2 & HT3 & HT4).
  destruct (Consume_in_window _ 1 nowR HR ltac:(lia) HdR)
    as (HR1 & HR2 & HR3 & HR4).
  destruct (Consume (RateLimiter.TokensBucket rl) n nowT) as [okT tb].
  destruct (Consume (RateLimiter.RequestsBucket rl) 1 nowR) as [okR rb].
  simpl in *.
  destruct okT; simpl.
  - destruct okR; simpl; (split; [lia|]); (split; [lia|]);
      (split; [lia|]); (split; [lia|]);
      intros [[m tT] tR]; unfold inWindow; simpl;
      rewrite HT3, HT4, HR3, HR4; tauto.
  - (split; [lia|]); (split; [lia|]); (split; [lia|]); (split; [lia|]).
    intros [[m tT] tR]; unfold inWindow; simpl. rewrite HT3, HT4. tauto.
Qed.

Lemma tryAll_in_window (calls : list (Z * Time * Time)) :
  forall rl,
  0 <= remaining (RateLimiter.TokensBucket rl) <= Int64.max_int ->
  0 <= remaining (RateLimiter.RequestsBucket rl) <= Int64.max_int ->
  Forall (inWindow rl) calls ->
  let oks := fst (RateLimiter.tryAll rl calls) in
  let rl' := snd (RateLimiter.tryAll rl calls) in
  granted (map (fun c => fst (fst c)) calls) oks <=
    remaining (RateLimiter.TokensBucket rl)
    - remaining (RateLimiter.TokensBucket rl')
  /\ accepted oks =
    remaining (RateLimiter.RequestsBucket rl)
    - remaining (RateLimiter.RequestsBucket rl')
  /\ 0 <= remaining (RateLimiter.TokensBucket rl')
  /\ 0 <= remaining (RateLimiter.RequestsBucket rl').
Proof.
  induction calls as [|[[n tT] tR] rest IH]; intros rl HT HR Hall; simpl.
  - unfold accepted. simpl. lia.
  - inversion Hall as [|c rest' Hc Hrest]; subst.
    destruct (TryConsume_in_window rl n tT tR HT HR Hc)
      as (Hg & Ha & HT' & HR' & Hwin).
    destruct (RateLimiter.TryConsume rl n tT tR) as [ok rl1]. simpl in *.
    assert (Hrest' : Forall (inWindow rl1) rest)
      by (eapply Forall_impl; [exact Hrest|exact Hwin]).
    specialize (IH rl1 HT' HR' Hrest').
    destruct (RateLimiter.tryAll rl1 rest) as [oks rl2]. simpl in *.
    destruct IH as (IHg & IHa & IHT & IHR).
    unfold accepted in *. simpl.
    destruct ok; simpl; repeat split; lia.
Qed.

End Window.

(** X1: between two refills a limiter grants no more than it holds: over any
    run of [TryConsume] calls with non-negative amounts, made while neither
    bucket is due for its refill, the amounts of the accepted calls add up
    to at most the token bucket's remaining, and the number of accepted calls
    is at most the request bucket's remaining. *)
Theorem window_grants_bounded (rl : RateLimiter.t)
    (calls : list (Z * Time * Time)) :
  0 <= TokenBucket.remaining (RateLimiter.TokensBucket rl) <= Int64.max_int ->
  0 <= TokenBucket.remaining (RateLimiter.RequestsBucket rl) <= Int64.max_int ->
  Forall (inWindow rl) calls ->
  let oks := fst (RateLimiter.tryAll rl calls) in
  granted (map (fun c => fst (fst c)) calls) oks <=
    TokenBucket.remaining (RateLimiter.TokensBucket rl)
  /\ accepted oks <= TokenBucket.remaining (RateLimiter.RequestsBucket rl).
Proof.
  intros HT HR Hall oks. subst oks.
  destruct (tryAll_in_window calls rl HT HR Hall) as (Hg & Ha & HT' & HR').
  split; lia.
Qed.

Lemma window_grants_bounded_witness :
  let rl := RateLimiter.NewLimiter (RateLimiter.mkConfig "m" 100 2 0 0) 0 0 in
  let calls := [(60, Second, Second); (60, 2 * Second, 2 * Second);
                (30, 3 * Second, 3 * Second); (5, 4 * Second, 4 * Second)] in
  let oks := fst (RateLimiter.tryAll rl calls) in
  oks = [true; false; true; false]
  /\ granted (map (fun c => fst (fst c)) calls) oks <= 100
  /\ accepted oks <= 2.
Proof.
  split; [vm_compute; reflexivity|].
  apply (window_grants_bounded
           (RateLimiter.NewLimiter (RateLimiter.mkConfig "m" 100 2 0 0) 0 0)).
  - vm_compute. split; discriminate.
  - vm_compute. split; discriminate.
  - repeat constructor; vm_compute; try discriminate; reflexivity.
Defined.

(** ** [Wait] and the estimate *)

Section Waiting.
Import TokenBucket.

Lemma Sub_same (now : Time) : Sub now now = 0.
Proof. unfold Sub. rewrite Z.sub_diag. reflexivity. Qed.

(** The bucket [Wait] leaves, whatever the amount asked for. *)
Lemma Wait_state tb n now :
  snd (Wait tb n now) =
    if refillInterval tb <=? Sub now (lastRefill tb)
    then mk (capacity tb) (capacity tb) (refillInterval tb) now
    else if 0 <? Sub now (lastRefill tb)
    then mk (capacity tb) (effectiveRemaining tb now) (refillInterval tb) now
    else tb.
Proof.
  unfold Wait, effectiveRemaining.
  destruct (refillInterval tb <=? Sub now (lastRefill tb));
    [|destruct (0 <? Sub now (lastRefill tb))];
    simpl; match goal with |- context [?a <=? ?b] => destruct (a <=? b) end;
    reflexivity.
Qed.

Lemma Wait_remaining tb n now :
  remaining (snd (Wait tb n now)) = effectiveRemaining tb now.
Proof.
  rewrite Wait_state. unfold effectiveRemaining.
  destruct (refillInterval tb <=? Sub now (lastRefill tb));
    [|destruct (0 <? Sub now (lastRefill tb))]; reflexivity.
Qed.

Lemma Wait_duration tb n now :
  fst (Wait tb n now) =
    if n <=? effectiveRemaining tb now then 0
    else bufferedWait tb (Int64.sub n (effectiveRemaining tb now)).
Proof.
  unfold Wait, effectiveRemaining, bufferedWait.
  destruct (refillInterval tb <=? Sub now (lastRefill tb));
    [|destruct (0 <? Sub now (lastRefill tb))];
    simpl; match goal with |- context [?a <=? ?b] => destruct (a <=? b) end;
    reflexivity.
Qed.

End Waiting.

(** X2: [Wait] and [TimeUntilAvailable] report the same duration at the same
    reading; they differ in that [Wait] writes the refill it counted into
    the bucket: remaining becomes the effective remaining and [lastRefill]
    moves to now as soon as any time has passed; capacity and interval are
    never changed. *)
Theorem Wait_commits_estimate (tb : TokenBucket.t) (n : Z) (now : Time) :
  let tb' := snd (TokenBucket.Wait tb n now) in
  fst (TokenBucket.Wait tb n now) = fst (TokenBucket.TimeUntilAvailable tb n now)
  /\ TokenBucket.remaining tb' = TokenBucket.effectiveRemaining tb now
  /\ TokenBucket.capacity tb' = TokenBucket.capacity tb
  /\ TokenBucket.refillInterval tb' = TokenBucket.refillInterval tb
  /\ (0 < Sub now (TokenBucket.lastRefill tb) ->
      TokenBucket.lastRefill tb' = now)
  /\ (Sub now (TokenBucket.lastRefill tb) <= 0 ->
      Sub now (TokenBucket.lastRefill tb) < TokenBucket.refillInterval tb ->
      tb' = tb).
Proof.
  intros tb'. subst tb'.
  split; [|split; [apply Wait_remaining|]].
  - rewrite Wait_duration. unfold TokenBucket.TimeUntilAvailable.
    destruct (n <=? TokenBucket.effectiveRemaining tb now); reflexivity.
  - rewrite Wait_state.
    destruct (Z.leb_spec (TokenBucket.refillInterval tb)
                (Sub now (TokenBucket.lastRefill tb)));
      [|destruct (Z.ltb_spec 0 (Sub now (TokenBucket.lastRefill tb)))];
      simpl; repeat split; intros; try reflexivity; lia.
Qed.

(** X3: a second [Wait] at the same reading counts no refill twice: it
    leaves the bucket as the first one left it and reports what a first
    [Wait] for its amount would have reported. *)
Theorem Wait_twice_same_reading (tb : TokenBucket.t) (n m : Z) (now : Time) :
  TokenBucket.Wait (snd (TokenBucket.Wait tb n now)) m now =
  TokenBucket.Wait tb m now.
Proof.
  assert (Hst : forall k, snd (TokenBucket.Wait (snd (TokenBucket.Wait tb n now)) k now)
                          = snd (TokenBucket.Wait tb n now)).
  { intros k. rewrite (Wait_state (snd (TokenBucket.Wait tb n now))).
    rewrite (Wait_state tb n now).
    destruct (Z.leb_spec (TokenBucket.refillInterval tb)
                (Sub now (TokenBucket.lastRefill tb)));
      [|destruct (Z.ltb_spec 0 (Sub now (TokenBucket.lastRefill tb)))];
      cbn [TokenBucket.refillInterval TokenBucket.lastRefill
           TokenBucket.capacity TokenBucket.remaining];
      rewrite ?Sub_same.
    - destruct (Z.leb_spec (TokenBucket.refillInterval tb) 0); reflexivity.
    - destruct (Z.leb_spec (TokenBucket.refillInterval tb) 0); [lia|].
      reflexivity.
    - destruct (Z.leb_spec (TokenBucket.refillInterval tb)
                  (Sub now (TokenBucket.lastRefill tb))); [lia|].
      destruct (Z.ltb_spec 0 (Sub now (TokenBucket.lastRefill tb))); [lia|].
      reflexivity. }
  assert (Hsame : snd (TokenBucket.Wait tb n now) = snd (TokenBucket.Wait tb m now))
    by (rewrite !Wait_state; reflexivity).
  apply injective_projections.
  - rewrite (Wait_duration _ m now), (Wait_duration tb m now).
    rewrite <- !Wait_remaining with (n := m).
    rewrite Hst, <- Hsame.
    unfold TokenBucket.bufferedWait.
    rewrite !Wait_state.
    destruct (TokenBucket.refillInterval tb <=? Sub now (TokenBucket.lastRefill tb));
      [|destruct (0 <? Sub now (TokenBucket.lastRefill tb))]; reflexivity.
  - rewrite Hst. exact Hsame.
Qed.

(** ** Polling [Wait] *)

Section Polling.

(** Truncation of a number below 1. *)
Lemma to_int_lt_one (x : F64.t) (k : Z) :
  k < 0 -> F64.le_pow2 x k -> F64.to_int x = 0.
Proof.
  intros Hk Hle. unfold F64.to_int, F64.trunc.
  destruct x as [[]|[]| |[] m e]; cbn [F64.le_pow2] in Hle; try tauto;
    try reflexivity.
  assert (Hv : match e with
               | Z.neg p => Z.pos m / 2 ^ Z.pos p
               | _ => Z.pos m * 2 ^ e
               end = 0).
  { destruct e as [|p|p].
    - rewrite Z.pow_neg_r in Hle by lia. lia.
    - rewrite Z.pow_neg_r in Hle by lia. lia.
    - apply Z.div_small. split; [lia|].
      destruct (Z_lt_le_dec (k - Z.neg p) 0) as [Hneg|Hpos].
      + rewrite Z.pow_neg_r in Hle by lia. lia.
      + assert (2 ^ (k - Z.neg p) < 2 ^ Z.pos p)
          by (apply Z.pow_lt_mono_r; lia).
        lia. }
  rewrite Hv. reflexivity.
Qed.

(** The share of a partial refill is nothing when the elapsed time is
    short: at most [2^a] ns, for a capacity of at most [2^b] and an interval
    of at least [2^g] ns with [a + b < g]. *)
Lemma replenished_nothing (c e i a b g : Z) :
  1 <= c <= 2 ^ b -> 0 < e <= 2 ^ a -> 2 ^ g <= i -> i < 2 ^ 63 ->
  0 <= a -> 0 <= b -> a + b < g -> g <= 62 ->
  F64.to_int (F64.mul (F64.of_int c) (F64.div (F64.of_int e) (F64.of_int i)))
  = 0.
Proof.
  intros Hc He Hi Hi63 Ha Hb Hab Hg.
  assert (Ha63 : 2 ^ a < 2 ^ 63) by (apply Z.pow_lt_mono_r; lia).
  assert (Hb63 : 2 ^ b < 2 ^ 63) by (apply Z.pow_lt_mono_r; lia).
  assert (Hg0 : 0 < 2 ^ g) by (apply Z.pow_pos_nonneg; lia).
  destruct (of_int_pow2 e a ltac:(lia) ltac:(lia)) as [Hea _].
  specialize (Hea ltac:(lia)).
  destruct (of_int_pow2 i g ltac:(lia) ltac:(lia)) as [_ Hig].
  specialize (Hig Hi).
  destruct (of_int_pow2 c b ltac:(lia) ltac:(lia)) as [Hcb _].
  specialize (Hcb ltac:(lia)).
  assert (Hq : F64.le_pow2 (F64.div (F64.of_int e) (F64.of_int i)) (a - g)).
  { destruct (F64.of_int e) as [[]|[]| |[] me ee];
      cbn [F64.le_pow2] in Hea; try tauto;
      destruct (F64.of_int i) as [[]|[]| |[] mi ei];
      cbn [F64.ge_pow2] in Hig; try tauto; try exact I.
    apply div_le_pow2; [exact Hea|exact Hig|lia]. }
  apply (to_int_lt_one _ (b + (a - g))); [lia|].
  apply mul_le_pow2; [exact Hcb|exact Hq|lia].
Qed.

End Polling.

Section Starvation.
Import TokenBucket.

Lemma Wait_short_elapse tb n now a b g :
  inv tb -> 1 <= capacity tb <= 2 ^ b ->
  2 ^ g <= refillInterval tb -> Int64.in_range (refillInterval tb) ->
  0 < Sub now (lastRefill tb) <= 2 ^ a ->
  0 <= a -> 0 <= b -> a + b < g -> g <= 62 ->
  snd (Wait tb n now) =
    mk (capacity tb) (remaining tb) (refillInterval tb) now.
Proof.
  intros [Hr0 Hrc] Hc Hi Hir He Ha Hb Hab Hg.
  assert (Hag : 2 ^ a < 2 ^ g) by (apply Z.pow_lt_mono_r; lia).
  assert (Hb62 : 2 ^ b < 2 ^ 62) by (apply Z.pow_lt_mono_r; lia).
  rewrite Wait_state.
  destruct (Z.leb_spec (refillInterval tb) (Sub now (lastRefill tb))); [lia|].
  destruct (Z.ltb_spec 0 (Sub now (lastRefill tb))); [|lia].
  f_equal. unfold effectiveRemaining.
  destruct (Z.leb_spec (refillInterval tb) (Sub now (lastRefill tb))); [lia|].
  destruct (Z.ltb_spec 0 (Sub now (lastRefill tb))); [|lia].
  unfold replenishedTokens.
  rewrite (replenished_nothing (capacity tb) (Sub now (lastRefill tb))
             (refillInterval tb) a b g); try lia.
  - unfold Int64.add. rewrite Z.add_0_r, wrap_in_range; [lia|].
    unfold Int64.in_range, Int64.min_int, Int64.max_int. lia.
  - unfold Int64.in_range, Int64.max_int in Hir. lia.
Qed.

Lemma last_cons_default {A : Type} (l : list A) :
  forall a d, List.last (a :: l) d = List.last l a.
Proof.
  induction l as [|x l IH]; intros a d; [reflexivity|].
  change (List.last (a :: x :: l) d) with (List.last (x :: l) d).
  rewrite (IH x d), (IH x a). reflexivity.
Qed.

Lemma polls_run (readings : list Time) :
  forall tb n d a b g,
  inv tb -> 1 <= capacity tb <= 2 ^ b ->
  2 ^ g <= refillInterval tb -> Int64.in_range (refillInterval tb) ->
  d <= 2 ^ a -> 0 <= a -> 0 <= b -> a + b < g -> g <= 62 ->
  paced d (lastRefill tb) readings ->
  run tb (polls n readings) =
    mk (capacity tb) (remaining tb) (refillInterval tb)
       (List.last readings (lastRefill tb)).
Proof.
  induction readings as [|now rest IH];
    intros tb n d a b g Hinv Hc Hi Hir Hd Ha Hb Hab Hg Hp.
  - destruct tb. reflexivity.
  - destruct Hp as [He Hp].
    change (run tb (polls n (now :: rest)))
      with (run (snd (Wait tb n now)) (polls n rest)).
    rewrite (Wait_short_elapse tb n now a b g) by (assumption || lia).
    rewrite (IH _ n d a b g); try assumption.
    cbn [capacity remaining refillInterval lastRefill].
    f_equal. symmetry. apply last_cons_default.
Qed.

End Starvation.

(** X4: polling [Wait] faster than the bucket earns a token starves it.
    Each [Wait] truncates the share of the refill it counts to whole tokens
    and moves [lastRefill] to now; when the readings are at most [2^a] ns
    apart, for a capacity of at most [2^b] and an interval of at least [2^g]
    ns with [a + b < g], every share is 0: however long the polling goes on,
    remaining stays what it was, [lastRefill] follows the last reading, and
    a [Consume] of more than remaining is refused for a whole interval after
    the last poll. *)
Theorem Wait_polling_starves (tb : TokenBucket.t) (n : Z) (d : Duration)
    (readings : list Time) (a b g : Z) :
  TokenBucket.inv tb ->
  1 <= TokenBucket.capacity tb <= 2 ^ b ->
  2 ^ g <= TokenBucket.refillInterval tb ->
  Int64.in_range (TokenBucket.refillInterval tb) ->
  d <= 2 ^ a -> 0 <= a -> 0 <= b -> a + b < g -> g <= 62 ->
  paced d (TokenBucket.lastRefill tb) readings ->
  let tb' := TokenBucket.run tb (polls n readings) in
  TokenBucket.remaining tb' = TokenBucket.remaining tb
  /\ TokenBucket.lastRefill tb' =
       List.last readings (TokenBucket.lastRefill tb)
  /\ (forall m now,
        TokenBucket.remaining tb < m ->
        Sub now (TokenBucket.lastRefill tb') < TokenBucket.refillInterval tb ->
        fst (TokenBucket.Consume tb' m now) = false).
Proof.
  intros Hinv Hc Hi Hir Hd Ha Hb Hab Hg Hp tb'. subst tb'.
  rewrite (polls_run readings tb n d a b g) by assumption.
  cbn [TokenBucket.remaining TokenBucket.lastRefill].
  split; [reflexivity|]. split; [reflexivity|].
  intros m now Hm Hdue.
  rewrite Consume_decides, HasCapacity_available, available_not_due
    by exact Hdue.
  apply Z.leb_gt. exact Hm.
Qed.

Lemma Wait_polling_starves_witness :
  let tb := TokenBucket.NewTokenBucket 60 0 Minute 0 in
  let readings := [250 * Millisecond; 500 * Millisecond; 750 * Millisecond;
                   Second; 1250 * Millisecond; 1500 * Millisecond;
                   1750 * Millisecond; 2 * Second] in
  TokenBucket.remaining (TokenBucket.run tb (polls 1 readings)) = 0
  /\ TokenBucket.effectiveRemaining tb (2 * Second) = 2.
Proof.
  intros tb readings.
  split; [|vm_compute; reflexivity].
  assert (Hinv : TokenBucket.inv tb) by (vm_compute; split; discriminate).
  assert (Hc : 1 <= TokenBucket.capacity tb <= 2 ^ 6)
    by (vm_compute; split; discriminate).
  assert (Hi : 2 ^ 35 <= TokenBucket.refillInterval tb)
    by (vm_compute; discriminate).
  assert (Hir : Int64.in_range (TokenBucket.refillInterval tb))
    by (vm_compute; split; discriminate).
  assert (Hd : 250 * Millisecond <= 2 ^ 28) by (vm_compute; discriminate).
  assert (Hp : paced (250 * Millisecond) (TokenBucket.lastRefill tb) readings)
    by (vm_compute; repeat split; discriminate).
  exact (proj1 (Wait_polling_starves tb 1 (250 * Millisecond) readings 28 6 35
                  Hinv Hc Hi Hir Hd ltac:(lia) ltac:(lia) ltac:(lia)
                  ltac:(lia) Hp)).
Defined.

(** ** The composite limiter's waits *)

(** X5: [RateLimiter.Wait] consults the token bucket only.  It never touches
    the request bucket and reports the token bucket's estimate, which the
    limiter's own [TimeUntilAvailable] (the larger of the two buckets'
    estimates) is never below; so it is 0 whenever the tokens are there,
    whatever the state of the request bucket. *)
Theorem RateLimiter_Wait_ignores_requests (rl : RateLimiter.t) (n : Z)
    (now nowR : Time) :
  RateLimiter.RequestsBucket (snd (RateLimiter.Wait rl n now)) =
    RateLimiter.RequestsBucket rl
  /\ RateLimiter.TokensBucket (snd (RateLimiter.Wait rl n now)) =
    snd (TokenBucket.Wait (RateLimiter.TokensBucket rl) n now)
  /\ fst (RateLimiter.Wait rl n now) =
    fst (TokenBucket.TimeUntilAvailable (RateLimiter.TokensBucket rl) n now)
  /\ fst (RateLimiter.TimeUntilAvailable rl n now nowR) =
    Z.max (fst (RateLimiter.Wait rl n now))
      (fst (TokenBucket.TimeUntilAvailable (RateLimiter.RequestsBucket rl) 1
              nowR))
  /\ (n <= TokenBucket.effectiveRemaining (RateLimiter.TokensBucket rl) now ->
      fst (RateLimiter.Wait rl n now) = 0).
Proof.
  assert (Hw : fst (RateLimiter.Wait rl n now) =
               fst (TokenBucket.Wait (RateLimiter.TokensBucket rl) n now)
               /\ snd (RateLimiter.Wait rl n now) =
                  RateLimiter.mk
                    (snd (TokenBucket.Wait (RateLimiter.TokensBucket rl) n now))
                    (RateLimiter.RequestsBucket rl)).
  { unfold RateLimiter.Wait.
    destruct (TokenBucket.Wait (RateLimiter.TokensBucket rl) n now).
    split; reflexivity. }
  destruct Hw as [Hd Hs]. rewrite Hd, Hs. cbn [RateLimiter.RequestsBucket
    RateLimiter.TokensBucket].
  assert (He : fst (TokenBucket.Wait (RateLimiter.TokensBucket rl) n now) =
               fst (TokenBucket.TimeUntilAvailable
                      (RateLimiter.TokensBucket rl) n now)).
  { rewrite Wait_duration. unfold TokenBucket.TimeUntilAvailable.
    destruct (n <=? _); reflexivity. }
  split; [reflexivity|]. split; [reflexivity|]. split; [exact He|].
  split.
  - rewrite RateLimiter_TimeUntilAvailable_max, He. reflexivity.
  - intros Hn. rewrite Wait_duration.
    destruct (Z.leb_spec n (TokenBucket.effectiveRemaining
                              (RateLimiter.TokensBucket rl) now)); [|lia].
    reflexivity.
Qed.

Lemma RateLimiter_Wait_ignores_requests_witness :
  let rl := snd (RateLimiter.TryConsume (RateLimiter.New 100 1 0 0) 10 0 0) in
  fst (RateLimiter.Wait rl 10 Second) = 0
  /\ fst (RateLimiter.TryConsume rl 10 Second Second) = false.
Proof.
  intros rl. split; [|vm_compute; reflexivity].
  apply (RateLimiter_Wait_ignores_requests rl 10 Second Second).
  vm_compute. discriminate.
Defined.

(** X6: [WaitAndConsume] sleeps at most once, for the positive wait it
    computed, and never for more than a positive [maxWait]; when it gives up
    on [maxWait] or on the context it has consumed nothing; and it returns
    nil only if its consume was accepted, leaving that consume's result. *)
Theorem WaitAndConsume_sleeps_bounded (rl : RateLimiter.t)
    (sel : Duration -> wake) (tokens : Z) (maxWait : Duration) (clk : Clock) :
  let wait :=
    fst (RateLimiter.TimeUntilAvailable rl tokens (atEstimateTokens clk)
           (atEstimateRequests clk)) in
  let consumed :=
    RateLimiter.TryConsume rl tokens (atConsumeTokens clk)
      (atConsumeRequests clk) in
  let err := fst (fst (RateLimiter.WaitAndConsume rl sel tokens maxWait clk)) in
  let rl' := snd (fst (RateLimiter.WaitAndConsume rl sel tokens maxWait clk)) in
  let slept := snd (RateLimiter.WaitAndConsume rl sel tokens maxWait clk) in
  (slept = [] \/ exists w, slept = [RateLimiter.Sleep wait w] /\ sel wait = w)
  /\ (slept <> [] -> 0 < wait /\ (0 < maxWait -> wait <= maxWait))
  /\ (forall d mw, err = Some (RateLimiter.WaitExceeded d mw) ->
        rl' = rl /\ slept = [] /\ d = wait /\ mw = maxWait /\ maxWait < wait)
  /\ (forall e, err = Some (RateLimiter.ContextDone e) ->
        rl' = rl /\ slept = [RateLimiter.Sleep wait (CtxDone e)])
  /\ (err = Some RateLimiter.AcquireFailed ->
        fst consumed = false /\ rl' = snd consumed)
  /\ (err = None -> fst consumed = true /\ rl' = snd consumed).
Proof.
  intros wait consumed err rl' slept. subst err rl' slept.
  unfold RateLimiter.WaitAndConsume.
  pose proof (RateLimiter_TimeUntilAvailable_max rl tokens
                (atEstimateTokens clk) (atEstimateRequests clk)) as Hmax.
  assert (Hrl : snd (RateLimiter.TimeUntilAvailable rl tokens
                       (atEstimateTokens clk) (atEstimateRequests clk)) = rl)
    by (rewrite Hmax; reflexivity).
  fold wait in Hmax.
  destruct (RateLimiter.TimeUntilAvailable rl tokens (atEstimateTokens clk)
              (atEstimateRequests clk)) as [wd rl1].
  simpl in Hrl, wait. subst rl1. subst wait.
  unfold RateLimiter.CanProceed. fold consumed.
  destruct (Z.ltb_spec 0 wd) as [Hpos|Hnpos].
  - destruct (Z.ltb_spec 0 maxWait) as [Hm|Hm];
      [destruct (Z.ltb_spec maxWait wd) as [Hex|Hex]|]; simpl.
    + split; [left; reflexivity|]. split; [congruence|].
      split; [intros d mw [= <- <-]; repeat split; assumption|].
      split; [discriminate|]. split; discriminate.
    + destruct (sel wd) as [|e] eqn:Hsel.
      * destruct consumed as [[] rl2]; simpl;
          (split; [right; eexists; split; reflexivity|]);
          (split; [intros _; split; [assumption|intros _; assumption]|]);
          (split; [discriminate|]); (split; [discriminate|]);
          split; try discriminate; intros _; split; reflexivity.
      * simpl. split; [right; eexists; split; reflexivity|].
        split; [intros _; split; [assumption|intros _; assumption]|].
        split; [discriminate|].
        split; [intros e0 [= <-]; split; reflexivity|].
        split; discriminate.
    + destruct (sel wd) as [|e] eqn:Hsel.
      * destruct consumed as [[] rl2]; simpl;
          (split; [right; eexists; split; reflexivity|]);
          (split; [intros _; split; [assumption|intros; lia]|]);
          (split; [discriminate|]); (split; [discriminate|]);
          split; try discriminate; intros _; split; reflexivity.
      * simpl. split; [right; eexists; split; reflexivity|].
        split; [intros _; split; [assumption|intros; lia]|].
        split; [discriminate|].
        split; [intros e0 [= <-]; split; reflexivity|].
        split; discriminate.
  - destruct consumed as [[] rl2]; simpl;
      (split; [left; reflexivity|]); (split; [congruence|]);
      (split; [discriminate|]); (split; [discriminate|]);
      split; try discriminate; intros _; split; reflexivity.
Qed.

Lemma WaitAndConsume_sleeps_bounded_witness :
  let rl := snd (RateLimiter.TryConsume (RateLimiter.New 60 60 0 0) 60 0 0) in
  let clk := mkClock 0 0 (1100 * Millisecond) (1100 * Millisecond) in
  let wait := fst (RateLimiter.TimeUntilAvailable rl 1 0 0) in
  snd (RateLimiter.WaitAndConsume rl (fun _ => TimerFired) 1 (2 * Second) clk)
    = [RateLimiter.Sleep 1099999998 TimerFired]
  /\ 0 < wait /\ (0 < 2 * Second -> wait <= 2 * Second).
Proof.
  intros rl clk wait.
  split; [vm_compute; reflexivity|].
  destruct (WaitAndConsume_sleeps_bounded rl (fun _ => TimerFired) 1
              (2 * Second) clk) as (_ & H & _).
  apply H. vm_compute. discriminate.
Defined.

(** X7: the consume that ends [WaitAndConsume] credits no partial refill.
    While the token bucket holds less than the amount and its refill is not
    due at the consume's reading, the call fails however long it waited:
    it never returns nil, and when it is not stopped by [maxWait] or by the
    context it returns the acquire-failed error. *)
Theorem WaitAndConsume_needs_refill (rl : RateLimiter.t)
    (sel : Duration -> wake) (tokens : Z) (maxWait : Duration) (clk : Clock) :
  TokenBucket.remaining (RateLimiter.TokensBucket rl) < tokens ->
  Sub (atConsumeTokens clk)
      (TokenBucket.lastRefill (RateLimiter.TokensBucket rl)) <
    TokenBucket.refillInterval (RateLimiter.TokensBucket rl) ->
  let wait :=
    fst (RateLimiter.TimeUntilAvailable rl tokens (atEstimateTokens clk)
           (atEstimateRequests clk)) in
  let err := fst (fst (RateLimiter.WaitAndConsume rl sel tokens maxWait clk)) in
  err <> None
  /\ (~ (0 < maxWait < wait) -> sel wait = TimerFired ->
      err = Some RateLimiter.AcquireFailed).
Proof.
  intros Hlt Hdue wait err.
  assert (Hrej : fst (RateLimiter.TryConsume rl tokens (atConsumeTokens clk)
                        (atConsumeRequests clk)) = false).
  { rewrite RateLimiter_TryConsume_decides. unfold RateLimiter.HasCapacity.
    rewrite HasCapacity_available, available_not_due by exact Hdue.
    destruct (Z.leb_spec tokens
                (TokenBucket.remaining (RateLimiter.TokensBucket rl))); [lia|].
    reflexivity. }
  subst err wait. unfold RateLimiter.WaitAndConsume.
  destruct (RateLimiter.TimeUntilAvailable rl tokens (atEstimateTokens clk)
              (atEstimateRequests clk)) as [wd rl1] eqn:Hest.
  pose proof (RateLimiter_TimeUntilAvailable_max rl tokens
                (atEstimateTokens clk) (atEstimateRequests clk)) as Hmax.
  rewrite Hest in Hmax. injection Hmax as _ ->.
  unfold RateLimiter.CanProceed.
  destruct (RateLimiter.TryConsume rl tokens (atConsumeTokens clk)
              (atConsumeRequests clk)) as [ok rl2].
  simpl in Hrej. subst ok. simpl.
  destruct (Z.ltb_spec 0 wd) as [Hpos|Hnpos].
  - destruct (Z.ltb_spec 0 maxWait) as [Hm|Hm];
      [destruct (Z.ltb_spec maxWait wd) as [Hex|Hex]|]; simpl.
    + split; [discriminate|]. intros Hn. exfalso. apply Hn. lia.
    + destruct (sel wd); simpl; (split; [discriminate|]);
        intros _ Hs; [reflexivity|discriminate].
    + destruct (sel wd); simpl; (split; [discriminate|]);
        intros _ Hs; [reflexivity|discriminate].
  - split; [discriminate|]. intros _ _. reflexivity.
Qed.

Lemma WaitAndConsume_needs_refill_witness :
  let rl := snd (RateLimiter.TryConsume (RateLimiter.New 60 60 0 0) 60 0 0) in
  let clk := mkClock 0 0 (1100 * Millisecond) (1100 * Millisecond) in
  fst (RateLimiter.TimeUntilAvailable rl 1 0 0) = 1099999998
  /\ fst (fst (RateLimiter.WaitAndConsume rl (fun _ => TimerFired) 1 0 clk))
     = Some RateLimiter.AcquireFailed.
Proof.
  intros rl clk. split; [vm_compute; reflexivity|].
  assert (Hlt : TokenBucket.remaining (RateLimiter.TokensBucket rl) < 1)
    by (vm_compute; reflexivity).
  assert (Hdue : Sub (atConsumeTokens clk)
                   (TokenBucket.lastRefill (RateLimiter.TokensBucket rl)) <
                 TokenBucket.refillInterval (RateLimiter.TokensBucket rl))
    by (vm_compute; reflexivity).
  destruct (WaitAndConsume_needs_refill rl (fun _ => TimerFired) 1 0 clk
              Hlt Hdue) as [_ H].
  apply H; [lia|reflexivity].
Defined.

(** ** The registry *)

Section RegistryFacts.
Context {L : Type}.

Lemma Get_setAll (sets : list (string * L)) :
  forall (r : Registry.t) (model : string),
  Registry.Get (Registry.setAll r sets) model =
  match Registry.lastSet sets model with
  | Some l => inl l
  | None => Registry.Get r model
  end.
Proof.
  induction sets as [|[k l] rest IH]; intros r model; [reflexivity|].
  change (Registry.setAll r ((k, l) :: rest))
    with (Registry.setAll (Registry.Set' r k l) rest).
  rewrite IH. cbn [Registry.lastSet].
  destruct (Registry.lastSet rest model); [reflexivity|].
  unfold Registry.Get, Registry.Set', Registry.t in *.
  destruct (String.eqb_spec k model) as [->|Hne].
  - rewrite lookup_insert_eq. reflexivity.
  - rewrite lookup_insert_ne by exact Hne. reflexivity.
Qed.

End RegistryFacts.

(** X8: the registry answers with the last limiter set.  After any run of
    [Set] calls on a new registry, [Get] returns for a model the limiter of
    the last [Set] made for it, and the not-found error for a model that no
    [Set] named; a [Set] for one model changes the answer for no other. *)
Theorem Registry_last_set_wins {L : Type} (sets : list (string * L))
    (model : string) :
  Registry.Get (Registry.setAll Registry.NewRateLimiterRegistry sets) model =
  match Registry.lastSet sets model with
  | Some l => inl l
  | None => inr (Registry.NotFound model)
  end.
Proof.
  rewrite Get_setAll. destruct (Registry.lastSet sets model); reflexivity.
Qed.

(* ===================================================================== *)
(** * Validation of inputs *)

Section Validation.

Lemma ValidMIMETypes_lookup (s : string) :
  default false (ValidMIMETypes !! s) = true <->
  In s ["image/jpeg"; "image/png"; "image/webp"; "image/gif"].
Proof.
  unfold ValidMIMETypes. simpl.
  destruct (decide (s = "image/jpeg")) as [->|H1];
    [rewrite lookup_insert_eq; simpl; tauto|].
  rewrite lookup_insert_ne by congruence.
  destruct (decide (s = "image/png")) as [->|H2];
    [rewrite lookup_insert_eq; simpl; tauto|].
  rewrite lookup_insert_ne by congruence.
  destruct (decide (s = "image/webp")) as [->|H3];
    [rewrite lookup_insert_eq; simpl; tauto|].
  rewrite lookup_insert_ne by congruence.
  destruct (decide (s = "image/gif")) as [->|H4];
    [rewrite lookup_singleton_eq; simpl; tauto|].
  rewrite lookup_singleton_ne by congruence. simpl.
  split; [discriminate|]. intros [?|[?|[?|[?|[]]]]]; congruence.
Qed.

Lemma len_zero {A : Type} (s : list A) : len s = 0 <-> s = [].
Proof.
  unfold len. destruct s; simpl; split; intros H; try reflexivity;
    try discriminate; lia.
Qed.

Lemma len_nonneg {A : Type} (s : list A) : 0 <= len s.
Proof. unfold len. lia. Qed.

(** What [ValidateInputImage] returns, case by case. *)
Lemma ValidateInputImage_cases (img : InputImage) :
  (inData img = [] /\ URI img = ""
   /\ ValidateInputImage img = Some (Sentinel ErrEmptyImageData))
  \/ (inData img = [] /\ URI img <> "" /\ ValidateInputImage img = None)
  \/ (MaxImageSize < len (inData img)
      /\ ValidateInputImage img =
         Some (Errorf
                 (sentinelText ErrImageTooLarge ++ ": "
                  ++ Itoa (len (inData img))
                  ++ " bytes (max " ++ Itoa MaxImageSize ++ ")")
                 (Sentinel ErrImageTooLarge)))
  \/ (0 < len (inData img) <= MaxImageSize
      /\ ~ In (inMIMEType img)
             ["image/jpeg"; "image/png"; "image/webp"; "image/gif"]
      /\ exists text,
           ValidateInputImage img =
           Some (Errorf text (Sentinel ErrInvalidMIMEType)))
  \/ (0 < len (inData img) <= MaxImageSize
      /\ In (inMIMEType img)
           ["image/jpeg"; "image/png"; "image/webp"; "image/gif"]
      /\ ValidateInputImage img = None).
Proof.
  unfold ValidateInputImage.
  pose proof (len_nonneg (inData img)) as H0.
  pose proof (len_zero (inData img)) as Hz.
  destruct (Z.eqb_spec (len (inData img)) 0) as [He|Hne].
  - destruct (String.eqb_spec (URI img) "") as [Hu|Hu]; simpl.
    + left. tauto.
    + right. left. destruct (Z.ltb_spec 0 (len (inData img))); [lia|]. tauto.
  - simpl. destruct (Z.ltb_spec 0 (len (inData img))); [|lia].
    destruct (Z.ltb_spec MaxImageSize (len (inData img))).
    + right. right. left. split; [assumption|reflexivity].
    + destruct (String.eqb_spec (inMIMEType img) "") as [Hm|Hm].
      * right. right. right. left. split; [lia|]. split; [|eexists; reflexivity].
        rewrite Hm. intros [?|[?|[?|[?|[]]]]]; discriminate.
      * pose proof (ValidMIMETypes_lookup (inMIMEType img)) as Hv.
        destruct (default false (ValidMIMETypes !! inMIMEType img)); simpl.
        -- right. right. right. right. split; [lia|]. split; [tauto|reflexivity].
        -- right. right. right. left. split; [lia|].
           split; [|eexists; reflexivity].
           intros Hin. apply Hv in Hin. discriminate.
Qed.

Lemma validateFrom_None (images : list InputImage) :
  forall k, validateFrom k images = None <->
            Forall (fun img => ValidateInputImage img = None) images.
Proof.
  induction images as [|img rest IH]; intros k; simpl.
  - split; [constructor|reflexivity].
  - destruct (ValidateInputImage img) eqn:Hv.
    + split; [discriminate|]. intros H. inversion H; congruence.
    + rewrite IH. split; [intros; constructor; assumption|].
      intros H. inversion H; assumption.
Qed.

Lemma validateFrom_Some (images : list InputImage) :
  forall k e, validateFrom k images = Some e ->
  exists (i : nat) img err,
    images !! i = Some img
    /\ ValidateInputImage img = Some err
    /\ (forall (j : nat) img', (j < i)%nat -> images !! j = Some img' ->
          ValidateInputImage img' = None)
    /\ e = Errorf ("image " ++ Itoa (k + Z.of_nat i) ++ ": " ++ Error err) err.
Proof.
  induction images as [|img rest IH]; intros k e; simpl; [discriminate|].
  destruct (ValidateInputImage img) as [err|] eqn:Hv.
  - intros [= <-]. exists 0%nat, img, err.
    split; [reflexivity|]. split; [assumption|]. split; [intros; lia|].
    rewrite Z.add_0_r. reflexivity.
  - intros H. destruct (IH _ _ H) as (i & img' & err & Hi & Herr & Hbefore & He).
    exists (S i), img', err.
    split; [exact Hi|]. split; [assumption|]. split.
    + intros [|j] img'' Hj Hl; simpl in Hl.
      * injection Hl as <-. assumption.
      * apply (Hbefore j); [lia|assumption].
    + rewrite He.
      replace (k + Z.of_nat (S i)) with (k + 1 + Z.of_nat i) by lia.
      reflexivity.
Qed.

End Validation.

(** X9: [ValidateInputImage] accepts exactly two kinds of image: one without
    data that names a URI (its MIME type is then not looked at), and one
    whose data is not empty, is at most [MaxImageSize] (20MB) long and has
    one of the four supported MIME types. *)
Theorem ValidateInputImage_accepts (img : InputImage) :
  ValidateInputImage img = None <-> validImage img.
Proof.
  unfold validImage.
  pose proof (len_zero (inData img)) as Hz.
  pose proof (len_nonneg (inData img)) as H0.
  destruct (ValidateInputImage_cases img)
    as [(Hd & Hu & Hr)|[(Hd & Hu & Hr)|[(Hl & Hr)|[(Hl & Hm & text & Hr)
       |(Hl & Hm & Hr)]]]]; rewrite Hr.
  - split; [discriminate|]. intros [[_ H]|[H _]]; contradiction.
  - split; [intros _; left; tauto|reflexivity].
  - split; [discriminate|]. intros [[H _]|(_ & H & _)]; [|lia].
    apply Hz in H. unfold MaxImageSize in Hl. lia.
  - split; [discriminate|]. intros [[H _]|(_ & _ & H)]; [|contradiction].
    apply Hz in H. lia.
  - split; [|reflexivity]. intros _. right. split; [|split; [lia|assumption]].
    intros H. apply Hz in H. lia.
Qed.

(** X10: every rejection of [ValidateInputImage] names its cause, and the
    size is checked before the type: no data and no URI is the
    empty-image-data error itself; data above [MaxImageSize] is an error
    wrapping [ErrImageTooLarge], with both sizes in its text, whatever the
    MIME type; data within the limit with a missing or unsupported MIME type
    is an error wrapping [ErrInvalidMIMEType]. *)
Theorem ValidateInputImage_rejects (img : InputImage) (e : ValidationError) :
  ValidateInputImage img = Some e ->
  (inData img = [] /\ URI img = "" /\ e = Sentinel ErrEmptyImageData)
  \/ (MaxImageSize < len (inData img)
      /\ Is e ErrImageTooLarge = true
      /\ Is e ErrInvalidMIMEType = false
      /\ Error e =
         ("image data exceeds maximum size: " ++ Itoa (len (inData img))
          ++ " bytes (max 20971520)")%string)
  \/ (0 < len (inData img) <= MaxImageSize
      /\ ~ In (inMIMEType img)
             ["image/jpeg"; "image/png"; "image/webp"; "image/gif"]
      /\ Is e ErrInvalidMIMEType = true
      /\ Is e ErrImageTooLarge = false).
Proof.
  intros He.
  destruct (ValidateInputImage_cases img)
    as [(Hd & Hu & Hr)|[(Hd & Hu & Hr)|[(Hl & Hr)|[(Hl & Hm & text & Hr)
       |(Hl & Hm & Hr)]]]]; rewrite Hr in He; try discriminate;
    injection He as <-.
  - left. tauto.
  - right. left. repeat split; try assumption; reflexivity.
  - right. right. repeat split; try tauto; lia.
Qed.

Lemma ValidateInputImage_rejects_witness :
  exists e,
    ValidateInputImage (mkInputImage [100; 97; 116; 97] "invalid/type" "")
      = Some e
    /\ Is e ErrInvalidMIMEType = true.
Proof.
  eexists. split; [vm_compute; reflexivity|].
  destruct (ValidateInputImage_rejects
              (mkInputImage [100; 97; 116; 97] "invalid/type" "") _
              ltac:(vm_compute; reflexivity))
    as [(H & _)|[(H & _)|(_ & _ & H & _)]].
  - discriminate H.
  - vm_compute in H. discriminate H.
  - exact H.
Defined.

(** X11: [ValidateInputImages] accepts a slice exactly when it holds between
    1 and [MaxInputImages] (14) images and [ValidateInputImage] accepts each
    of them. *)
Theorem ValidateInputImages_accepts (images : list InputImage) :
  ValidateInputImages images = None <->
  1 <= len images <= MaxInputImages /\ Forall validImage images.
Proof.
  unfold ValidateInputImages.
  pose proof (len_nonneg images) as H0.
  destruct (Z.eqb_spec (len images) 0) as [Hz|Hz].
  - split; [discriminate|]. lia.
  - destruct (Z.ltb_spec MaxInputImages (len images)) as [Hm|Hm].
    + split; [discriminate|]. lia.
    + rewrite validateFrom_None. split.
      * intros H. split; [lia|].
        eapply Forall_impl; [exact H|].
        intros img. apply ValidateInputImage_accepts.
      * intros [_ H]. eapply Forall_impl; [exact H|].
        intros img. apply ValidateInputImage_accepts.
Qed.

(** X12: the count is checked before any image, and the images in order:
    an empty slice is the empty-image-data error, more than 14 images is an
    error wrapping [ErrTooManyImages] whatever the images are, and otherwise
    the error is that of the first image [ValidateInputImage] rejects,
    wrapped with that image's index, so that [errors.Is] answers for it as
    for the image's own error; no later image decides anything. *)
Theorem ValidateInputImages_first_invalid (images : list InputImage)
    (e : ValidationError) :
  ValidateInputImages images = Some e ->
  (images = [] /\ e = Sentinel ErrEmptyImageData)
  \/ (MaxInputImages < len images
      /\ Is e ErrTooManyImages = true
      /\ Error e =
         ("too many input images: " ++ Itoa (len images) ++ " (max 14)")%string)
  \/ (1 <= len images <= MaxInputImages
      /\ exists (i : nat) img err,
           images !! i = Some img
           /\ ValidateInputImage img = Some err
           /\ (forall (j : nat) img', (j < i)%nat -> images !! j = Some img' ->
                 ValidateInputImage img' = None)
           /\ e = Errorf ("image " ++ Itoa (Z.of_nat i) ++ ": " ++ Error err)
                    err
           /\ forall s, Is e s = Is err s).
Proof.
  unfold ValidateInputImages.
  pose proof (len_nonneg images) as H0.
  destruct (Z.eqb_spec (len images) 0) as [Hz|Hz].
  - intros [= <-]. left. split; [apply len_zero; assumption|reflexivity].
  - destruct (Z.ltb_spec MaxInputImages (len images)) as [Hm|Hm].
    + intros [= <-]. right. left. repeat split; try assumption.
    + intros H. right. right. split; [lia|].
      destruct (validateFrom_Some images 0 e H)
        as (i & img & err & Hi & Herr & Hbefore & He).
      exists i, img, err. rewrite Z.add_0_l in He.
      repeat split; try assumption. intros s. rewrite He. reflexivity.
Qed.

Lemma ValidateInputImages_first_invalid_witness :
  let validImg := mkInputImage [102; 97; 107; 101] "image/png" "" in
  let images := [validImg; mkInputImage [100; 97; 116; 97] "invalid/type" "";
                 mkInputImage [] "" ""] in
  exists e,
    ValidateInputImages images = Some e
    /\ Error e = "image 1: invalid or unsupported MIME type: invalid/type"
    /\ Is e ErrInvalidMIMEType = true.
Proof.
  intros validImg images. eexists.
  split; [vm_compute; reflexivity|].
  split; [vm_compute; reflexivity|].
  destruct (ValidateInputImages_first_invalid images _
              ltac:(vm_compute; reflexivity))
    as [(H & _)|[(H & _)|(_ & i & img & err & _ & _ & _ & He & _)]].
  - discriminate H.
  - vm_compute in H. discriminate H.
  - injection He as _ <-. reflexivity.
Defined.

(* ===================================================================== *)
(** * Saving results *)

Section Saving.
Context {S E : Type}.

(** What the loop adds to its accumulators. *)
Lemma saveFrom_spec (storage : Storage S E) (basePath : string) (n : Z)
    (images : list GeneratedImage) :
  forall (i : Z) (results : list StorageResult) (s : S)
         (calls : list saveCall),
  exists (R : list StorageResult) (C : list saveCall) err s',
    saveFrom storage basePath n i images results s calls =
      (results ++ R, err, s', calls ++ C)
    /\ (length R <= length images)%nat
    /\ (err = None <-> length R = length images)
    /\ length C = match err with
                   | Some _ => Datatypes.S (length R)
                   | None => length R
                   end
    /\ err <> Some ErrStorageNotConfigured
    /\ (forall (j : nat) r, R !! j = Some r ->
          exists img, images !! j = Some img
            /\ srPath r = imagePath basePath n (i + Z.of_nat j) img
            /\ srSize r = len (Data img))
    /\ (forall (j : nat) c, C !! j = Some c ->
          exists img, images !! j = Some img
            /\ c = (Data img, imagePath basePath n (i + Z.of_nat j) img,
                    MIMEType img)).
Proof.
  induction images as [|img rest IH]; intros i results s calls; simpl.
  - exists [], [], None, s. rewrite !app_nil_r.
    split; [reflexivity|]. split; [simpl; lia|]. split; [tauto|].
    split; [reflexivity|]. split; [discriminate|].
    split; intros j x Hx; rewrite lookup_nil in Hx; discriminate.
  - destruct (SaveFile storage (Data img) (imagePath basePath n i img)
                (MIMEType img) s) as [[url|e] s1].
    + destruct (IH (i + 1)
                  (results ++ [mkStorageResult url (imagePath basePath n i img)
                                 (len (Data img))])
                  s1
                  (calls ++ [(Data img, imagePath basePath n i img,
                              MIMEType img)]))
        as (R & C & err & s' & Heq & Hlen & Herr & HC & Hne & HR & HCs).
      exists (mkStorageResult url (imagePath basePath n i img)
                (len (Data img)) :: R),
             ((Data img, imagePath basePath n i img, MIMEType img) :: C),
             err, s'.
      split; [rewrite Heq, <- !app_assoc; reflexivity|].
      split; [simpl; lia|].
      split; [simpl; rewrite Herr; lia|].
      split; [simpl; destruct err; lia|].
      split; [assumption|].
      split.
      * intros [|j] r Hr; simpl in Hr.
        -- injection Hr as <-. exists img. rewrite Z.add_0_r. repeat split.
        -- destruct (HR j r Hr) as (img' & Hi & Hp & Hs).
           exists img'. split; [exact Hi|]. split; [|exact Hs].
           rewrite Hp. f_equal. lia.
      * intros [|j] c Hc; simpl in Hc.
        -- injection Hc as <-. exists img. rewrite Z.add_0_r. repeat split.
        -- destruct (HCs j c Hc) as (img' & Hi & Hp).
           exists img'. split; [exact Hi|].
           rewrite Hp. do 2 f_equal. f_equal. lia.
    + exists [], [(Data img, imagePath basePath n i img, MIMEType img)],
             (Some (StoreError e)), s1.
      rewrite app_nil_r.
      split; [reflexivity|]. split; [simpl; lia|].
      split; [split; [discriminate|simpl; lia]|].
      split; [reflexivity|]. split; [discriminate|].
      split.
      * intros j r Hr. rewrite lookup_nil in Hr. discriminate.
      * intros [|j] c Hc; simpl in Hc; [|rewrite lookup_nil in Hc; discriminate].
        injection Hc as <-. exists img. rewrite Z.add_0_r. repeat split.
Qed.

End Saving.

(** X13: [SaveToStorage] without a store returns [ErrStorageNotConfigured];
    without a result, or for a result without images, it returns nothing
    and no error; in all three cases nothing is saved.  Otherwise it saves
    the images in order, each under its path with its own data and MIME
    type, and stops at the first [SaveFile] that fails: the results are
    those of the images before it, with their paths and sizes, the error is
    the store's, and no later image is sent.  There is no error exactly
    when every image has its result. *)
Theorem SaveToStorage_stops_at_first_failure {S E : Type}
    (storage : option (Storage S E)) (result : option GenerateResult)
    (basePath : string) (s : S) :
  let out := SaveToStorage storage result basePath s in
  let results := fst (fst (fst out)) in
  let err := snd (fst (fst out)) in
  let calls := snd out in
  let images := match result with Some r => Images r | None => [] end in
  (storage = None ->
     out = ([], Some ErrStorageNotConfigured, s, []))
  /\ (storage <> None -> images = [] -> out = ([], None, s, []))
  /\ (storage <> None ->
      (length results <= length images)%nat
      /\ (err = None <-> length results = length images)
      /\ length calls = match err with
                         | Some _ => Datatypes.S (length results)
                         | None => length results
                         end
      /\ err <> Some ErrStorageNotConfigured
      /\ (forall (j : nat) r, results !! j = Some r ->
            exists img, images !! j = Some img
              /\ srPath r = imagePath basePath (len images) (Z.of_nat j) img
              /\ srSize r = len (Data img))
      /\ (forall (j : nat) c, calls !! j = Some c ->
            exists img, images !! j = Some img
              /\ c = (Data img,
                      imagePath basePath (len images) (Z.of_nat j) img,
                      MIMEType img))).
Proof.
  intros out results err calls images.
  subst out results err calls images.
  split; [intros ->; reflexivity|].
  destruct storage as [storage|];
    [|split; intros H; exfalso; apply H; reflexivity].
  split.
  - intros _ Himg. unfold SaveToStorage.
    destruct result as [r|]; [|reflexivity]. rewrite Himg. reflexivity.
  - intros _. unfold SaveToStorage.
    destruct result as [r|].
    + destruct (Z.eqb_spec (len (Images r)) 0) as [Hz|Hz].
      * apply len_zero in Hz. rewrite Hz. simpl.
        split; [lia|]. split; [tauto|]. split; [reflexivity|].
        split; [discriminate|].
        split; intros j x Hx; rewrite lookup_nil in Hx; discriminate.
      * destruct (saveFrom_spec storage basePath (len (Images r)) (Images r)
                    0 [] s [])
          as (R & C & err & s' & Heq & Hlen & Herr & HC & Hne & HR & HCs).
        rewrite Heq. simpl.
        split; [assumption|]. split; [assumption|]. split; [assumption|].
        split; [assumption|]. split; assumption.
    + simpl. split; [lia|]. split; [tauto|]. split; [reflexivity|].
      split; [discriminate|].
      split; intros j x Hx; rewrite lookup_nil in Hx; discriminate.
Qed.

Lemma SaveToStorage_stops_at_first_failure_witness :
  let out :=
    SaveToStorage (Some Fixtures.memStore) (Some Fixtures.threeImages) "out"
      [] in
  map srPath (fst (fst (fst out))) = ["out_0.png"; "out_1.jpg"]
  /\ snd (fst (fst out)) = Some (StoreError "empty data")
  /\ length (snd out) = 3%nat.
Proof.
  intros out.
  split; [vm_compute; reflexivity|]. split; [vm_compute; reflexivity|].
  destruct (SaveToStorage_stops_at_first_failure (Some Fixtures.memStore)
              (Some Fixtures.threeImages) "out" [])
    as (_ & _ & H).
  destruct (H ltac:(discriminate)) as (_ & _ & Hc & _).
  etransitivity; [exact Hc|]. vm_compute. reflexivity.
Defined.

(** ** Paths of one result *)

Section Paths.

Lemma pretty_N_char_dotless (x : N) : pretty_N_char x <> "."%char.
Proof.
  unfold pretty_N_char.
  repeat (match goal with |- context [match ?y with _ => _ end] =>
            destruct y end); discriminate.
Qed.

Lemma pretty_N_go_dotless (x : N) :
  forall s, dotless s -> dotless (pretty_N_go x s).
Proof.
  induction (N.lt_wf_0 x) as [x _ IH]. intros s Hs.
  destruct (N.eq_dec x 0%N) as [->|Hx]; [rewrite pretty_N_go_0; exact Hs|].
  rewrite pretty_N_go_step by lia.
  apply IH; [apply N.div_lt; lia|].
  split; [apply pretty_N_char_dotless|exact Hs].
Qed.

Lemma Itoa_dotless (i : Z) : 0 <= i -> dotless (Itoa i).
Proof.
  intros Hi. unfold Itoa, pretty, pretty_Z.
  destruct i as [|p|p]; [split; [discriminate|exact I]| |lia].
  unfold pretty, pretty_positive, pretty, pretty_N.
  destruct (decide (N.pos p = 0%N)); [discriminate|].
  apply pretty_N_go_dotless. exact I.
Qed.

(** Two texts that agree after a dotless part and a dot have the same
    dotless part. *)
Lemma dotless_split (a : string) :
  forall b x y, dotless a -> dotless b ->
  (a ++ "." ++ x = b ++ "." ++ y)%string -> a = b.
Proof.
  induction a as [|c a IH]; intros b x y Ha Hb Heq; destruct b as [|d b];
    simpl in *.
  - reflexivity.
  - injection Heq as Hc _. destruct Hb as (Hd & _). congruence.
  - injection Heq as Hc _. destruct Ha as (Hd & _). congruence.
  - injection Heq as -> Hrest. f_equal.
    apply (IH b x y); tauto.
Qed.

Lemma string_app_assoc (a b c : string) :
  ((a ++ b) ++ c = a ++ (b ++ c))%string.
Proof.
  induction a as [|x a IH]; [reflexivity|].
  change (String x ((a ++ b) ++ c) = String x (a ++ (b ++ c)))%string.
  rewrite IH. reflexivity.
Qed.

Lemma imagePath_inj (basePath : string) (n i j : Z)
    (img1 img2 : GeneratedImage) :
  1 < n -> 0 <= i -> 0 <= j ->
  imagePath basePath n i img1 = imagePath basePath n j img2 -> i = j.
Proof.
  intros Hn Hi Hj. unfold imagePath.
  destruct (Z.ltb_spec 1 n); [|lia].
  rewrite !string_app_assoc. intros Heq.
  apply String.app_inj in Heq. simpl in Heq. injection Heq as Heq.
  apply dotless_split in Heq; [|apply Itoa_dotless; assumption..].
  unfold Itoa in Heq. apply (inj pretty) in Heq. exact Heq.
Qed.

End Paths.

(** X14: the images of one result never share a path.  Whatever the base
    path, the MIME types and the answers of the store, the paths of the
    results [SaveToStorage] returns are pairwise different: a result of
    several images numbers them, and a result of one image has one path. *)
Theorem SaveToStorage_paths_distinct {S E : Type} (storage : Storage S E)
    (result : GenerateResult) (basePath : string) (s : S) :
  NoDup
    (map srPath
       (fst (fst (fst (SaveToStorage (Some storage) (Some result) basePath
                         s))))).
Proof.
  unfold SaveToStorage.
  destruct (Z.eqb_spec (len (Images result)) 0) as [Hz|Hz];
    [simpl; constructor|].
  destruct (saveFrom_spec storage basePath (len (Images result))
              (Images result) 0 [] s [])
    as (R & C & err & s' & Heq & Hlen & Herr & HC & Hne & HR & HCs).
  rewrite Heq. simpl.
  apply NoDup_alt. intros i j x Hi Hj.
  apply list_lookup_fmap_Some in Hi as (ri & -> & Hri).
  apply list_lookup_fmap_Some in Hj as (rj & Hp & Hrj).
  destruct (HR i ri Hri) as (imgi & Hii & Hpi & _).
  destruct (HR j rj Hrj) as (imgj & Hij & Hpj & _).
  destruct (Z.ltb_spec 1 (len (Images result))) as [Hn|Hn].
  - rewrite Hpi, Hpj in Hp. apply imagePath_inj in Hp; lia.
  - apply lookup_lt_Some in Hii, Hij. unfold len in Hn, Hz. lia.
Qed.

(* ===================================================================== *)
(** * Further properties of the router *)

(** X15: for the router an edit is charged like a generation with the same
    text.  [Edit] and [EditMultiple] pass the instruction alone to the
    rate-limit check, so the images never count: they leave the limiters,
    and sleep, exactly as [Generate] does for that text and config; a call
    that [Generate] would stop before the backend is stopped with the same
    error, and a call that [Generate] would send reaches the same backend
    with the same rewritten config. *)
Theorem Edit_charged_like_Generate {W : Type} (m : Manager W)
    (sel : Duration -> wake) (image : InputImage) (images : list InputImage)
    (instruction : string) (config : option GenerateConfig) (clk : Clock)
    (w : W) :
  let g := Generate m sel instruction config clk w in
  let e := Edit m sel image instruction config clk w in
  let em := EditMultiple m sel images instruction config clk w in
  outManager e = outManager g /\ outSleeps e = outSleeps g
  /\ outManager em = outManager g /\ outSleeps em = outSleeps g
  /\ (outCalls g = [] ->
      outResult e = outResult g /\ outCalls e = [] /\ outWorld e = w
      /\ outResult em = outResult g /\ outCalls em = [] /\ outWorld em = w)
  /\ (forall p prompt cfg, outCalls g = [CallGenerate p prompt cfg] ->
      outCalls e = [CallEdit p image instruction cfg]
      /\ outCalls em = [CallEditMultiple p images instruction cfg]).
Proof.
  intros g e em. subst g e em. unfold Generate, Edit, EditMultiple.
  set (cfg := match config with None => DefaultConfig | Some c => c end).
  destruct (checkRateLimit m sel (resolveModel m (Some cfg)) cfg instruction
              clk) as [[[err|] m1] slept]; simpl.
  - repeat split; intros; discriminate.
  - destruct (getGeneratorForConfig m1 (Some cfg)) as [[[p gen] actual]|err];
      simpl.
    + destruct (genGenerate gen instruction actual w) as [rg wg].
      destruct (genEdit gen image instruction actual w) as [re we].
      destruct (genEditMultiple gen images instruction actual w) as [rm wm].
      simpl. repeat split; intros; try discriminate;
        match goal with
        | H : [_] = [_] |- _ => injection H as <- <- <-
        end; reflexivity.
    + repeat split; intros; discriminate.
Qed.

Lemma Edit_charged_like_Generate_witness :
  let m := SetRateLimiter Fixtures.manager "test-model"
             (RateLimiter.New 200 10 0 0) in
  let cfg := mkGenerateConfig "test-model-api" "" "" 0 false false None
               false 0 in
  let e := Edit m Fixtures.never Fixtures.inputImage "test prompt"
             Fixtures.testConfig Fixtures.atZero tt in
  outManager e =
    outManager (Generate m Fixtures.never "test prompt" Fixtures.testConfig
                  Fixtures.atZero tt)
  /\ outCalls e =
       [CallEdit "test-provider" Fixtures.inputImage "test prompt" cfg].
Proof.
  intros m cfg e.
  assert (Hg : outCalls (Generate m Fixtures.never "test prompt"
                           Fixtures.testConfig Fixtures.atZero tt) =
               [CallGenerate "test-provider" "test prompt" cfg])
    by (vm_compute; reflexivity).
  destruct (Edit_charged_like_Generate m Fixtures.never Fixtures.inputImage []
              "test prompt" Fixtures.testConfig Fixtures.atZero tt)
    as (Hm & _ & _ & _ & _ & Hcalls).
  split; [exact Hm|].
  exact (proj1 (Hcalls "test-provider" "test prompt" cfg Hg)).
Defined.

(** ** What [NewManager] registers *)

Section Registration.
Context {W : Type}.

(** The loop of [NewManager], from a manager [m] on. *)
Lemma NewManager_fold (gen : ImageGenerator W) (now : Time)
    (models : list ModelInfo) :
  forall m : Manager W,
  let m' :=
    fold_left
      (fun (m : Manager W) (info : ModelInfo) =>
         RegisterModel
           (mkManager (modelMappings m)
              (<[infoProvider info := gen]> (providers m))
              (defaultModel m) (rateLimiters m) (modelInfo m)
              (tokenEstimator m))
           (Name info) (mkMapping (infoProvider info) (APIModelName info))
           info now now)
      models m in
  defaultModel m' = defaultModel m
  /\ (forall k, ~ In k (map Name models) ->
        modelMappings m' !! k = modelMappings m !! k
        /\ rateLimiters m' !! k = rateLimiters m !! k)
  /\ (forall info, In info models ->
        providers m' !! infoProvider info = Some gen)
  /\ (forall p, providers m !! p = Some gen -> providers m' !! p = Some gen)
  /\ (NoDup (map Name models) -> forall info, In info models ->
        modelMappings m' !! Name info =
          Some (mkMapping (infoProvider info) (APIModelName info))
        /\ rateLimiters m' !! Name info =
           match declaredLimiter info now with
           | Some l => Some l
           | None => rateLimiters m !! Name info
           end).
Proof.
  induction models as [|info0 rest IH]; intros m; simpl.
  - split; [reflexivity|]. split; [intros; split; reflexivity|].
    split; [intros ? []|]. split; [intros p Hp; exact Hp|].
    intros _ ? [].
  - set (m1 := RegisterModel _ (Name info0) _ info0 now now).
    destruct (IH m1) as (Hd & Hout & Hprov & Hkeep & Hin).
    assert (Hmap1 : forall k, k <> Name info0 ->
              modelMappings m1 !! k = modelMappings m !! k
              /\ rateLimiters m1 !! k = rateLimiters m !! k).
    { intros k Hk. subst m1. unfold RegisterModel. simpl.
      split; [apply lookup_insert_ne; congruence|].
      destruct (_ || _); [apply lookup_insert_ne; congruence|reflexivity]. }
    assert (Hself : modelMappings m1 !! Name info0 =
                      Some (mkMapping (infoProvider info0) (APIModelName info0))
                    /\ rateLimiters m1 !! Name info0 =
                       match declaredLimiter info0 now with
                       | Some l => Some l
                       | None => rateLimiters m !! Name info0
                       end).
    { subst m1. unfold RegisterModel, declaredLimiter. simpl.
      split; [apply lookup_insert_eq|].
      destruct (_ || _); [apply lookup_insert_eq|reflexivity]. }
    assert (Hp1 : providers m1 !! infoProvider info0 = Some gen)
      by (subst m1; unfold RegisterModel; simpl; apply lookup_insert_eq).
    assert (Hk1 : forall p, providers m !! p = Some gen ->
                  providers m1 !! p = Some gen).
    { intros p Hp. subst m1. unfold RegisterModel. simpl.
      destruct (decide (infoProvider info0 = p)) as [->|Hne].
      - apply lookup_insert_eq.
      - rewrite lookup_insert_ne by exact Hne. exact Hp. }
    split; [rewrite Hd; reflexivity|].
    split.
    { intros k Hk.
      destruct (Hout k ltac:(tauto)) as [H1 H2].
      destruct (Hmap1 k ltac:(intros ->; tauto)) as [H3 H4].
      split; congruence. }
    split.
    { intros info [<-|Hi]; [apply Hkeep; exact Hp1|apply Hprov; exact Hi]. }
    split.
    { intros p Hp. apply Hkeep, Hk1, Hp. }
    intros Hnd info Hi. inversion Hnd as [|x l Hnotin Hnd']; subst.
    rewrite list_elem_of_In in Hnotin.
    destruct Hi as [<-|Hi].
    + destruct (Hout (Name info0) Hnotin) as [H1 H2].
      destruct Hself as [H3 H4]. split; congruence.
    + destruct (Hin Hnd' info Hi) as [H1 H2].
      split; [exact H1|]. rewrite H2.
      destruct (declaredLimiter info now); [reflexivity|].
      apply Hmap1. intros Heq. apply Hnotin. rewrite <- Heq.
      apply in_map. exact Hi.
Qed.

End Registration.

(** X16: [NewManager] makes every model of its provider routable.  For a
    provider whose models have different names, each model it lists is
    mapped to the provider and to its API model name, a request that names
    the model is handed to the provider with the model rewritten to the API
    name and nothing else changed, and the model's limiter is the default
    one for its declared rates, or none when both rates are at most 0. *)
Theorem NewManager_routes_models {W : Type} (gen : ImageGenerator W)
    (now : Time) (info : ModelInfo) (cfg : GenerateConfig) :
  NoDup (map Name (genModels gen)) ->
  In info (genModels gen) ->
  Name info <> "" ->
  let m := NewManager gen now in
  GetModelProvider m (Name info) = (infoProvider info, true)
  /\ getGeneratorForConfig m (Some (withModel cfg (Name info))) =
       Ok (infoProvider info, gen, withModel cfg (APIModelName info))
  /\ rateLimiters m !! Name info = declaredLimiter info now.
Proof.
  intros Hnd Hin Hname m.
  destruct (NewManager_fold gen now (genModels gen) New)
    as (Hd & _ & Hprov & _ & Hreg).
  fold (NewManager gen now) in Hd, Hprov, Hreg. fold m in Hd, Hprov, Hreg.
  destruct (Hreg Hnd info Hin) as [Hmap Hlim].
  assert (Hres : resolveModel m (Some (withModel cfg (Name info))) = Name info).
  { unfold resolveModel. simpl.
    destruct (String.eqb_spec (Name info) ""); [contradiction|]. simpl.
    destruct (String.eqb_spec (Name info) ModelDefault) as [He|He];
      [|reflexivity].
    rewrite Hd. simpl. symmetry. exact He. }
  split; [unfold GetModelProvider, Model in *; rewrite Hmap; reflexivity|].
  split.
  - unfold getGeneratorForConfig. rewrite Hres. unfold Model in *.
    rewrite Hmap. simpl.
    unfold getProvider. rewrite (Hprov info Hin). reflexivity.
  - rewrite Hlim. simpl. rewrite lookup_empty.
    destruct (declaredLimiter info now); reflexivity.
Qed.

Lemma NewManager_routes_models_witness :
  getGeneratorForConfig Fixtures.manager Fixtures.testConfig =
    Ok ("test-provider", Fixtures.mockGen,
        mkGenerateConfig "test-model-api" "" "" 0 false false None false 0)
  /\ rateLimiters Fixtures.manager !! "test-model" =
       Some (RateLimiter.New 100 10 0 0).
Proof.
  destruct (NewManager_routes_models Fixtures.mockGen 0 Fixtures.testModel
              (mkGenerateConfig "" "" "" 0 false false None false 0))
    as (_ & Hroute & Hlim).
  - apply NoDup_singleton.
  - left. reflexivity.
  - discriminate.
  - split; [exact Hroute|exact Hlim].
Defined.

(** X17: the default model of a new manager is the package constant, not
    the provider's first model.  When the provider lists no model named
    [ModelDefault], a request without a config, or with a config that names
    no model, made on [NewManager(provider)] fails with the
    model-not-registered error for [ModelDefault] before any backend call,
    be it a [Generate] or the [Send] of a new conversation. *)
Theorem NewManager_default_not_first {W : Type} (gen : ImageGenerator W)
    (now : Time) (sel : Duration -> wake) (prompt : string)
    (images : list InputImage) (config : option GenerateConfig) (clk : Clock)
    (w : W) :
  ~ In ModelDefault (map Name (genModels gen)) ->
  (forall c, config = Some c -> cfgModel c = "") ->
  let m := NewManager gen now in
  let out := Generate m sel prompt config clk w in
  let s := Send m StartConversation prompt images config w in
  outResult out = Err (ErrModelNotRegistered ModelDefault)
  /\ outCalls out = [] /\ outSleeps out = [] /\ outWorld out = w
  /\ sentResult s = Err (ErrModelNotRegistered ModelDefault)
  /\ sentCalls s = [] /\ sentConv s = StartConversation.
Proof.
  intros Hnot Hcfg m out s.
  destruct (NewManager_fold gen now (genModels gen) New)
    as (Hd & Hout & _).
  fold (NewManager gen now) in Hd, Hout. fold m in Hd, Hout.
  destruct (Hout ModelDefault Hnot) as [Hmap Hlim].
  change (modelMappings m !! ModelDefault = (∅ : gmap Model ModelMapping) !! ModelDefault) in Hmap.
  change (rateLimiters m !! ModelDefault = (∅ : gmap Model RateLimiter.t) !! ModelDefault) in Hlim.
  rewrite lookup_empty in Hmap. rewrite lookup_empty in Hlim.
  change (defaultModel m = ModelDefault) in Hd.
  assert (Hres : forall c, (config = None -> c = DefaultConfig) ->
                 (forall c', config = Some c' -> c = c') ->
                 resolveModel m (Some c) = ModelDefault).
  { intros c HN HS. unfold resolveModel. rewrite Hd.
    destruct config as [c'|].
    - rewrite (HS c' eq_refl), (Hcfg c' eq_refl). reflexivity.
    - rewrite (HN eq_refl). reflexivity. }
  subst out s. unfold Generate, Send.
  set (cfg := match config with None => DefaultConfig | Some c => c end).
  assert (Hr : resolveModel m (Some cfg) = ModelDefault).
  { apply Hres; subst cfg; [intros ->; reflexivity|intros c' ->; reflexivity]. }
  rewrite Hr. unfold checkRateLimit. unfold Model in *. rewrite Hlim.
  unfold getGeneratorForConfig. rewrite Hr. unfold Model in *. rewrite Hmap.
  assert (Hs : sendModel m StartConversation config = ModelDefault).
  { unfold sendModel. simpl. rewrite Hd.
    destruct config as [c'|]; [|reflexivity].
    rewrite (Hcfg c' eq_refl). reflexivity. }
  rewrite Hs. unfold Model in *. rewrite Hmap. repeat split.
Qed.

Lemma NewManager_default_not_first_witness :
  outResult (Generate Fixtures.manager Fixtures.never "test prompt" None
               Fixtures.atZero tt) =
    Err (ErrModelNotRegistered "nano-banana-2").
Proof.
  destruct (NewManager_default_not_first Fixtures.mockGen 0 Fixtures.never
              "test prompt" [] None Fixtures.atZero tt) as (H & _).
  - simpl. intros [H|[]]. discriminate H.
  - discriminate.
  - exact H.
Defined.

(** ** Requests the router never admits *)

Section Admission.
Context {W : Type}.

Lemma checkRateLimit_noRequests (m : Manager W) (sel : Duration -> wake)
    (model : Model) (cfg : GenerateConfig) (prompt : string) (clk : Clock)
    (limiter : RateLimiter.t) :
  rateLimiters m !! model = Some limiter -> noRequests limiter ->
  WaitOnRateLimit cfg = false ->
  exists retryAfter limiter',
    checkRateLimit m sel model cfg prompt clk =
      (Some (RateLimitError retryAfter "tokens" model),
       SetRateLimiter m model limiter', [])
    /\ noRequests limiter'.
Proof.
  intros Hlim [Hc Hr] Hwait. unfold checkRateLimit.
  rewrite Hlim, Hwait.
  destruct (TryConsume_no_request_capacity limiter
              (Int64.add (tokenEstimator m prompt) tokenBuffer)
              (atConsumeTokens clk) (atConsumeRequests clk) Hc Hr)
    as (Hf & Hc' & Hr').
  destruct (RateLimiter.TryConsume limiter _ _ _) as [ok limiter1].
  simpl in Hf, Hc', Hr'. subst ok. simpl.
  rewrite RateLimiter_TimeUntilAvailable_max.
  eexists _, limiter1. split; [reflexivity|]. split; assumption.
Qed.

End Admission.

(** X18: a model whose limiter has no request capacity is never served.
    With a limiter whose request bucket has capacity 0 (the default limiter
    of a model registered with [RequestsPerMinute = 0] and a positive
    [TokensPerMinute]), every [Generate] that does not wait is refused with
    the rate-limit error before any backend call, whatever the prompt and
    the time, and it leaves a limiter that still has no request capacity:
    zero is not "unlimited". *)
Theorem Generate_refused_without_requests {W : Type} (m : Manager W)
    (sel : Duration -> wake) (prompt : string)
    (config : option GenerateConfig) (clk : Clock) (w : W)
    (limiter : RateLimiter.t) :
  let cfg := match config with None => DefaultConfig | Some c => c end in
  let model := resolveModel m (Some cfg) in
  let out := Generate m sel prompt config clk w in
  rateLimiters m !! model = Some limiter ->
  noRequests limiter ->
  WaitOnRateLimit cfg = false ->
  (exists retryAfter,
     outResult out = Err (RateLimitError retryAfter "tokens" model))
  /\ outCalls out = [] /\ outWorld out = w
  /\ (exists limiter',
        rateLimiters (outManager out) !! model = Some limiter'
        /\ noRequests limiter')
  /\ resolveModel (outManager out) (Some cfg) = model.
Proof.
  intros cfg model out Hlim Hno Hwait. subst out. unfold Generate.
  fold cfg. fold model.
  destruct (checkRateLimit_noRequests m sel model cfg prompt clk limiter
              Hlim Hno Hwait) as (retryAfter & limiter' & Heq & Hno').
  rewrite Heq. simpl.
  split; [eexists; reflexivity|]. split; [reflexivity|].
  split; [reflexivity|]. split; [|reflexivity].
  exists limiter'. split; [apply lookup_insert_eq|exact Hno'].
Qed.

Lemma Generate_refused_without_requests_witness :
  let info := mkModelInfo "m" "p" "m-api" (mkRateLimits 1000000 0 0) in
  let m := RegisterModel (@New unit) "m" (mkMapping "p" "m-api") info 0 0 in
  let out := Generate m Fixtures.never ""
               (Some (withModel DefaultConfig "m"))
               (mkClock (3 * Minute) (3 * Minute) (3 * Minute) (3 * Minute))
               tt in
  exists retryAfter,
    outResult out = Err (RateLimitError retryAfter "tokens" "m").
Proof.
  intros info m out.
  destruct (Generate_refused_without_requests m Fixtures.never ""
              (Some (withModel DefaultConfig "m"))
              (mkClock (3 * Minute) (3 * Minute) (3 * Minute) (3 * Minute))
              tt (RateLimiter.New 1000000 0 0 0)) as (H & _).
  - vm_compute. reflexivity.
  - split; [reflexivity|]. vm_compute. discriminate.
  - reflexivity.
  - exact H.
Defined.

Lemma checkRateLimit_waiting {W : Type} (m : Manager W)
    (sel : Duration -> wake) (model : Model) (cfg : GenerateConfig)
    (prompt : string) (clk : Clock) :
  WaitOnRateLimit cfg = true ->
  (forall e, fst (fst (checkRateLimit m sel model cfg prompt clk)) = Some e ->
     exists le, e = LimiterError le)
  /\ (forall c,
        getGeneratorForConfig
          (snd (fst (checkRateLimit m sel model cfg prompt clk))) c =
        getGeneratorForConfig m c).
Proof.
  intros Hwait. unfold checkRateLimit.
  destruct (rateLimiters m !! model) as [limiter|]; [|split; [discriminate|reflexivity]].
  rewrite Hwait.
  destruct (RateLimiter.WaitAndConsume limiter sel _ _ clk)
    as [[[le|] limiter1] slept]; simpl.
  - split; [|reflexivity]. intros e [= <-]. eexists; reflexivity.
  - split; [discriminate|reflexivity].
Qed.

(** X19: with [WaitOnRateLimit] set the router never makes a
    [RateLimitError].  A [Generate] that waits on the rate limit and ends
    before any backend call fails with the limiter's own error (the wait
    exceeds [MaxWaitDuration], the context is done, or the tokens could not
    be acquired after the wait) or with a routing error; [IsRateLimitError]
    is false for each of them. *)
Theorem Generate_waiting_errors {W : Type} (m : Manager W)
    (sel : Duration -> wake) (prompt : string)
    (config : option GenerateConfig) (clk : Clock) (w : W) (e : error) :
  let cfg := match config with None => DefaultConfig | Some c => c end in
  let out := Generate m sel prompt config clk w in
  WaitOnRateLimit cfg = true ->
  outCalls out = [] ->
  outResult out = Err e ->
  IsRateLimitError e = false
  /\ ((exists le, e = LimiterError le)
      \/ (exists model, e = ErrModelNotRegistered model)
      \/ (exists provider, e = ErrProviderNotConfigured provider)).
Proof.
  intros cfg out Hwait. subst out. unfold Generate. fold cfg.
  destruct (checkRateLimit_waiting m sel (resolveModel m (Some cfg)) cfg
              prompt clk Hwait) as [Herr Hgen].
  destruct (checkRateLimit m sel (resolveModel m (Some cfg)) cfg prompt clk)
    as [[[err|] m1] slept]; simpl in Herr, Hgen |- *.
  - intros _ He. injection He as He. subst e.
    destruct (Herr err eq_refl) as [le ->].
    split; [reflexivity|]. left. eexists; reflexivity.
  - rewrite Hgen. unfold getGeneratorForConfig, getProvider.
    destruct (modelMappings m !! resolveModel m (Some cfg)) as [mapping|].
    + destruct (providers m !! mapProvider mapping) as [gen|]; simpl.
      * destruct (genGenerate gen prompt _ w); simpl. discriminate.
      * intros _ He. injection He as He. subst e. split; [reflexivity|].
        right. right. eexists; reflexivity.
    + simpl. intros _ He. injection He as He. subst e. split; [reflexivity|].
      right. left. eexists; reflexivity.
Qed.

Lemma Generate_waiting_errors_witness :
  let cfg := mkGenerateConfig "test-model" "" "" 0 false false None true
               Second in
  let out := Generate Fixtures.manager Fixtures.never "test prompt" (Some cfg)
               Fixtures.atZero tt in
  exists e, outResult out = Err e /\ IsRateLimitError e = false.
Proof.
  intros cfg out.
  assert (Hr : outResult out =
               Err (LimiterError
                      (RateLimiter.WaitExceeded 4620000000 Second)))
    by (vm_compute; reflexivity).
  eexists. split; [exact Hr|].
  apply (Generate_waiting_errors Fixtures.manager Fixtures.never "test prompt"
           (Some cfg) Fixtures.atZero tt _ eq_refl).
  - vm_compute. reflexivity.
  - exact Hr.
Defined.

(* ===================================================================== *)
(** * Further properties of conversations *)

Section Sessions.
Context {W : Type}.


(** A [Send] that opens a session. *)
Lemma Send_native_start (m : Manager W) (c : ManagedConversation W)
    (prompt : string) (images : list InputImage)
    (config : option GenerateConfig) (w : W) mapping gen start :
  unbound c (mapProvider mapping) ->
  modelMappings m !! sendModel m c config = Some mapping ->
  providers m !! mapProvider mapping = Some gen ->
  genStartConversation gen = Some start ->
  let cfg := withModel (match config with Some cfg => cfg | None => DefaultConfig end)
               (ActualModelName mapping) in
  let pc := fst (start w) in
  let r := fst (convSend pc prompt images cfg (snd (start w))) in
  let w1 := snd (convSend pc prompt images cfg (snd (start w))) in
  Send m c prompt images config w =
    mkSent r
      (mkConversation
         (match r with Ok _ => convHistory pc w1 | Err _ => history c end)
         (lockedModel c) (modelLocked c) (Some pc) (mapProvider mapping))
      w1
      [CallStartConversation (mapProvider mapping);
       CallConvSend (mapProvider mapping) prompt images cfg].
Proof.
  intros Hunb Hmap Hprov Hstart cfg pc r w1. subst pc r w1. unfold Send.
  rewrite Hmap. fold cfg.
  assert (Hbound : match providerConv c with
                   | Some pc => if String.eqb (convProvider c) (mapProvider mapping)
                                then Some pc else None
                   | None => None
                   end = None).
  { unfold unbound in Hunb. destruct (providerConv c); [|reflexivity].
    destruct (String.eqb_spec (convProvider c) (mapProvider mapping));
      [contradiction|reflexivity]. }
  rewrite Hbound. unfold getProvider. rewrite Hprov, Hstart.
  destruct (start w) as [pc w0]. simpl.
  destruct (convSend pc prompt images cfg w0) as [[res|e] w1]; reflexivity.
Qed.



End Sessions.



(** ** What a [Send] depends on, and what a failed one leaves *)

(** X21: the sends of a conversation are not rate limited.  [Send] reads
    the model mappings, the providers and the default model of its manager
    and nothing else: managers that agree on these give the same [Send],
    whatever limiters are set on them, also a limiter that refuses every
    [Generate]. *)
Theorem Send_ignores_rate_limits {W : Type} (m m' : Manager W)
    (c : ManagedConversation W) (prompt : string) (images : list InputImage)
    (config : option GenerateConfig) (w : W) :
  modelMappings m' = modelMappings m ->
  providers m' = providers m ->
  defaultModel m' = defaultModel m ->
  Send m' c prompt images config w = Send m c prompt images config w.
Proof.
  intros Hmap Hprov Hdef. unfold Send, sendModel, getProvider.
  rewrite Hmap, Hprov, Hdef. reflexivity.
Qed.

Lemma Send_ignores_rate_limits_witness :
  let m := SetRateLimiter Fixtures.manager "test-model"
             (RateLimiter.New 100 0 0 0) in
  IsRateLimitError
    (match outResult (Generate m Fixtures.never "test prompt"
                        Fixtures.testConfig Fixtures.atZero tt) with
     | Err e => e
     | Ok _ => BackendError ""
     end) = true
  /\ Send m StartConversation "test prompt" [] Fixtures.testConfig tt =
     Send Fixtures.manager StartConversation "test prompt" []
       Fixtures.testConfig tt
  /\ succeeded (Send m StartConversation "test prompt" [] Fixtures.testConfig
                  tt) = true.
Proof.
  intros m. split; [vm_compute; reflexivity|].
  split; [|vm_compute; reflexivity].
  apply (Send_ignores_rate_limits Fixtures.manager m); reflexivity.
Defined.

(** X22: a [Send] that fails adds nothing to the conversation's history and
    leaves its model lock as it was; when it fails before any backend call
    (the model is not registered, or its provider is not configured) the
    conversation and the world are wholly unchanged. *)
Theorem Send_failure_keeps_history {W : Type} (m : Manager W)
    (c : ManagedConversation W) (prompt : string) (images : list InputImage)
    (config : option GenerateConfig) (w : W) :
  let s := Send m c prompt images config w in
  succeeded s = false ->
  history (sentConv s) = history c
  /\ lockedModel (sentConv s) = lockedModel c
  /\ modelLocked (sentConv s) = modelLocked c
  /\ (sentCalls s = [] -> sentConv s = c /\ sentWorld s = w).
Proof.
  intros s. subst s. unfold Send, succeeded.
  destruct (modelMappings m !! sendModel m c config) as [mapping|];
    [|simpl; repeat split].
  destruct (providerConv c) as [pc|] eqn:Hpc.
  - destruct (String.eqb (convProvider c) (mapProvider mapping)).
    + destruct (convSend pc _ _ _ w) as [[res|e] w1]; simpl;
        [discriminate|]. repeat split; discriminate.
    + destruct (getProvider m (mapProvider mapping)) as [gen|e];
        [|simpl; repeat split].
      destruct (genStartConversation gen) as [start|].
      * destruct (start w) as [pc' w0].
        destruct (convSend pc' _ _ _ w0) as [[res|e] w1]; simpl;
          [discriminate|]. repeat split; discriminate.
      * destruct (0 <? length images)%nat.
        -- destruct (genEditMultiple gen _ _ _ w) as [[res|e] w1]; simpl;
             [discriminate|]. repeat split; discriminate.
        -- destruct (genGenerate gen _ _ w) as [[res|e] w1]; simpl;
             [discriminate|]. repeat split; discriminate.
  - destruct (getProvider m (mapProvider mapping)) as [gen|e];
      [|simpl; repeat split].
    destruct (genStartConversation gen) as [start|].
    + destruct (start w) as [pc' w0].
      destruct (convSend pc' _ _ _ w0) as [[res|e] w1]; simpl;
        [discriminate|]. repeat split; discriminate.
    + destruct (0 <? length images)%nat.
      * destruct (genEditMultiple gen _ _ _ w) as [[res|e] w1]; simpl;
          [discriminate|]. repeat split; discriminate.
      * destruct (genGenerate gen _ _ w) as [[res|e] w1]; simpl;
          [discriminate|]. repeat split; discriminate.
Qed.

Lemma Send_failure_keeps_history_witness :
  let s1 := Send Fixtures.nativeManager StartConversation "a kite" []
              Fixtures.nativeConfig [] in
  let s2 := Send Fixtures.nativeManager (sentConv s1) "" []
              Fixtures.nativeConfig (sentWorld s1) in
  succeeded s2 = false
  /\ history (sentConv s2) = history (sentConv s1)
  /\ length (history (sentConv s2)) = 2%nat
  /\ length (convHistory Fixtures.echoConv (sentWorld s2)) = 3%nat.
Proof.
  intros s1 s2. split; [vm_compute; reflexivity|].
  split; [|split; vm_compute; reflexivity].
  apply (Send_failure_keeps_history Fixtures.nativeManager (sentConv s1) ""
           [] Fixtures.nativeConfig (sentWorld s1)).
  vm_compute. reflexivity.
Defined.

(** ** [Clear] and the model lock *)

Section Lock.
Context {W : Type}.

Lemma Send_keeps_lock (m : Manager W) (c : ManagedConversation W)
    (prompt : string) (images : list InputImage)
    (config : option GenerateConfig) (w : W) :
  lockedModel (sentConv (Send m c prompt images config w)) = lockedModel c
  /\ modelLocked (sentConv (Send m c prompt images config w)) = modelLocked c.
Proof.
  unfold Send.
  destruct (modelMappings m !! sendModel m c config) as [mapping|];
    [|split; reflexivity].
  destruct (providerConv c) as [pc|].
  - destruct (String.eqb (convProvider c) (mapProvider mapping)).
    + destruct (convSend pc _ _ _ w) as [[res|e] w1]; split; reflexivity.
    + destruct (getProvider m (mapProvider mapping)) as [gen|e];
        [|split; reflexivity].
      destruct (genStartConversation gen) as [start|].
      * destruct (start w) as [pc' w0].
        destruct (convSend pc' _ _ _ w0) as [[res|e] w1]; split; reflexivity.
      * destruct (0 <? length images)%nat;
          [destruct (genEditMultiple gen _ _ _ w) as [[res|e] w1]
          |destruct (genGenerate gen _ _ w) as [[res|e] w1]];
          split; reflexivity.
  - destruct (getProvider m (mapProvider mapping)) as [gen|e];
      [|split; reflexivity].
    destruct (genStartConversation gen) as [start|].
    + destruct (start w) as [pc' w0].
      destruct (convSend pc' _ _ _ w0) as [[res|e] w1]; split; reflexivity.
    + destruct (0 <? length images)%nat;
        [destruct (genEditMultiple gen _ _ _ w) as [[res|e] w1]
        |destruct (genGenerate gen _ _ w) as [[res|e] w1]];
        split; reflexivity.
Qed.

End Lock.

(** X23: [Clear] starts the conversation afresh but keeps its model.  It
    empties the history, clears the provider's session exactly when there is
    one and drops it, and leaves the model lock untouched.  The next [Send]
    therefore opens a new session on a backend with native conversations;
    on a backend without them it makes the one stateless call, and when
    that succeeds the history holds the two turns of that exchange and
    nothing older. *)
Theorem Clear_starts_afresh {W : Type} (m : Manager W)
    (c : ManagedConversation W) (w : W) (prompt : string)
    (images : list InputImage) (config : option GenerateConfig) :
  let c1 := fst (Clear c w) in
  let w1 := snd (Clear c w) in
  let s := Send m c1 prompt images config w1 in
  history c1 = [] /\ providerConv c1 = None
  /\ lockedModel c1 = lockedModel c /\ modelLocked c1 = modelLocked c
  /\ w1 = match providerConv c with
          | Some pc => convClear pc w
          | None => w
          end
  /\ (forall mapping gen,
        modelMappings m !! sendModel m c config = Some mapping ->
        providers m !! mapProvider mapping = Some gen ->
        let cfg :=
          withModel
            (match config with Some cfg => cfg | None => DefaultConfig end)
            (ActualModelName mapping) in
        match genStartConversation gen with
        | Some start =>
            sentCalls s =
              [CallStartConversation (mapProvider mapping);
               CallConvSend (mapProvider mapping) prompt images cfg]
            /\ providerConv (sentConv s) = Some (fst (start w1))
        | None =>
            sentCalls s =
              [statelessCall (mapProvider mapping) prompt images cfg]
            /\ (forall res, sentResult s = Ok res ->
                  history (sentConv s) = exchange prompt images res)
        end).
Proof.
  intros c1 w1 s.
  assert (Hc1 : c1 = mkConversation [] (lockedModel c) (modelLocked c) None "")
    by reflexivity.
  split; [reflexivity|]. split; [reflexivity|]. split; [reflexivity|].
  split; [reflexivity|]. split; [reflexivity|].
  intros mapping gen Hmap Hprov cfg.
  assert (Hmap1 : modelMappings m !! sendModel m c1 config = Some mapping)
    by (rewrite <- Hmap; reflexivity).
  assert (Hunb : unbound c1 (mapProvider mapping)) by exact I.
  destruct (genStartConversation gen) as [start|] eqn:Hstart.
  - pose proof (Send_native_start m c1 prompt images config w1 mapping gen
                  start Hunb Hmap1 Hprov Hstart) as Hs.
    simpl in Hs. fold cfg in Hs. fold s in Hs. rewrite Hs. split; reflexivity.
  - destruct (Send_stateless m c1 prompt images config w1 mapping gen
                Hmap1 Hprov Hstart Hunb) as (Hcalls & Hhist & _).
    fold cfg in Hcalls. fold s in Hcalls, Hhist.
    split; [exact Hcalls|]. intros res Hres. rewrite Hres in Hhist.
    rewrite Hhist. reflexivity.
Qed.

Lemma Clear_starts_afresh_witness :
  let s1 := Send Fixtures.nativeManager StartConversation "a kite" []
              Fixtures.nativeConfig [] in
  let cleared := Clear (sentConv s1) (sentWorld s1) in
  let s2 := Send Fixtures.nativeManager (fst cleared) "a boat" []
              Fixtures.nativeConfig (snd cleared) in
  history (fst cleared) = []
  /\ sentCalls s2 =
       [CallStartConversation "native-provider";
        CallConvSend "native-provider" "a boat" []
          (mkGenerateConfig "native-model-api" "" "" 0 false false None false
             0)].
Proof.
  intros s1 cleared s2.
  destruct (Clear_starts_afresh Fixtures.nativeManager (sentConv s1)
              (sentWorld s1) "a boat" [] Fixtures.nativeConfig)
    as (H1 & _ & _ & _ & _ & H6).
  split; [exact H1|].
  specialize (H6 (mkMapping "native-provider" "native-model-api")
                Fixtures.nativeGen ltac:(vm_compute; reflexivity)
                ltac:(vm_compute; reflexivity)).
  exact (proj1 H6).
Defined.

(** X24: a conversation started with [StartConversationWithModel] stays on
    its model.  While the model is locked the model a config names is
    ignored: two sends whose configs differ only in the model are the same
    send; and neither [Send], whether it succeeds or fails, nor [Clear]
    releases or changes the lock. *)
Theorem locked_model_ignores_config {W : Type} (m : Manager W)
    (c : ManagedConversation W) (prompt : string) (images : list InputImage)
    (cfg : GenerateConfig) (a b : Model) (config : option GenerateConfig)
    (w : W) :
  modelLocked c = true ->
  Send m c prompt images (Some (withModel cfg a)) w =
    Send m c prompt images (Some (withModel cfg b)) w
  /\ sendModel m c config = lockedModel c
  /\ modelLocked (sentConv (Send m c prompt images config w)) = true
  /\ lockedModel (sentConv (Send m c prompt images config w)) = lockedModel c
  /\ modelLocked (fst (Clear c w)) = true
  /\ lockedModel (fst (Clear c w)) = lockedModel c.
Proof.
  intros Hlock.
  destruct (Send_keeps_lock m c prompt images config w) as [Hl Hm].
  split; [|split; [unfold sendModel; rewrite Hlock; reflexivity|]].
  - unfold Send, sendModel. rewrite Hlock. reflexivity.
  - rewrite Hm, Hl, Hlock. repeat split; assumption.
Qed.

Lemma locked_model_ignores_config_witness :
  let c := @StartConversationWithModel unit "test-model" in
  let cfg := mkGenerateConfig "" "" "" 0 false false None false 0 in
  Send Fixtures.manager c "a kite" [] (Some (withModel cfg "other-model")) tt
    = Send Fixtures.manager c "a kite" [] Fixtures.testConfig tt
  /\ succeeded (Send Fixtures.manager c "a kite" []
                  (Some (withModel cfg "other-model")) tt) = true.
Proof.
  intros c cfg. split; [|vm_compute; reflexivity].
  exact (proj1 (locked_model_ignores_config Fixtures.manager c "a kite" []
                  cfg "other-model" "test-model" None tt eq_refl)).
Defined.

(* ===================================================================== *)
(** * The Gemini provider *)

(** ** Parsing a response *)

Section Parsing.
Import Gemini.

Lemma string_app_nil_r (a : string) : (a ++ "")%string = a.
Proof.
  induction a as [|x a IH]; [reflexivity|].
  change (String x (a ++ "")%string = String x a). rewrite IH. reflexivity.
Qed.

Lemma numbered_app (a b : list (list Z * string)) :
  forall k, numbered k (a ++ b) = numbered k a ++ numbered (k + len a) b.
Proof.
  induction a as [|[d m] a IH]; intros k; simpl.
  - unfold len. simpl. rewrite Z.add_0_r. reflexivity.
  - rewrite IH. do 3 f_equal. unfold len. simpl length. lia.
Qed.

Lemma numbered_Index (blobs : list (list Z * string)) :
  forall k, map Index (numbered k blobs) = seqZ k (len blobs).
Proof.
  induction blobs as [|[d m] rest IH]; intros k; [reflexivity|].
  simpl. rewrite IH. unfold len. simpl length.
  rewrite (seqZ_cons k (Z.of_nat (Datatypes.S (length rest)))) by lia.
  do 2 f_equal; lia.
Qed.

Lemma numbered_length (blobs : list (list Z * string)) :
  forall k, length (numbered k blobs) = length blobs.
Proof.
  induction blobs as [|[d m] rest IH]; intros k; [reflexivity|].
  simpl. rewrite IH. reflexivity.
Qed.

Lemma parsedFrom_nil (st : parsing) : parsedFrom st [] = st.
Proof.
  destruct st. unfold parsedFrom, len. simpl.
  rewrite string_app_nil_r, !app_nil_r, Z.add_0_r. reflexivity.
Qed.

Lemma parsedFrom_cons (st : parsing) (part : Genai.Part)
    (parts : list Genai.Part) :
  parsedFrom (parsePart st part) parts = parsedFrom st (part :: parts).
Proof.
  unfold parsedFrom, parsePart, regular. simpl.
  fold (isThought part).
  destruct (isThought part) eqn:Hth; simpl.
  - rewrite <- app_assoc. reflexivity.
  - assert (Htext :
      (if negb (String.eqb (Genai.partText part) "")
       then (genText st ++ Genai.partText part)%string else genText st)
      = (genText st ++ Genai.partText part)%string).
    { destruct (String.eqb_spec (Genai.partText part) "") as [->|]; simpl;
        [rewrite string_app_nil_r|]; reflexivity. }
    destruct (Genai.partInlineData part) as [blob|];
      [destruct (Genai.blobData blob) as [data|]|]; simpl;
      rewrite Htext, string_app_assoc; try reflexivity.
    f_equal.
    + rewrite <- app_assoc. reflexivity.
    + unfold len. simpl length. lia.
Qed.

Lemma parsedFrom_app (parts1 : list Genai.Part) :
  forall st parts2,
  parsedFrom (parsedFrom st parts1) parts2 = parsedFrom st (parts1 ++ parts2).
Proof.
  induction parts1 as [|part rest IH]; intros st parts2.
  - rewrite parsedFrom_nil. reflexivity.
  - rewrite <- parsedFrom_cons, IH, <- app_comm_cons, <- parsedFrom_cons.
    reflexivity.
Qed.

Lemma parseParts_present (parts : list (option Genai.Part)) :
  forall st, Forall (fun p => p <> None) parts ->
  parseParts st parts = Some (parsedFrom st (present parts)).
Proof.
  induction parts as [|[part|] rest IH]; intros st Hall; simpl.
  - rewrite parsedFrom_nil. reflexivity.
  - inversion Hall; subst. rewrite IH by assumption.
    rewrite parsedFrom_cons. reflexivity.
  - inversion Hall; subst. congruence.
Qed.

Lemma present_app {A : Type} (a b : list (option A)) :
  present (a ++ b) = present a ++ present b.
Proof.
  induction a as [|[x|] a IH]; simpl; [reflexivity| |assumption].
  rewrite IH. reflexivity.
Qed.

Lemma parseCandidates_present (candidates : list (option Genai.Candidate)) :
  forall st,
  Forall (fun c => c <> None) candidates ->
  Forall (fun p => p <> None) (allParts candidates) ->
  parseCandidates st candidates =
    Some (parsedFrom st (present (allParts candidates))).
Proof.
  induction candidates as [|[c|] rest IH]; intros st Hc Hp; simpl.
  - rewrite parsedFrom_nil. reflexivity.
  - inversion Hc; subst. simpl in Hp.
    destruct (Genai.candContent c) as [content|].
    + apply Forall_app in Hp as [Hp1 Hp2].
      rewrite parseParts_present by assumption.
      rewrite IH by assumption.
      rewrite parsedFrom_app, present_app. reflexivity.
    + rewrite IH by assumption. reflexivity.
  - inversion Hc; subst. congruence.
Qed.

End Parsing.

(** X25: what [parseResult] makes of a response.  A nil response and a
    response without candidates are the empty-response error.  For a
    response with candidates in which no candidate and no part is nil it
    returns a result, made from the parts of all candidates in order: the
    text is that of the parts that are not thoughts, concatenated; the
    images are the inline data of those parts, numbered 0, 1, 2, ... in
    [Index] across candidates; the thinking content is the text of the
    thoughts, one per line; a thought contributes to neither text nor
    images, even if it carries inline data; and the usage's [ImageCount] is
    the number of images returned. *)
Theorem parseResult_collects (g : Gemini.GeminiGenerator)
    (r : Genai.GenerateContentResponse) :
  let parts := Gemini.present (Gemini.allParts (Genai.Candidates r)) in
  let blobs := Gemini.blobsOf (Gemini.regular parts) in
  Gemini.parseResult g None = Returned (inr Gemini.EmptyResponse)
  /\ (Genai.Candidates r = [] ->
      Gemini.parseResult g (Some r) = Returned (inr Gemini.EmptyResponse))
  /\ (Genai.Candidates r <> [] -> Gemini.wellFormed r ->
      exists parsed,
        Gemini.parseResult g (Some r) = Returned (inl parsed)
        /\ Text (Gemini.parsedResult parsed) =
             Gemini.concatText (map Genai.partText (Gemini.regular parts))
        /\ Images (Gemini.parsedResult parsed) = Gemini.numbered 0 blobs
        /\ map Index (Images (Gemini.parsedResult parsed)) =
             seqZ 0 (len blobs)
        /\ ThinkingContent (Gemini.parsedResult parsed) =
             Join (map Genai.partText (List.filter Gemini.isThought parts))
               Gemini.newline
        /\ Gemini.parsedUsage parsed =
             option_map
               (fun u =>
                  mkUsageMetadata (Genai.PromptTokenCount u)
                    (Genai.CandidatesTokenCount u) (Genai.TotalTokenCount u)
                    (len (Images (Gemini.parsedResult parsed))))
               (Genai.responseUsage r)).
Proof.
  intros parts blobs.
  split; [reflexivity|]. split.
  - intros H. unfold Gemini.parseResult. rewrite H. reflexivity.
  - intros Hne [Hc Hp]. unfold Gemini.parseResult.
    destruct (Z.eqb_spec (len (Genai.Candidates r)) 0) as [Hz|Hz];
      [apply len_zero in Hz; contradiction|].
    rewrite (parseCandidates_present _ _ Hc Hp). fold parts.
    unfold Gemini.parsedFrom. cbn [Gemini.genText Gemini.genImages
      Gemini.thinkingParts Gemini.imageIndex]. fold blobs.
    eexists. split; [reflexivity|].
    cbn [Gemini.parsedResult Gemini.parsedUsage Text Images ThinkingContent].
    rewrite !app_nil_l.
    split; [reflexivity|]. split; [reflexivity|].
    split; [apply numbered_Index|]. split.
    + destruct (List.filter Gemini.isThought parts) as [|t ts]; reflexivity.
    + destruct (Genai.responseUsage r); reflexivity.
Qed.

Lemma parseResult_collects_witness :
  exists parsed,
    Gemini.parseResult (Gemini.mkGenerator []) (Some Fixtures.response) =
      Returned (inl parsed)
    /\ Images (Gemini.parsedResult parsed) =
         [mkGeneratedImage [1; 2] "image/png" 0 "";
          mkGeneratedImage [3] "image/jpeg" 1 ""]
    /\ Text (Gemini.parsedResult parsed) = "a kite"
    /\ ThinkingContent (Gemini.parsedResult parsed) = "planning".
Proof.
  destruct (parseResult_collects (Gemini.mkGenerator []) Fixtures.response)
    as (_ & _ & H).
  destruct H as (parsed & Hp & Ht & Hi & _ & Hth & _).
  - discriminate.
  - split; repeat constructor; discriminate.
  - exists parsed. split; [exact Hp|]. split; [exact Hi|].
    split; [exact Ht|exact Hth].
Defined.

(** ** Errors of the provider *)

Section ProviderErrors.
Import Gemini.
Context {W : Type}.

Lemma checkRateLimitError_Some (err : clientError) (model : string) :
  checkRateLimitError (Some err) model =
    Some (if rateLimited err
          then RateLimit (60 * Second) "requests" model err
          else ClientError err).
Proof.
  unfold checkRateLimitError, rateLimited.
  destruct (asAPIError err) as [apiErr|]; [|reflexivity].
  destruct (Genai.Code apiErr =? 429);
    destruct (String.eqb (Genai.Status apiErr) "RESOURCE_EXHAUSTED");
    reflexivity.
Qed.

End ProviderErrors.

Section ProviderReplies.
Import Gemini.
Context {W : Type}.

Lemma parseResult_classified (g : GeminiGenerator) result modelName e :
  parseResult g result = Returned (inr e) -> classified modelName e.
Proof.
  unfold parseResult. destruct result as [r|].
  - destruct (len (Genai.Candidates r) =? 0).
    + intros [= <-]. right. left. reflexivity.
    + destruct (parseCandidates _ _); discriminate.
  - intros [= <-]. right. left. reflexivity.
Qed.

Lemma failure_classified (err : clientError) (modelName what : string) e :
  match checkRateLimitError (Some err) modelName with
  | Some rlErr => rlErr
  | None => Failed what err
  end = e ->
  classified modelName e.
Proof.
  rewrite checkRateLimitError_Some. intros <-.
  destruct (rateLimited err) eqn:Hrl.
  - right. right. right. exists err. split; [assumption|reflexivity].
  - right. right. left. exists err. split; [assumption|reflexivity].
Qed.

End ProviderReplies.

(** X26: the provider returns four kinds of error and never wraps a failure
    of the API.  Whatever the client answers, an error returned by
    [Generate], [Edit], [EditMultiple] or a conversation's [Send] is a
    validation error, the empty-response error, the client's own error
    returned as it is, or, when an [APIError] on the client error's chain
    has code 429 or status [RESOURCE_EXHAUSTED], a rate-limit error around
    it with a retry-after of 60 s, the limit type ["requests"] and the
    resolved API model name.  The errors ["generation failed: ..."],
    ["edit failed: ..."] and the like are never returned. *)
Theorem provider_errors_classified {W : Type} (g : Gemini.GeminiGenerator)
    (client : @Gemini.Client W) (c : Gemini.GeminiConversation)
    (prompt : string) (image : InputImage) (images : list InputImage)
    (config : option Gemini.Config) (w : W) (e : Gemini.error) :
  let cfg := match config with None => Gemini.defaultConfig | Some c => c end in
  let modelName := Gemini.resolveModel g (Some cfg) in
  Gemini.replyResult (Gemini.Generate g client prompt config w)
    = Returned (inr e)
  \/ Gemini.replyResult (Gemini.Edit g client image prompt config w)
     = Returned (inr e)
  \/ Gemini.replyResult (Gemini.EditMultiple g client images prompt config w)
     = Returned (inr e)
  \/ Gemini.replyResult (fst (Gemini.Send g client c prompt images config w))
     = Returned (inr e) ->
  Gemini.classified modelName e
  /\ forall what err, e <> Gemini.Failed what err.
Proof.
  intros cfg modelName H.
  assert (Hc : Gemini.classified modelName e).
  { destruct H as [H|[H|[H|H]]]; revert H.
    - unfold Gemini.Generate. fold cfg. fold modelName.
      destruct (ValidatePrompt prompt) as [v|];
        [intros [= <-]; left; eexists; reflexivity|].
      destruct (client _ _ _ w) as [[result|err] w1].
      + apply parseResult_classified.
      + rewrite checkRateLimitError_Some. simpl. intros [= <-].
        apply (failure_classified err modelName "").
        rewrite checkRateLimitError_Some. reflexivity.
    - unfold Gemini.Edit. fold cfg. fold modelName.
      destruct (ValidatePrompt prompt) as [v|];
        [intros [= <-]; left; eexists; reflexivity|].
      destruct (ValidateInputImage image) as [v|];
        [intros [= <-]; left; eexists; reflexivity|].
      destruct (client _ _ _ w) as [[result|err] w1].
      + apply parseResult_classified.
      + rewrite checkRateLimitError_Some. simpl. intros [= <-].
        apply (failure_classified err modelName "").
        rewrite checkRateLimitError_Some. reflexivity.
    - unfold Gemini.EditMultiple. fold cfg. fold modelName.
      destruct (ValidatePrompt prompt) as [v|];
        [intros [= <-]; left; eexists; reflexivity|].
      destruct (ValidateInputImages images) as [v|];
        [intros [= <-]; left; eexists; reflexivity|].
      destruct (client _ _ _ w) as [[result|err] w1].
      + apply parseResult_classified.
      + rewrite checkRateLimitError_Some. simpl. intros [= <-].
        apply (failure_classified err modelName "").
        rewrite checkRateLimitError_Some. reflexivity.
    - unfold Gemini.Send. fold cfg. fold modelName.
      destruct (client _ _ _ w) as [[result|err] w1].
      + destruct (Gemini.parseResult g result) as [[parsed|e0]|] eqn:Hp; simpl.
        * destruct result as [r|]; [|discriminate].
          destruct (Genai.Candidates r) as [|[cand|] rest];
            [discriminate| |discriminate].
          destruct (Genai.candContent cand); discriminate.
        * intros [= <-]. exact (parseResult_classified g result modelName e0 Hp).
        * discriminate.
      + intros [= <-].
        apply (failure_classified err modelName "conversation send failed").
        reflexivity. }
  split; [exact Hc|].
  intros what err ->.
  destruct Hc as [[v Hv]|[Hv|[(x & _ & Hv)|(x & _ & Hv)]]]; discriminate.
Qed.

Lemma provider_errors_classified_witness :
  let err :=
    Gemini.Wraps "request failed"
      (Gemini.IsAPIError (Genai.mkAPIError 429 "quota" "RESOURCE_EXHAUSTED")) in
  let client : @Gemini.Client unit := fun _ _ _ w => (inr err, w) in
  let e := Gemini.RateLimit (60 * Second) "requests" "nano-banana-2" err in
  Gemini.replyResult
    (Gemini.Generate (Gemini.mkGenerator []) client "a kite" None tt)
    = Returned (inr e)
  /\ Gemini.classified "nano-banana-2" e.
Proof.
  intros err client e.
  assert (He : Gemini.replyResult
                 (Gemini.Generate (Gemini.mkGenerator []) client "a kite" None
                    tt) = Returned (inr e)) by (vm_compute; reflexivity).
  split; [exact He|].
  exact (proj1 (provider_errors_classified (Gemini.mkGenerator []) client
                  Gemini.StartConversation "a kite" Fixtures.inputImage []
                  None tt e (or_introl He))).
Defined.

(** ** What reaches the API *)

Section ProviderCalls.
Import Gemini.
Context {W : Type}.

(** The one call of an entry point that passed validation. *)
Lemma reply_after_call (g : GeminiGenerator) (client : @Client W)
    (what modelName : string) contents genConfig (w : W) :
  let call := mkApiCall modelName contents genConfig in
  replyCalls
    (match client modelName contents genConfig w with
     | (inr err, w1) =>
         match checkRateLimitError (Some err) modelName with
         | Some rlErr => mkReply (Returned (inr rlErr)) w1 [call]
         | None => mkReply (Returned (inr (Failed what err))) w1 [call]
         end
     | (inl result, w1) => mkReply (parseResult g result) w1 [call]
     end) = [call].
Proof.
  intros call.
  destruct (client modelName contents genConfig w) as [[result|err] w1];
    [reflexivity|].
  rewrite checkRateLimitError_Some. reflexivity.
Qed.

Lemma Send_call (g : GeminiGenerator) (client : @Client W)
    (c : GeminiConversation) prompt images config (w : W) :
  let cfg := match config with None => defaultConfig | Some c => c end in
  replyCalls (fst (Send g client c prompt images config w)) =
    [mkApiCall (resolveModel g (Some cfg))
       (contents c ++ [userContent prompt images])
       (buildGenerateContentConfig g cfg [])].
Proof.
  intros cfg. unfold Send, userContent. fold cfg.
  destruct (String.eqb prompt ""); simpl;
    destruct (client _ _ _ w) as [[result|err] w1]; simpl; try reflexivity;
    destruct (parseResult g result) as [[parsed|e0]|]; simpl; try reflexivity;
    (destruct result as [r|]; [|reflexivity]);
    (destruct (Genai.Candidates r) as [|[cand|] rest]; try reflexivity);
    destruct (Genai.candContent cand); reflexivity.
Qed.

End ProviderCalls.

(** X27: the provider validates before it calls, and a conversation does
    not validate.  [Generate], [Edit] and [EditMultiple] check the prompt
    first, then their image or images: when a check fails they return its
    validation error, make no API call and leave the service untouched;
    when all pass they make exactly one call.  A conversation's [Send]
    checks nothing: it always makes exactly one call, also for an empty
    prompt without images. *)
Theorem provider_validates_first {W : Type} (g : Gemini.GeminiGenerator)
    (client : @Gemini.Client W) (c : Gemini.GeminiConversation)
    (prompt : string) (image : InputImage) (images : list InputImage)
    (config : option Gemini.Config) (w : W) :
  let gen := Gemini.Generate g client prompt config w in
  let ed := Gemini.Edit g client image prompt config w in
  let em := Gemini.EditMultiple g client images prompt config w in
  let sent := fst (Gemini.Send g client c prompt images config w) in
  let rejected v :=
    Gemini.mkReply (Returned (inr (Gemini.Validation v))) w [] in
  (prompt = "" ->
     gen = rejected (Sentinel ErrEmptyPrompt)
     /\ ed = rejected (Sentinel ErrEmptyPrompt)
     /\ em = rejected (Sentinel ErrEmptyPrompt))
  /\ (prompt <> "" ->
      length (Gemini.replyCalls gen) = 1%nat
      /\ match ValidateInputImage image with
         | Some v => ed = rejected v
         | None => length (Gemini.replyCalls ed) = 1%nat
         end
      /\ match ValidateInputImages images with
         | Some v => em = rejected v
         | None => length (Gemini.replyCalls em) = 1%nat
         end)
  /\ length (Gemini.replyCalls sent) = 1%nat.
Proof.
  intros gen ed em sent rejected. subst gen ed em sent rejected.
  split; [|split].
  - intros ->. repeat split.
  - intros Hne. unfold Gemini.Generate, Gemini.Edit, Gemini.EditMultiple.
    unfold ValidatePrompt.
    destruct (String.eqb_spec prompt ""); [contradiction|].
    split; [rewrite reply_after_call; reflexivity|]. split.
    + destruct (ValidateInputImage image); [reflexivity|].
      rewrite reply_after_call. reflexivity.
    + destruct (ValidateInputImages images); [reflexivity|].
      rewrite reply_after_call. reflexivity.
  - rewrite Send_call. reflexivity.
Qed.

Lemma provider_validates_first_witness :
  let client : @Gemini.Client nat := fun _ _ _ w => (inl None, Datatypes.S w) in
  let g := Gemini.mkGenerator [] in
  Gemini.EditMultiple g client [] "combine" None 0%nat =
    Gemini.mkReply
      (Returned (inr (Gemini.Validation (Sentinel ErrEmptyImageData))))
      0%nat []
  /\ length (Gemini.replyCalls (Gemini.Generate g client "a kite" None 0%nat))
     = 1%nat.
Proof.
  intros client g.
  destruct (provider_validates_first g client Gemini.StartConversation
              "combine" Fixtures.inputImage [] None 0%nat) as (_ & H & _).
  destruct (H ltac:(discriminate)) as (_ & _ & Hem).
  split; [exact Hem|].
  destruct (provider_validates_first g client Gemini.StartConversation
              "a kite" Fixtures.inputImage [] None 0%nat) as (_ & H' & _).
  exact (proj1 (H' ltac:(discriminate))).
Defined.

(** X28: what the API call carries.  The model name is the one the config
    names; for a nil config that is the package's public default
    ["nano-banana-2"], since the default config names it, and the provider's
    first API model name is used only for a config whose model is empty.
    Google Search grounding is requested by [Generate] alone, when
    [EnableGrounding] is set; [Edit], [EditMultiple] and [Send] never send
    tools.  Safety settings of the request replace the provider's defaults
    and are not merged with them. *)
Theorem provider_call_shape {W : Type} (g : Gemini.GeminiGenerator)
    (client : @Gemini.Client W) (c : Gemini.GeminiConversation)
    (prompt : string) (image : InputImage) (images : list InputImage)
    (config : option Gemini.Config) (w : W) (call : Gemini.apiCall) :
  let cfg := match config with None => Gemini.defaultConfig | Some c => c end in
  let gen := Gemini.Generate g client prompt config w in
  let ed := Gemini.Edit g client image prompt config w in
  let em := Gemini.EditMultiple g client images prompt config w in
  let sent := fst (Gemini.Send g client c prompt images config w) in
  In call (Gemini.replyCalls gen ++ Gemini.replyCalls ed
           ++ Gemini.replyCalls em ++ Gemini.replyCalls sent) ->
  Gemini.callModel call =
    match config with
    | None => ModelDefault
    | Some c =>
        if String.eqb (cfgModel (Gemini.routed c)) ""
        then Gemini.APIModelNanoBanana2
        else cfgModel (Gemini.routed c)
    end
  /\ (Genai.Tools (Gemini.callConfig call) = []
      \/ (Genai.Tools (Gemini.callConfig call) = [Genai.GoogleSearch]
          /\ In call (Gemini.replyCalls gen)
          /\ EnableGrounding (Gemini.routed cfg) = true))
  /\ (In call (Gemini.replyCalls gen) ->
      EnableGrounding (Gemini.routed cfg) = true ->
      Genai.Tools (Gemini.callConfig call) = [Genai.GoogleSearch])
  /\ Genai.SafetySettings (Gemini.callConfig call) =
       match Gemini.cfgSafetySettings cfg with
       | [] => Gemini.safetySettings g
       | settings => Gemini.convertSafetySettings settings
       end.
Proof.
  intros cfg gen ed em sent Hin.
  assert (Hmodel : Gemini.resolveModel g (Some cfg) =
            match config with
            | None => ModelDefault
            | Some c =>
                if String.eqb (cfgModel (Gemini.routed c)) ""
                then Gemini.APIModelNanoBanana2
                else cfgModel (Gemini.routed c)
            end).
  { subst cfg. destruct config as [c0|]; [|reflexivity].
    unfold Gemini.resolveModel.
    destruct (String.eqb (cfgModel (Gemini.routed c0)) ""); reflexivity. }
  assert (Hsafety : forall tools,
            Genai.SafetySettings (Gemini.buildGenerateContentConfig g cfg tools) =
            match Gemini.cfgSafetySettings cfg with
            | [] => Gemini.safetySettings g
            | settings => Gemini.convertSafetySettings settings
            end).
  { intros tools. unfold Gemini.buildGenerateContentConfig. simpl.
    destruct (Gemini.cfgSafetySettings cfg) as [|s0 rest]; [|reflexivity].
    simpl. destruct (Gemini.safetySettings g); reflexivity. }
  assert (Hgen : Gemini.replyCalls gen = [] \/
            Gemini.replyCalls gen =
              [Gemini.mkApiCall (Gemini.resolveModel g (Some cfg))
                 [Genai.mkContent "" [Some (Genai.mkPart prompt false None)]]
                 (Gemini.buildGenerateContentConfig g cfg
                    (if EnableGrounding (Gemini.routed cfg)
                     then [Genai.GoogleSearch] else []))]).
  { subst gen. unfold Gemini.Generate. fold cfg.
    destruct (ValidatePrompt prompt); [left; reflexivity|].
    right. rewrite reply_after_call. reflexivity. }
  assert (Hed : Gemini.replyCalls ed = [] \/
            exists contents,
              Gemini.replyCalls ed =
                [Gemini.mkApiCall (Gemini.resolveModel g (Some cfg)) contents
                   (Gemini.buildGenerateContentConfig g cfg [])]).
  { subst ed. unfold Gemini.Edit. fold cfg.
    destruct (ValidatePrompt prompt); [left; reflexivity|].
    destruct (ValidateInputImage image); [left; reflexivity|].
    right. rewrite reply_after_call. eexists; reflexivity. }
  assert (Hem : Gemini.replyCalls em = [] \/
            exists contents,
              Gemini.replyCalls em =
                [Gemini.mkApiCall (Gemini.resolveModel g (Some cfg)) contents
                   (Gemini.buildGenerateContentConfig g cfg [])]).
  { subst em. unfold Gemini.EditMultiple. fold cfg.
    destruct (ValidatePrompt prompt); [left; reflexivity|].
    destruct (ValidateInputImages images); [left; reflexivity|].
    right. rewrite reply_after_call. eexists; reflexivity. }
  assert (Hsent : exists contents,
            Gemini.replyCalls sent =
              [Gemini.mkApiCall (Gemini.resolveModel g (Some cfg)) contents
                 (Gemini.buildGenerateContentConfig g cfg [])]).
  { subst sent. rewrite Send_call. eexists; reflexivity. }
  assert (Hother : forall contents,
            call = Gemini.mkApiCall (Gemini.resolveModel g (Some cfg)) contents
                     (Gemini.buildGenerateContentConfig g cfg []) ->
            Gemini.callModel call = Gemini.resolveModel g (Some cfg)
            /\ Genai.Tools (Gemini.callConfig call) = []
            /\ Genai.SafetySettings (Gemini.callConfig call) =
                 match Gemini.cfgSafetySettings cfg with
                 | [] => Gemini.safetySettings g
                 | settings => Gemini.convertSafetySettings settings
                 end).
  { intros contents ->. simpl. split; [reflexivity|].
    split; [reflexivity|]. apply (Hsafety []). }
  assert (Hgen1 : In call (Gemini.replyCalls gen) ->
            Gemini.callModel call = Gemini.resolveModel g (Some cfg)
            /\ Genai.Tools (Gemini.callConfig call) =
                 (if EnableGrounding (Gemini.routed cfg)
                  then [Genai.GoogleSearch] else [])
            /\ Genai.SafetySettings (Gemini.callConfig call) =
                 match Gemini.cfgSafetySettings cfg with
                 | [] => Gemini.safetySettings g
                 | settings => Gemini.convertSafetySettings settings
                 end).
  { intros Hc. destruct Hgen as [Hg|Hg]; rewrite Hg in Hc; [destruct Hc|].
    destruct Hc as [<-|[]]. split; [reflexivity|].
    split; [reflexivity|].
    exact (Hsafety (if EnableGrounding (Gemini.routed cfg)
                    then [Genai.GoogleSearch] else [])). }
  assert (Hcases : In call (Gemini.replyCalls gen) \/
            exists contents,
              call = Gemini.mkApiCall (Gemini.resolveModel g (Some cfg))
                       contents (Gemini.buildGenerateContentConfig g cfg [])).
  { apply in_app_or in Hin as [Hin|Hin]; [left; exact Hin|].
    right. apply in_app_or in Hin as [Hin|Hin].
    - destruct Hed as [He|[contents He]]; rewrite He in Hin; [destruct Hin|].
      destruct Hin as [<-|[]]. eexists; reflexivity.
    - apply in_app_or in Hin as [Hin|Hin].
      + destruct Hem as [He|[contents He]]; rewrite He in Hin; [destruct Hin|].
        destruct Hin as [<-|[]]. eexists; reflexivity.
      + destruct Hsent as [contents He]. rewrite He in Hin.
        destruct Hin as [<-|[]]. eexists; reflexivity. }
  rewrite <- Hmodel.
  destruct Hcases as [Hc|[contents Hc]].
  - destruct (Hgen1 Hc) as (H1 & H2 & H3).
    split; [exact H1|]. split; [|split; [|exact H3]].
    + destruct (EnableGrounding (Gemini.routed cfg)) eqn:Hg;
        [right; repeat split; assumption|left; exact H2].
    + intros _ Hg. rewrite Hg in H2. exact H2.
  - destruct (Hother contents Hc) as (H1 & H2 & H3).
    split; [exact H1|]. split; [left; exact H2|]. split; [|exact H3].
    intros Hc' Hg. destruct (Hgen1 Hc') as (_ & H4 & _).
    rewrite Hg in H4. exact H4.
Qed.

Lemma provider_call_shape_witness :
  let g := Gemini.mkGenerator [] in
  let client : @Gemini.Client unit := fun _ _ _ w => (inl None, w) in
  let call :=
    Gemini.mkApiCall Gemini.APIModelNanoBanana1
      [Genai.mkContent "" [Some (Genai.mkPart "a kite" false None)]]
      (Gemini.buildGenerateContentConfig g
         (Gemini.mkConfig
            (mkGenerateConfig Gemini.APIModelNanoBanana1 "" "" 1 true false
               None false 0) [])
         [Genai.GoogleSearch]) in
  Gemini.callModel call = Gemini.APIModelNanoBanana1
  /\ Genai.Tools (Gemini.callConfig call) = [Genai.GoogleSearch].
Proof.
  intros g client call.
  assert (Hin : In call
            (Gemini.replyCalls
               (Gemini.Generate g client "a kite" Fixtures.groundedConfig tt)
             ++ Gemini.replyCalls
                  (Gemini.Edit g client Fixtures.inputImage "a kite"
                     Fixtures.groundedConfig tt)
             ++ Gemini.replyCalls
                  (Gemini.EditMultiple g client [] "a kite"
                     Fixtures.groundedConfig tt)
             ++ Gemini.replyCalls
                  (fst (Gemini.Send g client Gemini.StartConversation "a kite"
                          [] Fixtures.groundedConfig tt))))
    by (left; reflexivity).
  destruct (provider_call_shape g client Gemini.StartConversation "a kite"
              Fixtures.inputImage [] Fixtures.groundedConfig tt call Hin)
    as (Hm & _ & Ht & _).
  split; [exact Hm|]. apply Ht; [left; reflexivity|reflexivity].
Defined.

(** ** The URI of an input image *)

Section ImageURI.
Import Gemini.

(** Two images with the same bytes and MIME type. *)
Lemma imageParts_same (images images' : list InputImage) :
  Forall2 (fun a b => inData a = inData b /\ inMIMEType a = inMIMEType b)
    images images' ->
  imageParts images = imageParts images'
  /\ userImages images = userImages images'.
Proof.
  induction 1 as [|a b l l' [Hd Hm] _ [IH1 IH2]]; [split; reflexivity|].
  unfold imageParts, userImages in *. simpl.
  rewrite Hd, Hm, IH1, IH2. split; reflexivity.
Qed.

End ImageURI.

(** X29: the provider never reads the URI of an input image.  Images with
    the same bytes and MIME type get the same treatment from [Send] and,
    once both pass validation, from [Edit] and [EditMultiple], whatever
    their URIs; an image given by its URI alone passes validation and is
    sent as an inline blob without data. *)
Theorem provider_drops_URI {W : Type} (g : Gemini.GeminiGenerator)
    (client : @Gemini.Client W) (c : Gemini.GeminiConversation)
    (prompt : string) (image image' : InputImage)
    (images images' : list InputImage) (config : option Gemini.Config)
    (w : W) :
  inData image = inData image' -> inMIMEType image = inMIMEType image' ->
  Forall2 (fun a b => inData a = inData b /\ inMIMEType a = inMIMEType b)
    images images' ->
  Gemini.Send g client c prompt images config w
    = Gemini.Send g client c prompt images' config w
  /\ (ValidateInputImage image = None -> ValidateInputImage image' = None ->
      Gemini.Edit g client image prompt config w
        = Gemini.Edit g client image' prompt config w)
  /\ (ValidateInputImages images = None ->
      ValidateInputImages images' = None ->
      Gemini.EditMultiple g client images prompt config w
        = Gemini.EditMultiple g client images' prompt config w)
  /\ (inData image = [] -> URI image <> "" -> prompt <> "" ->
      exists call,
        Gemini.replyCalls (Gemini.Edit g client image prompt config w) = [call]
        /\ Gemini.callContents call =
             [Genai.mkContent ""
                [Some (Genai.mkPart "" false
                         (Some (Genai.mkBlob (Some []) (inMIMEType image))));
                 Some (Genai.mkPart prompt false None)]]).
Proof.
  intros Hd Hm Hall.
  destruct (imageParts_same images images' Hall) as [Hparts Himgs].
  split; [|split; [|split]].
  - unfold Gemini.Send. rewrite Hparts, Himgs. reflexivity.
  - intros Hv Hv'. unfold Gemini.Edit. rewrite Hv, Hv', Hd, Hm. reflexivity.
  - intros Hv Hv'. unfold Gemini.EditMultiple. rewrite Hv, Hv', Hparts.
    reflexivity.
  - intros Hempty Huri Hprompt.
    assert (Hv : ValidateInputImage image = None).
    { unfold ValidateInputImage. rewrite Hempty.
      destruct (String.eqb_spec (URI image) ""); [contradiction|].
      reflexivity. }
    unfold Gemini.Edit, ValidatePrompt. rewrite Hv.
    destruct (String.eqb_spec prompt ""); [contradiction|].
    rewrite reply_after_call, Hempty. eexists. split; reflexivity.
Qed.

Lemma provider_drops_URI_witness :
  let g := Gemini.mkGenerator [] in
  let client : @Gemini.Client unit := fun _ _ _ w => (inl None, w) in
  exists call,
    Gemini.replyCalls
      (Gemini.Edit g client Fixtures.uriImage "a kite" None tt) = [call]
    /\ Gemini.callContents call =
         [Genai.mkContent ""
            [Some (Genai.mkPart "" false (Some (Genai.mkBlob (Some []) "")));
             Some (Genai.mkPart "a kite" false None)]].
Proof.
  intros g client.
  destruct (provider_drops_URI g client Gemini.StartConversation "a kite"
              Fixtures.uriImage Fixtures.uriImage [] [] None tt
              eq_refl eq_refl (List.Forall2_nil _)) as (_ & _ & _ & H).
  apply H; [reflexivity|discriminate|discriminate].
Defined.

(** ** A provider conversation over several sends *)

Section ProviderConversation.
Import Gemini.
Context {W : Type}.

(** What one [Send] leaves of the conversation. *)
Lemma Send_leaves (g : GeminiGenerator) (client : @Client W)
    (c : GeminiConversation) prompt images config (w : W) :
  let r := fst (Send g client c prompt images config w) in
  let c' := snd (Send g client c prompt images config w) in
  map Role (history c') =
    map Role (history c)
    ++ (if succeeded r then ["user"; "model"] else ["user"])
  /\ exists replied,
       contents c' = contents c ++ userContent prompt images :: replied.
Proof.
  unfold Send, succeeded, userContent.
  destruct (client _ _ _ w) as [[result|err] w1]; simpl.
  - destruct (parseResult g result) as [[parsed|e0]|]; simpl;
      try (rewrite map_app; split; [reflexivity|exists []; reflexivity]).
    destruct result as [resp|]; simpl;
      [|rewrite map_app; split; [reflexivity|exists []; reflexivity]].
    destruct (Genai.Candidates resp) as [|[cand|] rest]; simpl;
      try (rewrite !map_app, <- app_assoc; split;
           [reflexivity|exists []; reflexivity]);
      try (rewrite map_app; split; [reflexivity|exists []; reflexivity]).
    destruct (Genai.candContent cand) as [content|]; simpl;
      rewrite !map_app, <- ?app_assoc; (split; [reflexivity|]);
      [eexists; reflexivity|exists []; reflexivity].
  - rewrite map_app. split; [reflexivity|exists []; reflexivity].
Qed.

(** A run of sends: the roles it records, the contents it leaves and the
    contents of each of its calls. *)
Lemma sendAll_leaves (g : GeminiGenerator) (client : @Client W) config
    (reqs : list (string * list InputImage)) :
  forall (c : GeminiConversation) (w : W) rs c' w',
    sendAll g client c reqs config w = (rs, c', w') ->
    map Role (history c') = map Role (history c) ++ rolesAdded rs
    /\ (exists added, contents c' = contents c ++ added)
    /\ forall (i : nat) r, rs !! i = Some r ->
         exists call sent,
           replyCalls r = [call]
           /\ callContents call = contents c ++ sent
           /\ forall (j : nat) p, (j <= i)%nat -> reqs !! j = Some p ->
                In (userContent (fst p) (snd p)) sent.
Proof.
  induction reqs as [|[prompt images] rest IH]; intros c w rs c' w' Hrun.
  - simpl in Hrun. injection Hrun as <- <- <-.
    split; [symmetry; apply app_nil_r|].
    split; [exists []; symmetry; apply app_nil_r|].
    intros i r Hr. destruct i; discriminate Hr.
  - simpl in Hrun.
    pose proof (Send_leaves g client c prompt images config w) as Hone.
    pose proof (Send_call g client c prompt images config w) as Hcall.
    destruct (Send g client c prompt images config w) as [r1 c1].
    simpl in Hone, Hcall. destruct Hone as [Hroles [replied Hcont]].
    destruct (sendAll g client c1 rest config (replyWorld r1))
      as [[rs2 c2] w2] eqn:Hrest.
    injection Hrun as <- <- <-.
    destruct (IH _ _ _ _ _ Hrest) as (Hroles2 & [added Hadded] & Hcalls).
    split; [|split].
    + rewrite Hroles2, Hroles. unfold rolesAdded. simpl.
      rewrite <- app_assoc. reflexivity.
    + exists (userContent prompt images :: replied ++ added).
      rewrite Hadded, Hcont, <- app_assoc. reflexivity.
    + intros [|i] r Hr.
      * injection Hr as <-. eexists. exists [userContent prompt images].
        split; [exact Hcall|]. split; [reflexivity|].
        intros j p Hj Hp. assert (j = 0%nat) as -> by lia.
        injection Hp as <-. left. reflexivity.
      * destruct (Hcalls i r Hr) as (call & sent & Hc1 & Hc2 & Hprev).
        exists call. exists (userContent prompt images :: replied ++ sent).
        split; [exact Hc1|]. split.
        { rewrite Hc2, Hcont, <- app_assoc. reflexivity. }
        intros [|j] p Hj Hp.
        { injection Hp as <-. left. reflexivity. }
        right. apply in_or_app. right.
        apply (Hprev j p); [lia|exact Hp].
Qed.

End ProviderConversation.

(** X30: a provider conversation keeps what it sent, answered or not.
    Over a run of sends, every send records its user turn, and a model turn
    after it exactly when it succeeded; every send makes one API call, whose
    contents begin with the conversation's and hold the message of each
    send so far: a message whose send failed is sent again with every later
    one. *)
Theorem conversation_resends_failed {W : Type} (g : Gemini.GeminiGenerator)
    (client : @Gemini.Client W) (config : option Gemini.Config)
    (reqs : list (string * list InputImage)) (c : Gemini.GeminiConversation)
    (w : W) :
  let '(rs, c', _) := Gemini.sendAll g client c reqs config w in
  map Role (Gemini.History c') =
    map Role (Gemini.History c) ++ Gemini.rolesAdded rs
  /\ length rs = length reqs
  /\ forall (i j : nat) r p,
       rs !! i = Some r -> (j <= i)%nat -> reqs !! j = Some p ->
       exists call sent,
         Gemini.replyCalls r = [call]
         /\ Gemini.callContents call = Gemini.contents c ++ sent
         /\ In (Gemini.userContent (fst p) (snd p)) sent.
Proof.
  destruct (Gemini.sendAll g client c reqs config w) as [[rs c'] w'] eqn:Hrun.
  destruct (sendAll_leaves g client config reqs c w rs c' w' Hrun)
    as (Hroles & _ & Hcalls).
  split; [exact Hroles|]. split.
  - clear Hroles Hcalls. revert c w rs c' w' Hrun.
    induction reqs as [|[prompt images] rest IH]; intros c w rs c' w' Hrun;
      simpl in Hrun.
    + injection Hrun as <- <- <-. reflexivity.
    + destruct (Gemini.Send g client c prompt images config w) as [r1 c1].
      destruct (Gemini.sendAll g client c1 rest config (Gemini.replyWorld r1))
        as [[rs2 c2] w2] eqn:Hrest.
      injection Hrun as <- <- <-. simpl. f_equal. exact (IH _ _ _ _ _ Hrest).
  - intros i j r p Hr Hj Hp.
    destruct (Hcalls i r Hr) as (call & sent & H1 & H2 & H3).
    exists call, sent. split; [exact H1|]. split; [exact H2|].
    exact (H3 j p Hj Hp).
Qed.

Lemma conversation_resends_failed_witness :
  let run :=
    Gemini.sendAll (Gemini.mkGenerator []) Fixtures.flaky
      Gemini.StartConversation [("a kite", []); ("make it red", [])] None
      0%nat in
  map Gemini.succeeded (fst (fst run)) = [false; true]
  /\ map Role (Gemini.History (snd (fst run))) = ["user"; "user"; "model"]
  /\ exists r call sent,
       fst (fst run) !! 1%nat = Some r
       /\ Gemini.replyCalls r = [call]
       /\ Gemini.callContents call = sent
       /\ In (Gemini.userContent "a kite" []) sent.
Proof.
  intros run. subst run.
  pose proof (conversation_resends_failed (Gemini.mkGenerator [])
                Fixtures.flaky None [("a kite", []); ("make it red", [])]
                Gemini.StartConversation 0%nat) as H.
  destruct (Gemini.sendAll (Gemini.mkGenerator []) Fixtures.flaky
              Gemini.StartConversation [("a kite", []); ("make it red", [])]
              None 0%nat) as [[rs c'] w'] eqn:Hrun.
  vm_compute in Hrun. injection Hrun as <- <- <-.
  destruct H as (_ & _ & H).
  split; [reflexivity|]. split; [reflexivity|].
  destruct (H 1%nat 0%nat _ _ eq_refl (le_S _ _ (le_n 0)) eq_refl)
    as (call & sent & H1 & H2 & H3).
  eexists. exists call, sent. split; [reflexivity|].
  split; [exact H1|]. split; [exact H2|exact H3].
Defined.
